(** * Skill ingestion and resolution engine: a shallow embedding

    This development embeds the core of the agent-skills server in Rocq:
    - [models/parameter.ts]   the parameter validator,
    - [models/registry.ts]    the multi-source skill registry,
    - [services/skill-executor.ts]  invocation, template substitution and
      the filtered listing,
    - [services/skill-parser.ts]    identifier normalization, the index shape
      and the directory shape of a repository, and the per-bullet parameter
      inference; the document parser, the file system and the network are
      parameters,
    - [services/git-sync.ts] and the bootstrap file: the sync controller, the
      auto-sync loop, and the reloads of start-up, manual refresh and
      auto-sync.

    Conventions.  A JavaScript string is a [string]: one [ascii] per UTF-16
    code unit, covering the code units 0..255.  A number is a safe integer
    (of magnitude at most 2^53 - 1), which [String] prints in plain decimal
    notation.  A [Date] is its time value in milliseconds, or the invalid
    date.  A plain object ([Record<string, unknown>]) is the list of its own
    entries in [Object.keys] order; it inherits the members of
    [Object.prototype], which [key in object] and [object[key]] find too.  A
    [Map] is the list of its entries in insertion order.  A
    [Promise] is what it settles to; where the interleaving of pending
    promises matters (the auto-sync loop) the pending calls are part of the
    state. *)

From Stdlib Require Import String Ascii List ZArith Lia Bool Arith.
From Stdlib Require Import Permutation.
Import ListNotations.

Open Scope string_scope.
Open Scope list_scope.
Open Scope nat_scope.

(** String concatenation, JavaScript's [+] on strings. *)
Infix "+++" := String.append (right associativity, at level 60).

(* ===================================================================== *)
(** * Part I: definitions *)
(* ===================================================================== *)

(** ** JavaScript string primitives *)

Definition code (c : ascii) : nat := nat_of_ascii c.

Definition between (lo hi : nat) (c : ascii) : bool :=
  (lo <=? code c) && (code c <=? hi).

(** [a-z0-9], the class whose complement [normalizeSkillId] replaces. *)
Definition isLowerAlnum (c : ascii) : bool :=
  between 97 122 c || between 48 57 c.

(** [\w] *)
Definition isWordChar (c : ascii) : bool :=
  between 97 122 c || between 65 90 c || between 48 57 c || (code c =? 95).

(** [\s] and the characters removed by [String.prototype.trim]: TAB, LF, VT,
    FF, CR, SPACE and NBSP. *)
Definition isSpace (c : ascii) : bool :=
  between 9 13 c || (code c =? 32) || (code c =? 160).

(** Code units changed by [toLowerCase]: A-Z and the Latin-1 capitals
    U+00C0..U+00DE without the multiplication sign U+00D7. *)
Definition isUpper (c : ascii) : bool :=
  between 65 90 c || between 192 214 c || between 216 222 c.

Definition lowerChar (c : ascii) : ascii :=
  if isUpper c then ascii_of_nat (code c + 32) else c.

Fixpoint toLowerCase (s : string) : string :=
  match s with
  | EmptyString => EmptyString
  | String c s' => String (lowerChar c) (toLowerCase s')
  end.

Definition hyphen : ascii := "-"%char.

Definition isEmpty (s : string) : bool :=
  match s with EmptyString => true | _ => false end.

(** [a || b] on strings: the empty string is falsy. *)
Definition orElse (a b : string) : string :=
  if isEmpty a then b else a.

(** ** [SkillParser.normalizeSkillId] *)

(** [.replace(/[^a-z0-9]+/g, '-')]: every maximal run of characters outside
    [a-z0-9] becomes one hyphen.  [inRun] tells that the previous character
    already belonged to the run being replaced. *)
Fixpoint replaceNonAlnumRuns (inRun : bool) (s : string) : string :=
  match s with
  | EmptyString => EmptyString
  | String c s' =>
      if isLowerAlnum c then String c (replaceNonAlnumRuns false s')
      else if inRun then replaceNonAlnumRuns true s'
      else String hyphen (replaceNonAlnumRuns true s')
  end.

(** The [^-+] alternative of [.replace(/^-+|-+$/g, '')]. *)
Fixpoint dropLeadingHyphens (s : string) : string :=
  match s with
  | EmptyString => EmptyString
  | String c s' => if Ascii.eqb c hyphen then dropLeadingHyphens s' else s
  end.

(** The [-+$] alternative: the run of hyphens that reaches the end. *)
Fixpoint dropTrailingHyphens (s : string) : string :=
  match s with
  | EmptyString => EmptyString
  | String c s' =>
      let r := dropTrailingHyphens s' in
      if Ascii.eqb c hyphen && isEmpty r then EmptyString else String c r
  end.

Definition normalizeSkillId (id : string) : string :=
  dropTrailingHyphens
    (dropLeadingHyphens (replaceNonAlnumRuns false (toLowerCase id))).

(** Predicates used to state the shape of a normalized identifier. *)
Definition isIdChar (c : ascii) : bool := isLowerAlnum c || Ascii.eqb c hyphen.

Fixpoint allChars (p : ascii -> bool) (s : string) : bool :=
  match s with
  | EmptyString => true
  | String c s' => p c && allChars p s'
  end.

Definition firstChar (s : string) : option ascii :=
  match s with EmptyString => None | String c _ => Some c end.

Fixpoint lastChar (s : string) : option ascii :=
  match s with
  | EmptyString => None
  | String c EmptyString => Some c
  | String _ s' => lastChar s'
  end.

(** [A-Za-z0-9] *)
Definition isAlnum (c : ascii) : bool :=
  between 97 122 c || between 65 90 c || between 48 57 c.

(** No two neighbouring characters are both non-alphanumeric. *)
Fixpoint noAdjacentSeparators (s : string) : bool :=
  match s with
  | EmptyString => true
  | String c s' =>
      match s' with
      | EmptyString => true
      | String d _ => (isAlnum c || isAlnum d) && noAdjacentSeparators s'
      end
  end.

(** ** Exceptions *)

(** How a statement ends: with a value, or with an exception for the
    enclosing [catch], given by its message. *)
Inductive Completion (A : Type) : Type :=
| Returned (a : A)
| Thrown (error : string).

Arguments Returned {A} a.
Arguments Thrown {A} error.

(** The statements that follow one that may throw. *)
Definition andThen {A B : Type} (m : Completion A) (k : A -> Completion B)
  : Completion B :=
  match m with
  | Returned a => k a
  | Thrown error => Thrown error
  end.

Definition returns {A : Type} (m : Completion A) : bool :=
  match m with Returned _ => true | Thrown _ => false end.

(** ** Plain objects and [Map]s as entry lists *)

Fixpoint mapGet {V : Type} (m : list (string * V)) (k : string) : option V :=
  match m with
  | [] => None
  | (k', v) :: m' => if String.eqb k' k then Some v else mapGet m' k
  end.

(** [Map.prototype.has]; on a plain object, [Object.hasOwn]. *)
Definition mapHas {V : Type} (m : list (string * V)) (k : string) : bool :=
  match mapGet m k with Some _ => true | None => false end.

(** [Map.prototype.set]: an existing key keeps its position. *)
Fixpoint mapSet {V : Type} (m : list (string * V)) (k : string) (v : V)
  : list (string * V) :=
  match m with
  | [] => [(k, v)]
  | (k', v') :: m' =>
      if String.eqb k' k then (k', v) :: m' else (k', v') :: mapSet m' k v
  end.

Definition mapKeys {V : Type} (m : list (string * V)) : list string :=
  map fst m.

Definition mapValues {V : Type} (m : list (string * V)) : list V :=
  map snd m.

(** ** JavaScript values *)

(** The values found in a parameter map: what JSON carries, [undefined], and
    the built-in functions a plain object inherits (by their names).  Numbers
    are the integral ones. *)
#[warnings="-register-all"]
Inductive JSValue : Type :=
| JUndefined
| JNull
| JBoolean (b : bool)
| JNumber (n : Z)
| JString (s : string)
| JArray (items : list JSValue)
| JObject (entries : list (string * JSValue))
| JFunction (name : string).

Fixpoint digitsOfPos (fuel : nat) (n : Z) (acc : string) : string :=
  match fuel with
  | O => acc
  | S fuel' =>
      let d := String (ascii_of_nat (48 + Z.to_nat (n mod 10))) acc in
      if (n <? 10)%Z then d else digitsOfPos fuel' (n / 10)%Z d
  end.

(** [Number.isSafeInteger] on an integer. *)
Definition isSafeInteger (n : Z) : bool :=
  (Z.abs n <=? 9007199254740991)%Z.

(** [Number.prototype.toString] on a safe integer: plain decimal notation.
    (Beyond the safe integers [String] prints the shortest digits that
    identify the double, in exponent form from 10^21 on; these numbers are
    outside the embedding.) *)
Definition numberToString (n : Z) : string :=
  let digits (m : Z) := digitsOfPos (S (Z.to_nat (Z.log2 m))) m EmptyString in
  if (n <? 0)%Z then "-" +++ digits (- n)%Z else digits n.

Fixpoint joinWith (sep : string) (l : list string) : string :=
  match l with
  | [] => EmptyString
  | [x] => x
  | x :: rest => x +++ sep +++ joinWith sep rest
  end.

(** [String(value)].  An array prints its elements separated by commas, with
    [null] and [undefined] printed as nothing.  A plain object prints as
    [[object Object]] through the [toString] it inherits; when it has an own
    entry [toString], which is no function, neither that nor the inherited
    [valueOf] yields a primitive and the conversion throws a [TypeError]. *)
Fixpoint toStringJS (v : JSValue) : Completion string :=
  match v with
  | JUndefined => Returned "undefined"
  | JNull => Returned "null"
  | JBoolean b => Returned (if b then "true" else "false")
  | JNumber n => Returned (numberToString n)
  | JString s => Returned s
  | JArray items =>
      (fix join (l : list JSValue) : Completion string :=
         match l with
         | [] => Returned EmptyString
         | x :: rest =>
             andThen (match x with
                      | JUndefined | JNull => Returned EmptyString
                      | _ => toStringJS x
                      end)
               (fun first =>
                  match rest with
                  | [] => Returned first
                  | _ => andThen (join rest)
                           (fun others => Returned (first +++ "," +++ others))
                  end)
         end) items
  | JObject entries =>
      if mapHas entries "toString"
      then Thrown "Cannot convert object to primitive value"
      else Returned "[object Object]"
  | JFunction name => Returned ("function " +++ name +++ "() { [native code] }")
  end.

(** [Array.prototype.join(sep)] *)
Fixpoint joinJS (sep : string) (items : list JSValue) : Completion string :=
  match items with
  | [] => Returned EmptyString
  | x :: rest =>
      andThen (match x with
               | JUndefined | JNull => Returned EmptyString
               | _ => toStringJS x
               end)
        (fun first =>
           match rest with
           | [] => Returned first
           | _ => andThen (joinJS sep rest)
                    (fun others => Returned (first +++ sep +++ others))
           end)
  end.

(** Every number printed by [String(value)] is a safe integer. *)
Fixpoint safeNumbers (v : JSValue) : bool :=
  match v with
  | JNumber n => isSafeInteger n
  | JArray items => forallb safeNumbers items
  | _ => true
  end.

(** [SameValueZero], the comparison of [Array.prototype.includes]: primitives
    by value; an array or object only equals itself, and a value read from a
    call never is the object stored in a schema. *)
Definition sameValueZero (a b : JSValue) : bool :=
  match a, b with
  | JUndefined, JUndefined => true
  | JNull, JNull => true
  | JBoolean x, JBoolean y => Bool.eqb x y
  | JNumber x, JNumber y => (x =? y)%Z
  | JString x, JString y => String.eqb x y
  | JFunction x, JFunction y => String.eqb x y
  | _, _ => false
  end.

Definition includesJS (l : list JSValue) (v : JSValue) : bool :=
  existsb (fun x => sameValueZero x v) l.

(** The members of [Object.prototype]: eleven functions, and the accessor
    [__proto__], which on a plain object reads [Object.prototype] itself, an
    object without enumerable entries. *)
Definition objectPrototype : list (string * JSValue) :=
  [("constructor", JFunction "Object");
   ("__defineGetter__", JFunction "__defineGetter__");
   ("__defineSetter__", JFunction "__defineSetter__");
   ("hasOwnProperty", JFunction "hasOwnProperty");
   ("__lookupGetter__", JFunction "__lookupGetter__");
   ("__lookupSetter__", JFunction "__lookupSetter__");
   ("isPrototypeOf", JFunction "isPrototypeOf");
   ("propertyIsEnumerable", JFunction "propertyIsEnumerable");
   ("toString", JFunction "toString");
   ("valueOf", JFunction "valueOf");
   ("__proto__", JObject []);
   ("toLocaleString", JFunction "toLocaleString")].

(** [key in object] on a plain object: an own entry, or an inherited
    member. *)
Definition hasProperty (object : list (string * JSValue)) (key : string) : bool :=
  mapHas object key || mapHas objectPrototype key.

(** [object[key]] on a plain object: the own entry first, then the inherited
    member, then [undefined]. *)
Definition getProperty (object : list (string * JSValue)) (key : string)
  : JSValue :=
  match mapGet object key with
  | Some value => value
  | None =>
      match mapGet objectPrototype key with
      | Some value => value
      | None => JUndefined
      end
  end.

(** ** [models/parameter.ts] *)

Inductive ParameterType := TString | TNumber | TBoolean | TObject | TArray.

Record ParameterSchema := {
  param_name : string;
  param_type : ParameterType;
  param_description : string;
  param_required : bool;
  param_default : option JSValue;
  param_enum : option (list JSValue)
}.

(** The name zod gives to the type of a value and to the type a validator
    expects. *)
Definition parsedTypeName (v : JSValue) : string :=
  match v with
  | JUndefined => "undefined"
  | JNull => "null"
  | JBoolean _ => "boolean"
  | JNumber _ => "number"
  | JString _ => "string"
  | JArray _ => "array"
  | JObject _ => "object"
  | JFunction _ => "function"
  end.

Definition expectedTypeName (t : ParameterType) : string :=
  match t with
  | TString => "string"
  | TNumber => "number"
  | TBoolean => "boolean"
  | TObject => "object"
  | TArray => "array"
  end.

(** [z.string()], [z.number()], [z.boolean()], [z.record(z.any())] and
    [z.array(z.any())]: a check of the value's type. *)
Definition hasType (t : ParameterType) (v : JSValue) : bool :=
  match t, v with
  | TString, JString _ => true
  | TNumber, JNumber _ => true
  | TBoolean, JBoolean _ => true
  | TObject, JObject _ => true
  | TArray, JArray _ => true
  | _, _ => false
  end.

Record ValueCheck := { vc_valid : bool; vc_error : option string }.

Definition isStringType (t : ParameterType) : bool :=
  match t with TString => true | _ => false end.

(** The parse of the validator of a type: the message is zod's first issue,
    [Required] for an undefined value, the expected and received type names
    otherwise. *)
Definition typeIssue (t : ParameterType) (value : JSValue) : string :=
  match value with
  | JUndefined => "Required"
  | _ => "Expected " +++ expectedTypeName t +++ ", received "
           +++ parsedTypeName value
  end.

(** [validateParameterValue]: the validator of the type, refined for a string
    parameter with an [enum] by the membership test; then the parse.  The
    message of the refinement is built before the parse, with
    [param.enum.join(', ')]; when that throws, the [catch] answers with the
    text of the [TypeError], whatever the value. *)
Definition validateParameterValue (param : ParameterSchema) (value : JSValue)
  : ValueCheck :=
  match (if isStringType (param_type param) then param_enum param else None) with
  | Some allowed =>
      match joinJS ", " allowed with
      | Thrown message =>
          {| vc_valid := false; vc_error := Some ("TypeError: " +++ message) |}
      | Returned listed =>
          if hasType (param_type param) value then
            if includesJS allowed value
            then {| vc_valid := true; vc_error := None |}
            else {| vc_valid := false;
                    vc_error := Some ("Value must be one of: " +++ listed) |}
          else {| vc_valid := false;
                  vc_error := Some (typeIssue (param_type param) value) |}
      end
  | None =>
      if hasType (param_type param) value
      then {| vc_valid := true; vc_error := None |}
      else {| vc_valid := false;
              vc_error := Some (typeIssue (param_type param) value) |}
  end.

(** ** [models/skill.ts] and [models/repository.ts] *)

Inductive SkillSource := SrcRepository | SrcLocal.

Inductive SourceType := TyGit | TyLocal.

Record RepositorySource := {
  src_type : SourceType;
  src_url : option string;
  src_branch : string;
  src_path : option string;
  src_priority : Z
}.

Record SkillMetadata := {
  meta_author : option string;
  meta_version : option string;
  meta_tags : option (list string);
  meta_requirements : option (list string);
  meta_sourceOrg : option string;
  meta_sourceRepo : option string
}.

Record Skill := {
  skill_id : string;
  skill_name : string;
  skill_description : string;
  skill_source : SkillSource;
  skill_sourcePath : string;
  skill_content : string;
  skill_parameters : option (list ParameterSchema);
  skill_metadata : SkillMetadata;
  skill_lastUpdated : Z
}.

(** ** [models/registry.ts] *)

(** A [Date] object: a time value in milliseconds, or the invalid date that
    [new Date(text)] makes of a text it cannot read. *)
Inductive JSDate :=
| ValidDate (time : Z)
| InvalidDate.

Record SkillRegistry := {
  skills : list (string * Skill);
  sources : list RepositorySource;
  cachePath : string;
  lastSync : option JSDate
}.

Definition newRegistry (path : string) : SkillRegistry :=
  {| skills := []; sources := []; cachePath := path; lastSync := None |}.

(** [sources.sort((a, b) => b.priority - a.priority)]: a stable sort by
    descending priority.  [insertByPriority x l] puts [x], which stood before
    the elements of [l], in front of the first element that does not have a
    strictly higher priority. *)
Fixpoint insertByPriority (x : RepositorySource) (l : list RepositorySource)
  : list RepositorySource :=
  match l with
  | [] => [x]
  | y :: l' =>
      if (src_priority y <=? src_priority x)%Z then x :: y :: l'
      else y :: insertByPriority x l'
  end.

Fixpoint sortByPriority (l : list RepositorySource) : list RepositorySource :=
  match l with
  | [] => []
  | x :: l' => insertByPriority x (sortByPriority l')
  end.

Definition addSource (r : SkillRegistry) (s : RepositorySource) : SkillRegistry :=
  {| skills := skills r;
     sources := sortByPriority (sources r ++ [s]);
     cachePath := cachePath r;
     lastSync := lastSync r |}.

Definition getSources (r : SkillRegistry) : list RepositorySource := sources r.

(** The predicate handed to [sources.find] for a skill of the given origin. *)
Definition sourceOf (origin : SkillSource) (s : RepositorySource) : bool :=
  match origin, src_type s with
  | SrcRepository, TyGit => true
  | SrcLocal, TyLocal => true
  | _, _ => false
  end.

(** [this.sources.find(...)?.priority ?? 0] *)
Definition resolvedPriority (r : SkillRegistry) (origin : SkillSource) : Z :=
  match find (sourceOf origin) (sources r) with
  | Some s => src_priority s
  | None => 0%Z
  end.

Definition setSkill (r : SkillRegistry) (skill : Skill) : SkillRegistry :=
  {| skills := mapSet (skills r) (skill_id skill) skill;
     sources := sources r;
     cachePath := cachePath r;
     lastSync := lastSync r |}.

Definition registerSkill (r : SkillRegistry) (skill : Skill) : SkillRegistry :=
  match mapGet (skills r) (skill_id skill) with
  | Some existing =>
      let existingPriority := resolvedPriority r (skill_source existing) in
      let newPriority := resolvedPriority r (skill_source skill) in
      if (newPriority <? existingPriority)%Z then r else setSkill r skill
  | None => setSkill r skill
  end.

Definition getSkill (r : SkillRegistry) (id : string) : option Skill :=
  mapGet (skills r) id.

Definition listSkills (r : SkillRegistry) : list Skill := mapValues (skills r).

Definition hasSkill (r : SkillRegistry) (id : string) : bool :=
  mapHas (skills r) id.

Definition clear (r : SkillRegistry) : SkillRegistry :=
  {| skills := []; sources := sources r;
     cachePath := cachePath r; lastSync := lastSync r |}.

Definition getSkillCount (r : SkillRegistry) : nat := List.length (skills r).

Definition setLastSync (r : SkillRegistry) (date : JSDate) : SkillRegistry :=
  {| skills := skills r; sources := sources r;
     cachePath := cachePath r; lastSync := Some date |}.

Definition getLastSync (r : SkillRegistry) : option JSDate := lastSync r.

Record ValidationResult := { valid : bool; errors : option (list string) }.

(** The first loop of [validateParameters], over the declared parameters. *)
Fixpoint declaredErrors (parameters : list ParameterSchema)
  (params : list (string * JSValue)) : list string :=
  match parameters with
  | [] => []
  | param :: rest =>
      if param_required param && negb (hasProperty params (param_name param))
      then
        ("Missing required parameter: " +++ param_name param)
          :: declaredErrors rest params
      else if hasProperty params (param_name param) then
        let value := getProperty params (param_name param) in
        let result := validateParameterValue param value in
        if negb (vc_valid result) then
          ("Invalid parameter '" +++ param_name param +++ "': "
             +++ match vc_error result with
                 | Some e => e
                 | None => "undefined"
                 end)
            :: declaredErrors rest params
        else declaredErrors rest params
      else declaredErrors rest params
  end.

Definition declares (parameters : list ParameterSchema) (key : string) : bool :=
  existsb (fun p => String.eqb (param_name p) key) parameters.

(** The second loop, over [Object.keys(params)]. *)
Fixpoint unknownErrors (parameters : list ParameterSchema)
  (keys : list string) : list string :=
  match keys with
  | [] => []
  | paramName :: rest =>
      if negb (declares parameters paramName) then
        ("Unknown parameter: " +++ paramName) :: unknownErrors parameters rest
      else unknownErrors parameters rest
  end.

Definition validateParameters (r : SkillRegistry) (skillId : string)
  (params : list (string * JSValue)) : ValidationResult :=
  match getSkill r skillId with
  | None =>
      {| valid := false; errors := Some ["Skill not found: " +++ skillId] |}
  | Some skill =>
      let parameters := match skill_parameters skill with
                        | Some l => l
                        | None => []
                        end in
      let errs := declaredErrors parameters params
                  ++ unknownErrors parameters (mapKeys params) in
      {| valid := Nat.eqb (List.length errs) 0;
         errors := if Nat.ltb 0 (List.length errs) then Some errs else None |}
  end.

(** The object returned by [toJSON] and read by [fromJSON].  [lastSync]
    travels as text, and the field is what [new Date] makes of that text: the
    instant it denotes (the one of the date, for the ISO-8601 text that
    [toISOString] writes), or the invalid date when the text cannot be read.
    Every field [fromJSON] tests for presence is an option; a text that is
    empty counts as absent. *)
Record RegistrySnapshot := {
  snap_skills : option (list Skill);
  snap_sources : option (list RepositorySource);
  snap_cachePath : string;
  snap_lastSync : option JSDate
}.

(** [this.lastSync?.toISOString()]: nothing for [null], a [RangeError] for
    the invalid date. *)
Definition toISOString (date : option JSDate) : Completion (option JSDate) :=
  match date with
  | None => Returned None
  | Some (ValidDate time) => Returned (Some (ValidDate time))
  | Some InvalidDate => Thrown "Invalid time value"
  end.

Definition toJSON (r : SkillRegistry) : Completion RegistrySnapshot :=
  andThen (toISOString (lastSync r)) (fun text =>
    Returned {| snap_skills := Some (mapValues (skills r));
                snap_sources := Some (sources r);
                snap_cachePath := cachePath r;
                snap_lastSync := text |}).

Definition fromJSON (data : RegistrySnapshot) : SkillRegistry :=
  let registry := newRegistry (snap_cachePath data) in
  let registry := match snap_skills data with
                  | Some l => fold_left registerSkill l registry
                  | None => registry
                  end in
  let registry := match snap_sources data with
                  | Some l => fold_left addSource l registry
                  | None => registry
                  end in
  match snap_lastSync data with
  | Some t => setLastSync registry t
  | None => registry
  end.

(** The invariants of a registry built through its methods: the [Map] keys
    are the ids of the records they hold and are pairwise distinct, and the
    sources are in descending order of priority. *)
Fixpoint keysAreIds (m : list (string * Skill)) : bool :=
  match m with
  | [] => true
  | (k, s) :: m' => String.eqb k (skill_id s) && keysAreIds m'
  end.

Fixpoint distinctKeys {V : Type} (m : list (string * V)) : bool :=
  match m with
  | [] => true
  | (k, _) :: m' => negb (mapHas m' k) && distinctKeys m'
  end.

Fixpoint descending (l : list RepositorySource) : bool :=
  match l with
  | [] => true
  | x :: l' =>
      match l' with
      | [] => true
      | y :: _ => (src_priority y <=? src_priority x)%Z && descending l'
      end
  end.

Definition wellFormed (r : SkillRegistry) : bool :=
  keysAreIds (skills r) && distinctKeys (skills r) && descending (sources r).

(** The registries a program can build. *)
Inductive reachable : SkillRegistry -> Prop :=
| reach_new path : reachable (newRegistry path)
| reach_addSource r s : reachable r -> reachable (addSource r s)
| reach_registerSkill r s : reachable r -> reachable (registerSkill r s)
| reach_clear r : reachable r -> reachable (clear r)
| reach_setLastSync r t : reachable r -> reachable (setLastSync r t).

(** ** Sample data: the registry of the unit tests *)

Definition noMetadata : SkillMetadata :=
  {| meta_author := None; meta_version := None; meta_tags := None;
     meta_requirements := None; meta_sourceOrg := None;
     meta_sourceRepo := None |}.

Definition sampleSkill (id name : string) (origin : SkillSource)
  (parameters : list ParameterSchema) : Skill :=
  {| skill_id := id; skill_name := name; skill_description := "A test skill";
     skill_source := origin; skill_sourcePath := "/path/to/skill";
     skill_content := "Test content"; skill_parameters := Some parameters;
     skill_metadata := noMetadata; skill_lastUpdated := 0%Z |}.

Definition gitSource (p : Z) : RepositorySource :=
  {| src_type := TyGit; src_url := Some "https://github.com/test/repo.git";
     src_branch := "main"; src_path := None; src_priority := p |}.

Definition localSource (p : Z) : RepositorySource :=
  {| src_type := TyLocal; src_url := None; src_branch := "main";
     src_path := Some "/local/skills"; src_priority := p |}.

(** A git source of priority 1 and a local source of priority 2. *)
Definition twoSources : SkillRegistry :=
  addSource (addSource (newRegistry "/tmp/cache") (gitSource 1)) (localSource 2).

Definition localFoo : Skill := sampleSkill "foo" "Local foo" SrcLocal [].
Definition repoFooA : Skill := sampleSkill "foo" "Repo foo A" SrcRepository [].
Definition repoFooB : Skill := sampleSkill "foo" "Repo foo B" SrcRepository [].

Definition requiredParam (name : string) : ParameterSchema :=
  {| param_name := name; param_type := TString;
     param_description := "A required parameter"; param_required := true;
     param_default := None; param_enum := None |}.

(** The two-source registry after the local [foo] has been registered. *)
Definition localFooRegistered : SkillRegistry := registerSkill twoSources localFoo.

(** A snapshot whose skill list holds [foo] twice, the local record first. *)
Definition duplicateSnapshot : RegistrySnapshot :=
  {| snap_skills := Some [localFoo; repoFooA];
     snap_sources := Some [localSource 2; gitSource 1];
     snap_cachePath := "/tmp/cache";
     snap_lastSync := None |}.

(** The two-source registry with the local [foo], synced at a valid date. *)
Definition syncedRegistry : SkillRegistry :=
  setLastSync localFooRegistered (ValidDate 1700000000000).

(** A snapshot whose [lastSync] is a text that is no date, and the registry
    [fromJSON] makes of it. *)
Definition unreadableSnapshot : RegistrySnapshot :=
  {| snap_skills := Some [localFoo];
     snap_sources := Some [gitSource 1];
     snap_cachePath := "/tmp/cache";
     snap_lastSync := Some InvalidDate |}.

Definition unreadableRegistry : SkillRegistry :=
  setLastSync (addSource (registerSkill (newRegistry "/tmp/cache") localFoo)
                 (gitSource 1)) InvalidDate.

(** The three kinds of violation [validateParameters] reports, as
    selections from the declared parameters and from the caller's keys. *)
Definition isMissing (params : list (string * JSValue)) (p : ParameterSchema)
  : bool :=
  param_required p && negb (hasProperty params (param_name p)).

Definition isInvalid (params : list (string * JSValue)) (p : ParameterSchema)
  : bool :=
  hasProperty params (param_name p)
  && negb (vc_valid (validateParameterValue p
                       (getProperty params (param_name p)))).

Definition isUnknown (parameters : list ParameterSchema) (key : string) : bool :=
  negb (declares parameters key).

Definition declaredParameters (skill : Skill) : list ParameterSchema :=
  match skill_parameters skill with Some l => l | None => [] end.

Definition reportedErrors (res : ValidationResult) : list string :=
  match errors res with Some l => l | None => [] end.

Definition invalidMessage (p : ParameterSchema) (value : JSValue) : string :=
  "Invalid parameter '" +++ param_name p +++ "': "
    +++ match vc_error (validateParameterValue p value) with
        | Some e => e
        | None => "undefined"
        end.

(** A registry holding one skill with the required parameters [a] and [b]. *)
Definition twoRequired : Skill :=
  sampleSkill "test-skill" "Test Skill" SrcRepository
    [requiredParam "a"; requiredParam "b"].

Definition twoRequiredRegistry : SkillRegistry :=
  registerSkill (newRegistry "/tmp/cache") twoRequired.

(** ** [services/skill-executor.ts] *)

(** [\s*] in front of a character that is not white space: the whole run of
    white space is consumed. *)
Fixpoint skipSpaces (s : string) : string :=
  match s with
  | EmptyString => EmptyString
  | String c s' => if isSpace c then skipSpaces s' else s
  end.

(** A literal piece of a pattern; the result is what follows it. *)
Fixpoint matchLiteral (lit s : string) : option string :=
  match lit with
  | EmptyString => Some s
  | String c lit' =>
      match s with
      | EmptyString => None
      | String d s' => if Ascii.eqb c d then matchLiteral lit' s' else None
      end
  end.

(** A match of [opening \s* key \s* closing] at the start of [s], for a key
    made of word characters (such a key is a literal of the pattern and does
    not begin with white space); the result is what follows the match. *)
Definition matchPlaceholder (opening closing key s : string) : option string :=
  match matchLiteral opening s with
  | Some s1 =>
      match matchLiteral key (skipSpaces s1) with
      | Some s2 => matchLiteral closing (skipSpaces s2)
      | None => None
      end
  | None => None
  end.

Definition dollar : ascii := "$"%char.

(** [GetSubstitution] for a pattern without capture groups: in the
    replacement text [$$] stands for a dollar sign, [$&] for the matched text,
    [$`] for the text before the match and [$'] for the text after it; any
    other character, a lone dollar sign included, stands for itself. *)
Fixpoint getSubstitution (matched before after replacement : string) : string :=
  match replacement with
  | EmptyString => EmptyString
  | String c rest =>
      if Ascii.eqb c dollar then
        match rest with
        | EmptyString => String c EmptyString
        | String d rest' =>
            if Ascii.eqb d dollar then
              String dollar (getSubstitution matched before after rest')
            else if Ascii.eqb d "&"%char then
              matched +++ getSubstitution matched before after rest'
            else if Ascii.eqb d "`"%char then
              before +++ getSubstitution matched before after rest'
            else if Ascii.eqb d "'"%char then
              after +++ getSubstitution matched before after rest'
            else String c (getSubstitution matched before after rest)
        end
      else String c (getSubstitution matched before after rest)
  end.

(** [s.replace(pattern, replacement)] for a global pattern whose matches are
    not empty: scan from the left; at a match emit the substitution and go on
    after the match, otherwise keep the character.  [before] is the text
    already scanned.  The fuel bounds the number of steps. *)
Fixpoint replaceMatches (fuel : nat) (matcher : string -> option string)
  (replacement before s : string) : string :=
  match fuel with
  | O => s
  | S fuel' =>
      match matcher s with
      | Some rest =>
          let matched := substring 0 (String.length s - String.length rest) s in
          getSubstitution matched before rest replacement
            +++ replaceMatches fuel' matcher replacement (before +++ matched) rest
      | None =>
          match s with
          | EmptyString => EmptyString
          | String c s' =>
              String c (replaceMatches fuel' matcher replacement
                          (before +++ String c EmptyString) s')
          end
      end
  end.

Definition replacePlaceholders (opening closing key replacement content : string)
  : string :=
  replaceMatches (S (String.length content))
    (matchPlaceholder opening closing key) replacement EmptyString content.

Inductive ErrorCode :=
| InvalidParams | SkillNotFound | ExecutionError | RepositoryError | InternalError.

Record InvocationError := {
  err_code : ErrorCode;
  err_message : string;
  err_details : option (list string)
}.

Record InvocationResult := {
  success : bool;
  result_content : option string;
  result_error : option InvocationError;
  executionTime : Z
}.

Definition createSuccessResult (content : string) (time : Z) : InvocationResult :=
  {| success := true; result_content := Some content; result_error := None;
     executionTime := time |}.

Definition createErrorResult (code : ErrorCode) (message : string) (time : Z)
  (details : option (list string)) : InvocationResult :=
  {| success := false; result_content := None;
     result_error := Some {| err_code := code; err_message := message;
                             err_details := details |};
     executionTime := time |}.

(** A key made of word characters, [\w+]. *)
Definition isWord (s : string) : bool :=
  negb (isEmpty s) && allChars isWordChar s.

(** The two replacements of one key whose patterns match it as a literal,
    with the text of its value. *)
Definition replaceBoth (result key text : string) : string :=
  replacePlaceholders "${" "}" key text
    (replacePlaceholders "{{" "}}" key text result).

(** The sources of the two patterns built from a key. *)
Definition doubleBraceSource (key : string) : string :=
  "\{\{\s*" +++ key +++ "\s*\}\}".

Definition dollarBraceSource (key : string) : string :=
  "\$\{\s*" +++ key +++ "\s*\}".

(** [new RegExp(source, 'g')] for a source that is not embedded above: it
    throws a [SyntaxError], or gives a pattern, taken as the function
    [(subject, replacement) => subject.replace(pattern, replacement)]. *)
Definition RegExpEngine : Type :=
  string -> Completion (string -> string -> string).

Section Executor.

Variable newRegExp : RegExpEngine.

(** The pattern built from a key.  A key made of word characters stands for
    itself in the source, and the pattern is the one embedded above; any other
    key is left to the engine. *)
Definition newPlaceholder (opening closing source key : string)
  : Completion (string -> string -> string) :=
  if isWord key
  then Returned (fun subject replacement =>
                   replacePlaceholders opening closing key replacement subject)
  else newRegExp source.

(** One turn of the loop of [substituteParameters]: each of the two patterns
    is built, then [String(value)] is taken and the matches are replaced. *)
Definition substituteEntry (result : string) (entry : string * JSValue)
  : Completion string :=
  let (key, value) := entry in
  andThen (newPlaceholder "{{" "}}" (doubleBraceSource key) key)
    (fun placeholder =>
  andThen (toStringJS value) (fun text =>
  let result := placeholder result text in
  andThen (newPlaceholder "${" "}" (dollarBraceSource key) key)
    (fun altPlaceholder =>
  andThen (toStringJS value) (fun text =>
  Returned (altPlaceholder result text))))).

(** The loop over [Object.entries(parameters)]. *)
Fixpoint substituteParameters (content : string)
  (parameters : list (string * JSValue)) : Completion string :=
  match parameters with
  | [] => Returned content
  | entry :: rest =>
      andThen (substituteEntry content entry)
        (fun result => substituteParameters result rest)
  end.

(** [invokeSkill]; [startTime] and [endTime] are the two readings of the
    clock.  What [substituteParameters] throws is caught and answered with an
    [ExecutionError] that carries the message. *)
Definition invokeSkill (r : SkillRegistry) (startTime endTime : Z)
  (skillId : string) (parameters : list (string * JSValue)) : InvocationResult :=
  match getSkill r skillId with
  | None =>
      createErrorResult SkillNotFound ("Skill not found: " +++ skillId)
        (endTime - startTime)%Z None
  | Some skill =>
      let validation := validateParameters r skillId parameters in
      if negb (valid validation) then
        createErrorResult InvalidParams
          (match errors validation with
           | Some l => orElse (joinWith ", " l) "Parameter validation failed"
           | None => "Parameter validation failed"
           end)
          (endTime - startTime)%Z (errors validation)
      else
        match substituteParameters (skill_content skill) parameters with
        | Returned formattedContent =>
            createSuccessResult formattedContent (endTime - startTime)%Z
        | Thrown message =>
            createErrorResult ExecutionError message (endTime - startTime)%Z None
        end
  end.

End Executor.

Definition getSkillDocumentation (r : SkillRegistry) (startTime endTime : Z)
  (skillId : string) : InvocationResult :=
  match getSkill r skillId with
  | None =>
      createErrorResult SkillNotFound ("Skill not found: " +++ skillId)
        (endTime - startTime)%Z None
  | Some skill => createSuccessResult (skill_content skill) (endTime - startTime)%Z
  end.

(** The skill of the executor's unit test. *)
Definition greeting : Skill :=
  {| skill_id := "greeting"; skill_name := "Test greeting";
     skill_description := "Test skill greeting";
     skill_source := SrcRepository; skill_sourcePath := "/path/to/greeting";
     skill_content := "Hello, {{name}}!";
     skill_parameters :=
       Some [{| param_name := "name"; param_type := TString;
                param_description := "The name to greet";
                param_required := true; param_default := None;
                param_enum := None |}];
     skill_metadata := noMetadata; skill_lastUpdated := 0%Z |}.

Definition greetingRegistry : SkillRegistry :=
  registerSkill (newRegistry "/tmp/cache") greeting.

(** A template seen as pieces: stretches of text and placeholders of either
    form, [{{ name }}] or [${ name }], with the white space around the name. *)
Inductive Piece :=
| Text (s : string)
| Placeholder (double : bool) (pad1 name pad2 : string).

Definition opening (double : bool) : string := if double then "{{" else "${".

Definition closing (double : bool) : string := if double then "}}" else "}".

Definition renderPiece (p : Piece) : string :=
  match p with
  | Text s => s
  | Placeholder double pad1 name pad2 =>
      opening double +++ pad1 +++ name +++ pad2 +++ closing double
  end.

Fixpoint renderPieces (ps : list Piece) : string :=
  match ps with
  | [] => EmptyString
  | p :: ps' => renderPiece p +++ renderPieces ps'
  end.

(** Text that cannot begin a placeholder, nor be read as a replacement
    pattern: it has neither an opening brace nor a dollar sign. *)
Definition isPlain (c : ascii) : bool :=
  negb (Ascii.eqb c "{"%char) && negb (Ascii.eqb c dollar).

(** A name made of word characters, [\w+]. *)
Definition wellFormedPiece (p : Piece) : bool :=
  match p with
  | Text s => allChars isPlain s
  | Placeholder _ pad1 name pad2 =>
      allChars isSpace pad1 && isWord name && allChars isSpace pad2
  end.

Definition textOf (value : JSValue) : string :=
  match toStringJS value with
  | Returned text => text
  | Thrown _ => EmptyString
  end.

Definition plainEntry (entry : string * JSValue) : bool :=
  isWord (fst entry) && returns (toStringJS (snd entry))
  && allChars isPlain (textOf (snd entry)).

(** What the claim asks of a rendering: a placeholder whose name is a key
    becomes the text of the value, everything else stays. *)
Definition fillPiece (values : list (string * JSValue)) (p : Piece) : Piece :=
  match p with
  | Text _ => p
  | Placeholder _ _ name _ =>
      match mapGet values name with
      | Some v => Text (textOf v)
      | None => p
      end
  end.

(** A stretch of text at no position of which a match begins, whatever
    follows it. *)
Fixpoint inert (matcher : string -> option string) (s rest : string) : Prop :=
  match s with
  | EmptyString => True
  | String c s' =>
      matcher (String c (s' +++ rest)) = None /\ inert matcher s' rest
  end.

(** One pass over the template for one form and one key. *)
Definition fillForm (double : bool) (key v : string) (p : Piece) : Piece :=
  match p with
  | Text _ => p
  | Placeholder d _ name _ =>
      if Bool.eqb d double && String.eqb name key then Text v else p
  end.

(** ** [services/skill-parser.ts] *)

(** [String.prototype.includes] *)
Fixpoint includes (hay needle : string) : bool :=
  match hay with
  | EmptyString => isEmpty needle
  | String _ hay' => prefix needle hay || includes hay' needle
  end.

(** [String.prototype.split] on a one-character separator. *)
Fixpoint splitOn (sep : ascii) (s : string) : list string :=
  match s with
  | EmptyString => [EmptyString]
  | String c s' =>
      if Ascii.eqb c sep then EmptyString :: splitOn sep s'
      else match splitOn sep s' with
           | piece :: pieces => String c piece :: pieces
           | [] => [String c EmptyString]
           end
  end.

Fixpoint trimEnd (s : string) : string :=
  match s with
  | EmptyString => EmptyString
  | String c s' =>
      let r := trimEnd s' in
      if isSpace c && isEmpty r then EmptyString else String c r
  end.

(** [String.prototype.trim] *)
Definition trim (s : string) : string := trimEnd (skipSpaces s).

(** [s.split('/').pop()]; the split of a string is never empty. *)
Definition lastSegment (s : string) : string :=
  List.last (splitOn "/"%char s) EmptyString.

(** The type named by the first element of a type hint, [string] when the
    element names none. *)
Definition typeOfHint (typeStr : string) : ParameterType :=
  if String.eqb typeStr "string" then TString
  else if String.eqb typeStr "number" then TNumber
  else if String.eqb typeStr "boolean" then TBoolean
  else if String.eqb typeStr "object" then TObject
  else if String.eqb typeStr "array" then TArray
  else TString.

(** The type guessed from the description of a bullet without a hint. *)
Definition typeOfDescription (description : string) : ParameterType :=
  let d := toLowerCase description in
  if includes d "true/false" || includes d "boolean" then TBoolean
  else if includes d "array" || includes d "list" then TArray
  else if includes d "object" || includes d "map" then TObject
  else TString.

(** [typeHintRaw.split(',').map((s) => s.trim().toLowerCase())] *)
Definition typeHintParts (typeHintRaw : string) : list string :=
  map (fun s => toLowerCase (trim s)) (splitOn ","%char typeHintRaw).

(** [explicitRequired]: set by a second element that reads [required] or
    [optional], undefined otherwise. *)
Definition explicitRequired (typeHintRaw : option string) : option bool :=
  match typeHintRaw with
  | Some raw =>
      if isEmpty raw then None
      else match typeHintParts raw with
           | _ :: second :: _ =>
               if String.eqb second "required" then Some true
               else if String.eqb second "optional" then Some false
               else None
           | _ => None
           end
  | None => None
  end.

(** A capture group is truthy when it took part in the match and is not
    empty. *)
Definition hasTypeHint (typeHintRaw : option string) : bool :=
  match typeHintRaw with
  | Some raw => negb (isEmpty raw)
  | None => false
  end.

(** [isRequired] in the body of the loop of [extractParameters]. *)
Definition isRequired (typeHintRaw : option string) (description : string)
  : bool :=
  match explicitRequired typeHintRaw with
  | Some b => b
  | None =>
      let descLower := toLowerCase description in
      if hasTypeHint typeHintRaw then
        includes descLower "(required)" || includes descLower "is required"
      else if includes descLower "optional" || includes descLower "default"
      then false
      else if includes descLower "required" then true
      else false
  end.

(** The body of the loop of [extractParameters]: the schema pushed for one
    match of the bullet pattern, whose capture groups are the name, the
    optional parenthesised hint and the description. *)
Definition parameterOfBullet (name : string) (typeHintRaw : option string)
  (description : string) : ParameterSchema :=
  {| param_name := name;
     param_type :=
       match typeHintRaw with
       | Some raw =>
           if isEmpty raw then typeOfDescription description
           else match typeHintParts raw with
                | typeStr :: _ => typeOfHint typeStr
                | [] => TString
                end
       | None => typeOfDescription description
       end;
     param_description := trim description;
     param_required := isRequired typeHintRaw description;
     param_default := None;
     param_enum := None |}.

(** A link found in the index document: one match of the link pattern. *)
Record SkillLink := {
  link_name : string;
  link_org : string;
  link_repo : string;
  link_path : string;
  link_description : string;
  link_url : string
}.

Record ParsedSkill := {
  parsed_name : string;
  parsed_description : string;
  parsed_content : string;
  parsed_metadata : SkillMetadata;
  parsed_parameters : list ParameterSchema
}.

(** [Partial<ParsedSkill>], an entry of the override table. *)
Record ParsedOverride := {
  over_name : option string;
  over_description : option string;
  over_content : option string;
  over_metadata : option SkillMetadata;
  over_parameters : option (list ParameterSchema)
}.

Definition orDefault {A : Type} (o : option A) (d : A) : A :=
  match o with Some a => a | None => d end.

(** [Object.assign(parsed, override)] *)
Definition assignOverride (parsed : ParsedSkill) (o : ParsedOverride)
  : ParsedSkill :=
  {| parsed_name := orDefault (over_name o) (parsed_name parsed);
     parsed_description := orDefault (over_description o) (parsed_description parsed);
     parsed_content := orDefault (over_content o) (parsed_content parsed);
     parsed_metadata := orDefault (over_metadata o) (parsed_metadata parsed);
     parsed_parameters := orDefault (over_parameters o) (parsed_parameters parsed) |}.

(** What [await fetch(url)] gives: a rejection, or a response with its [ok]
    flag and its text ([None] when reading the text fails). *)
Inductive FetchResult :=
| FetchRejected
| FetchResponse (ok : bool) (text : option string).

Definition newline : string := String (ascii_of_nat 10) EmptyString.

Definition possibleFiles : list string := ["SKILL.md"; "README.md"; "skill.md"].

Definition rawUrl (link : SkillLink) (file : string) : string :=
  "https://raw.githubusercontent.com/" +++ link_org link +++ "/"
    +++ link_repo link +++ "/main/" +++ link_path link +++ "/" +++ file.

(** [this.normalizeSkillId(link.path.split('/').pop() || link.name)] *)
Definition linkSkillId (link : SkillLink) : string :=
  normalizeSkillId (orElse (lastSegment (link_path link)) (link_name link)).

Definition createSkillStub (now : Z) (link : SkillLink) (source : SkillSource)
  : Skill :=
  let skillId := linkSkillId link in
  {| skill_id := skillId;
     skill_name := orElse (lastSegment (link_name link)) skillId;
     skill_description := link_description link;
     skill_source := source;
     skill_sourcePath := link_url link;
     skill_content :=
       "# " +++ link_name link +++ newline +++ newline
         +++ link_description link +++ newline +++ newline
         +++ "## Source" +++ newline +++ newline
         +++ "This skill is available at: " +++ link_url link
         +++ newline +++ newline
         +++ "Please visit the source repository for full documentation and usage instructions.";
     skill_parameters := Some [];
     skill_metadata :=
       {| meta_author := None; meta_version := None; meta_tags := None;
          meta_requirements := None;
          meta_sourceOrg := Some (link_org link);
          meta_sourceRepo := Some (link_repo link) |};
     skill_lastUpdated := now |}.

Section IndexShape.

(** The document parser [parseMarkdown], the override table, the network and
    the clock are what the link loop runs against. *)
Variable parseMarkdown : string -> ParsedSkill.
Variable overrides : list (string * ParsedOverride).
Variable fetch : string -> FetchResult.
Variable now : Z.

(** The skill built from the text of a response that was [ok]. *)
Definition skillOfDocument (link : SkillLink) (source : SkillSource)
  (content : string) : Skill :=
  let parsed := parseMarkdown content in
  let skillId := linkSkillId link in
  let parsed := match mapGet overrides skillId with
                | Some override => assignOverride parsed override
                | None => parsed
                end in
  {| skill_id := skillId;
     skill_name := orElse (parsed_name parsed)
                     (orElse (lastSegment (link_name link)) skillId);
     skill_description := orElse (parsed_description parsed) (link_description link);
     skill_source := source;
     skill_sourcePath := link_url link;
     skill_content := parsed_content parsed;
     skill_parameters := Some (parsed_parameters parsed);
     skill_metadata :=
       {| meta_author := meta_author (parsed_metadata parsed);
          meta_version := meta_version (parsed_metadata parsed);
          meta_tags := meta_tags (parsed_metadata parsed);
          meta_requirements := meta_requirements (parsed_metadata parsed);
          meta_sourceOrg := Some (link_org link);
          meta_sourceRepo := Some (link_repo link) |};
     skill_lastUpdated := now |}.

(** The loop over the candidate files.  A rejected fetch or a failed read of
    the text is caught inside the loop and the next file is tried, as after a
    response that is not [ok]; when the files are used up the result is
    [null]. *)
Fixpoint tryFiles (link : SkillLink) (source : SkillSource)
  (files : list string) : option Skill :=
  match files with
  | [] => None
  | file :: rest =>
      match fetch (rawUrl link file) with
      | FetchResponse true (Some content) =>
          Some (skillOfDocument link source content)
      | FetchResponse true None => tryFiles link source rest
      | FetchResponse false _ => tryFiles link source rest
      | FetchRejected => tryFiles link source rest
      end
  end.

(** [fetchSkillFromGitHub]: every statement that can throw sits inside the
    loop's own [try], so the call always returns. *)
Definition fetchSkillFromGitHub (link : SkillLink) (source : SkillSource)
  : Completion (option Skill) :=
  Returned (tryFiles link source possibleFiles).

(** The loop of [parseSkillsFromReadme] over the links found in the index
    document: a skill that came back is pushed, [null] is passed over, and an
    exception is answered with a stub. *)
Fixpoint parseSkillsFromReadme (skillLinks : list SkillLink)
  (source : SkillSource) : list Skill :=
  match skillLinks with
  | [] => []
  | link :: rest =>
      match fetchSkillFromGitHub link source with
      | Returned (Some skill) => skill :: parseSkillsFromReadme rest source
      | Returned None => parseSkillsFromReadme rest source
      | Thrown _ => createSkillStub now link source
                      :: parseSkillsFromReadme rest source
      end
  end.

End IndexShape.

(** A link of the index document and a network that answers nothing. *)
Definition sampleLink : SkillLink :=
  {| link_name := "anthropics/pdf";
     link_org := "anthropics";
     link_repo := "skills";
     link_path := "skills/pdf";
     link_description := "Work with PDF documents";
     link_url := "https://github.com/anthropics/skills/tree/main/skills/pdf" |}.

Definition networkDown (url : string) : FetchResult := FetchRejected.

Definition notFound (url : string) : FetchResult := FetchResponse false None.

(** A candidate file is lost when the fetch is rejected, the response is not
    [ok], or its text cannot be read. *)
Definition fetchFails (r : FetchResult) : bool :=
  match r with
  | FetchResponse true (Some _) => false
  | _ => true
  end.

Definition allFetchesFail (fetch : string -> FetchResult) (link : SkillLink)
  : bool :=
  forallb (fun file => fetchFails (fetch (rawUrl link file))) possibleFiles.

(** ** [services/git-sync.ts] *)

Record GitSyncResult := {
  gs_success : bool;
  gs_updated : bool;
  gs_message : string;
  gs_skillsChanged : option bool
}.

Inductive GitCommand :=
| GitClone
| GitFetch
| GitRevParse (ref : string)
| GitResetHard.

(** The working copy, the remote it mirrors, and the environment: for each
    git command still to come, [Some message] when it is going to fail.  The
    journal lists the commands started so far, latest first. *)
Record WorkingCopy := {
  hasGitDir : bool;
  localHead : string;
  trackingHead : string;
  localChanges : list string;
  upstreamHead : string;
  failures : list (option string);
  journal : list GitCommand
}.

(** A computation over the working copy that may throw. *)
Definition Git (A : Type) : Type := WorkingCopy -> Completion A * WorkingCopy.

Definition ret {A : Type} (a : A) : Git A := fun w => (Returned a, w).

Definition bind {A B : Type} (m : Git A) (k : A -> Git B) : Git B :=
  fun w =>
    match m w with
    | (Returned a, w') => k a w'
    | (Thrown e, w') => (Thrown e, w')
    end.

(** [try { body } catch (error) { handler }] *)
Definition tryCatch {A : Type} (body : Git A) (handler : string -> Git A) : Git A :=
  fun w =>
    match body w with
    | (Returned a, w') => (Returned a, w')
    | (Thrown e, w') => handler e w'
    end.

Notation "x <- m ;; k" := (bind m (fun x => k))
  (at level 61, m at next level, right associativity).

(** Starting a git command: it is entered in the journal and takes its fate
    from the environment; a failed command changes nothing else. *)
Definition git {A : Type} (cmd : GitCommand) (effect : WorkingCopy -> A * WorkingCopy)
  : Git A :=
  fun w =>
    let logged (rest : list (option string)) :=
      {| hasGitDir := hasGitDir w; localHead := localHead w; trackingHead := trackingHead w;
         localChanges := localChanges w; upstreamHead := upstreamHead w;
         failures := rest; journal := cmd :: journal w |} in
    match failures w with
    | Some message :: rest => (Thrown message, logged rest)
    | None :: rest => let (a, w') := effect (logged rest) in (Returned a, w')
    | [] => let (a, w') := effect (logged []) in (Returned a, w')
    end.

(** [git clone --depth 1 --branch <branch>] *)
Definition gitClone : Git unit :=
  git GitClone (fun w =>
    (tt, {| hasGitDir := true; localHead := upstreamHead w; trackingHead := upstreamHead w;
            localChanges := []; upstreamHead := upstreamHead w;
            failures := failures w; journal := journal w |})).

(** [git fetch --depth 1 origin <branch>]: the remote-tracking ref takes the
    remote head. *)
Definition gitFetch : Git unit :=
  git GitFetch (fun w =>
    (tt, {| hasGitDir := hasGitDir w; localHead := localHead w; trackingHead := upstreamHead w;
            localChanges := localChanges w; upstreamHead := upstreamHead w;
            failures := failures w; journal := journal w |})).

(** [git rev-parse <ref>] for [HEAD] and for [origin/<branch>]. *)
Definition gitRevParse (ref : string) : Git string :=
  git (GitRevParse ref) (fun w =>
    (if String.eqb ref "HEAD" then localHead w else trackingHead w, w)).

(** [git reset --hard origin/<branch>]: the head moves to the remote-tracking
    ref and the local modifications are discarded. *)
Definition gitResetHard : Git unit :=
  git GitResetHard (fun w =>
    (tt, {| hasGitDir := hasGitDir w; localHead := trackingHead w;
            trackingHead := trackingHead w; localChanges := [];
            upstreamHead := upstreamHead w;
            failures := failures w; journal := journal w |})).

Definition existsGitDir : Git bool := fun w => (Returned (hasGitDir w), w).

(** What a [Promise<GitSyncResult>] of a method whose body is one
    [try]/[catch] settles to. *)
Definition settled (outcome : Completion GitSyncResult * WorkingCopy)
  : GitSyncResult * WorkingCopy :=
  match outcome with
  | (Returned r, w) => (r, w)
  | (Thrown e, w) =>
      ({| gs_success := false; gs_updated := false; gs_message := e;
          gs_skillsChanged := None |}, w)
  end.

(** [sync] and [initialize] call each other; the fuel bounds the depth of the
    calls. *)
Fixpoint sync (fuel : nat) (branch : string) (w : WorkingCopy)
  : option (GitSyncResult * WorkingCopy) :=
  match fuel with
  | O => None
  | S fuel' =>
      if negb (hasGitDir w) then initialize fuel' branch w
      else
        Some (settled (tryCatch
          (_ <- gitFetch ;;
           currentRev <- gitRevParse "HEAD" ;;
           remoteRev <- gitRevParse ("origin/" +++ branch) ;;
           if String.eqb currentRev remoteRev then
             ret {| gs_success := true; gs_updated := false;
                    gs_message := "Repository is up to date";
                    gs_skillsChanged := Some false |}
           else
             _ <- gitResetHard ;;
             ret {| gs_success := true; gs_updated := true;
                    gs_message := "Repository updated successfully";
                    gs_skillsChanged := Some true |})
          (fun error =>
             ret {| gs_success := false; gs_updated := false;
                    gs_message := "Sync failed: " +++ error;
                    gs_skillsChanged := None |}) w))
  end
with initialize (fuel : nat) (branch : string) (w : WorkingCopy)
  : option (GitSyncResult * WorkingCopy) :=
  match fuel with
  | O => None
  | S fuel' =>
      if hasGitDir w then sync fuel' branch w
      else
        Some (settled (tryCatch
          (_ <- gitClone ;;
           ret {| gs_success := true; gs_updated := true;
                  gs_message := "Repository cloned successfully";
                  gs_skillsChanged := Some true |})
          (fun error =>
             ret {| gs_success := false; gs_updated := false;
                    gs_message := "Failed to initialize: " +++ error;
                    gs_skillsChanged := None |}) w))
  end.

(** The result of the branch taken when the two revisions are equal. *)
Definition upToDate : GitSyncResult :=
  {| gs_success := true; gs_updated := false;
     gs_message := "Repository is up to date";
     gs_skillsChanged := Some false |}.

(** A clone that is level with its remote and carries local edits. *)
Definition levelCopy : WorkingCopy :=
  {| hasGitDir := true; localHead := "4f2a9c1"; trackingHead := "4f2a9c1";
     localChanges := ["README.md"]; upstreamHead := "4f2a9c1";
     failures := []; journal := [] |}.

(** ** The auto-sync loop *)

(** [startAutoSync] arms an interval timer whose callback awaits
    [this.sync()] and then, after an update, the [onUpdate] of the bootstrap
    file, which is guarded by [isSyncing] and awaits a [sync()] of its own
    before it reloads the registry.  Between two awaits the event loop may run
    any other callback, so the state of the loop is what is pending. *)
Inductive CallbackPhase :=
| CallbackIdle
| CallbackAwaitingSync
| CallbackReloading.

Record LoopState := {
  handlerSyncs : nat;          (* timer callbacks awaiting their [sync()] *)
  isSyncing : bool;            (* the flag of [onUpdate] *)
  callbackPhase : CallbackPhase;
  syncsStarted : nat;          (* calls of [sync()] made so far *)
  callbacksSkipped : nat       (* times [onUpdate] returned at its guard *)
}.

Inductive LoopEvent :=
| Tick                                     (* the timer fires *)
| HandlerSyncSettled (result : GitSyncResult)
| CallbackSyncSettled (result : GitSyncResult)
| ReloadFinished.

Definition loopStart : LoopState :=
  {| handlerSyncs := 0; isSyncing := false; callbackPhase := CallbackIdle;
     syncsStarted := 0; callbacksSkipped := 0 |}.

(** The [onUpdate] passed by the bootstrap file, up to its first await. *)
Definition onUpdate (st : LoopState) : LoopState :=
  if isSyncing st then
    {| handlerSyncs := handlerSyncs st; isSyncing := true;
       callbackPhase := callbackPhase st; syncsStarted := syncsStarted st;
       callbacksSkipped := S (callbacksSkipped st) |}
  else
    {| handlerSyncs := handlerSyncs st; isSyncing := true;
       callbackPhase := CallbackAwaitingSync;
       syncsStarted := S (syncsStarted st);
       callbacksSkipped := callbacksSkipped st |}.

(** [finally { isSyncing = false }] *)
Definition callbackDone (st : LoopState) : LoopState :=
  {| handlerSyncs := handlerSyncs st; isSyncing := false;
     callbackPhase := CallbackIdle; syncsStarted := syncsStarted st;
     callbacksSkipped := callbacksSkipped st |}.

Definition isTrue (o : option bool) : bool :=
  match o with Some true => true | _ => false end.

(** One turn of the event loop; [None] when the event cannot occur in the
    state. *)
Definition step (st : LoopState) (ev : LoopEvent) : option LoopState :=
  match ev with
  | Tick =>
      (* the timer callback runs up to [await this.sync()] *)
      Some {| handlerSyncs := S (handlerSyncs st); isSyncing := isSyncing st;
              callbackPhase := callbackPhase st;
              syncsStarted := S (syncsStarted st);
              callbacksSkipped := callbacksSkipped st |}
  | HandlerSyncSettled result =>
      match handlerSyncs st with
      | O => None
      | S n =>
          let st' := {| handlerSyncs := n; isSyncing := isSyncing st;
                        callbackPhase := callbackPhase st;
                        syncsStarted := syncsStarted st;
                        callbacksSkipped := callbacksSkipped st |} in
          if gs_success result && gs_updated result
          then Some (onUpdate st') else Some st'
      end
  | CallbackSyncSettled result =>
      match callbackPhase st with
      | CallbackAwaitingSync =>
          if gs_success result && isTrue (gs_skillsChanged result) then
            Some {| handlerSyncs := handlerSyncs st; isSyncing := isSyncing st;
                    callbackPhase := CallbackReloading;
                    syncsStarted := syncsStarted st;
                    callbacksSkipped := callbacksSkipped st |}
          else Some (callbackDone st)
      | _ => None
      end
  | ReloadFinished =>
      match callbackPhase st with
      | CallbackReloading => Some (callbackDone st)
      | _ => None
      end
  end.

Fixpoint runLoop (st : LoopState) (events : list LoopEvent) : option LoopState :=
  match events with
  | [] => Some st
  | ev :: rest =>
      match step st ev with
      | Some st' => runLoop st' rest
      | None => None
      end
  end.

(** The [sync()] calls that have been made and have not settled. *)
Definition syncsInFlight (st : LoopState) : nat :=
  handlerSyncs st
  + match callbackPhase st with CallbackAwaitingSync => 1 | _ => 0 end.

(** The flag tells whether an [onUpdate] is under way. *)
Definition flagConsistent (st : LoopState) : bool :=
  Bool.eqb (isSyncing st)
    match callbackPhase st with CallbackIdle => false | _ => true end.

(** A state of the loop in which an [onUpdate] is reloading the registry
    while a later timer callback awaits its [sync()]. *)
Definition updated : GitSyncResult :=
  {| gs_success := true; gs_updated := true;
     gs_message := "Repository updated successfully";
     gs_skillsChanged := Some true |}.

Definition reloadingLoop : LoopState :=
  {| handlerSyncs := 1; isSyncing := true; callbackPhase := CallbackReloading;
     syncsStarted := 3; callbacksSkipped := 0 |}.

(** ** [SkillExecutor.listSkills] *)

(** The [source] argument of the executor's [listSkills]. *)
Inductive SourceFilter := FilterAll | FilterRepository | FilterLocal.

(** [skill.source === source] *)
Definition sourceIs (f : SourceFilter) (origin : SkillSource) : bool :=
  match f, origin with
  | FilterRepository, SrcRepository => true
  | FilterLocal, SrcLocal => true
  | _, _ => false
  end.

(** The text test: the lower-cased filter is looked for in the lower-cased
    name, description and id. *)
Definition matchesText (filterLower : string) (skill : Skill) : bool :=
  includes (toLowerCase (skill_name skill)) filterLower
  || includes (toLowerCase (skill_description skill)) filterLower
  || includes (toLowerCase (skill_id skill)) filterLower.

Record ParameterSummary := {
  ps_name : string;
  ps_type : ParameterType;
  ps_description : string;
  ps_required : bool
}.

Record SkillSummary := {
  sum_id : string;
  sum_name : string;
  sum_description : string;
  sum_source : SkillSource;
  sum_parameters : option (list ParameterSummary)
}.

Definition summarizeParameter (p : ParameterSchema) : ParameterSummary :=
  {| ps_name := param_name p; ps_type := param_type p;
     ps_description := param_description p; ps_required := param_required p |}.

Definition summarize (skill : Skill) : SkillSummary :=
  {| sum_id := skill_id skill; sum_name := skill_name skill;
     sum_description := skill_description skill;
     sum_source := skill_source skill;
     sum_parameters :=
       match skill_parameters skill with
       | Some l => Some (map summarizeParameter l)
       | None => None
       end |}.

(** The skills that pass the two filters of the executor's [listSkills]: an
    absent source and [all] keep every skill, an absent or empty filter text
    keeps every skill. *)
Definition selectSkills (r : SkillRegistry) (filter : option string)
  (source : option SourceFilter) : list Skill :=
  let skills := listSkills r in
  let skills :=
    match source with
    | None | Some FilterAll => skills
    | Some f => List.filter (fun skill => sourceIs f (skill_source skill)) skills
    end in
  match filter with
  | None => skills
  | Some text =>
      if isEmpty text then skills
      else List.filter (matchesText (toLowerCase text)) skills
  end.

(** [SkillExecutor.listSkills] *)
Definition executorListSkills (r : SkillRegistry) (filter : option string)
  (source : option SourceFilter) : list SkillSummary :=
  map summarize (selectSkills r filter source).

(** ** The bootstrap file *)

(** The sources added at every start: the git source, of priority 1, and the
    local source, of priority 2, when [config.localSkillsPath] is set (a
    string that is not empty). *)
Definition repoSource (url branch : string) : RepositorySource :=
  {| src_type := TyGit; src_url := Some url; src_branch := branch;
     src_path := None; src_priority := 1 |}.

Definition localSourceAt (path : string) : RepositorySource :=
  {| src_type := TyLocal; src_url := None; src_branch := "main";
     src_path := Some path; src_priority := 2 |}.

Definition configureSources (r : SkillRegistry) (url branch : string)
  (localSkillsPath : option string) : SkillRegistry :=
  let r := addSource r (repoSource url branch) in
  match localSkillsPath with
  | Some path => addSource r (localSourceAt path)
  | None => r
  end.

(** A source with the priority the bootstrap file gives to its type. *)
Definition asConfigured (s : RepositorySource) : bool :=
  match src_type s with
  | TyGit => (src_priority s =? 1)%Z
  | TyLocal => (src_priority s =? 2)%Z
  end.

(** The reload of the start-up and of the manual refresh: the registry is
    cleared, the repository skills are registered, then the local skills when
    a local path is configured. *)
Definition reloadSkills (r : SkillRegistry) (repoSkills : list Skill)
  (localSkills : option (list Skill)) : SkillRegistry :=
  let r := fold_left registerSkill repoSkills (clear r) in
  match localSkills with
  | Some l => fold_left registerSkill l r
  | None => r
  end.

(** The start-up after [gitSync.initialize()] settled to [syncResult]: the
    skill lists are what the parser returns, [saved] is the fate of
    [cacheManager.saveSkills], whose failure ends [main]. *)
Definition startupReload (r : SkillRegistry) (syncResult : GitSyncResult)
  (repoSkills : list Skill) (localSkills : option (list Skill))
  (saved : Completion unit) (now : Z) : Completion SkillRegistry :=
  if gs_success syncResult then
    if isTrue (gs_skillsChanged syncResult) || (getSkillCount r =? 0) then
      let r' := reloadSkills r repoSkills localSkills in
      match saved with
      | Returned _ => Returned (setLastSync r' (ValidDate now))
      | Thrown error => Thrown error
      end
    else Returned r
  else Returned r.

(** The [onUpdate] of the auto-sync loop after its own [gitSync.sync()]
    settled to [result]: the repository skills only are registered; a failure
    of [saveSkills] is caught and logged. *)
Definition autoSyncReload (r : SkillRegistry) (result : GitSyncResult)
  (repoSkills : list Skill) (saved : Completion unit) (now : Z)
  : SkillRegistry :=
  if gs_success result && isTrue (gs_skillsChanged result) then
    let r' := fold_left registerSkill repoSkills (clear r) in
    match saved with
    | Returned _ => setLastSync r' (ValidDate now)
    | Thrown _ => r'
    end
  else r.

Record RefreshResult := {
  refresh_success : bool;
  skillsUpdated : Z;
  skillsAdded : Z;
  skillsRemoved : Z;
  refresh_message : string
}.

(** [handleRefresh]: [result] is what [gitSync.sync()] settled to, the skill
    lists are what the parser returns for the repository and for the local
    path, and [saved] is the fate of [cacheManager.saveSkills], whose failure
    rejects the refresh. *)
Definition handleRefresh (r : SkillRegistry) (result : GitSyncResult)
  (repoSkills : list Skill) (localSkills : option (list Skill))
  (saved : Completion unit) (now : Z)
  : Completion RefreshResult * SkillRegistry :=
  let oldCount := Z.of_nat (getSkillCount r) in
  if gs_success result && isTrue (gs_skillsChanged result) then
    let r' := reloadSkills r repoSkills localSkills in
    match saved with
    | Thrown error => (Thrown error, r')
    | Returned _ =>
        let r' := setLastSync r' (ValidDate now) in
        let newCount := Z.of_nat (getSkillCount r') in
        (Returned
           {| refresh_success := true;
              skillsUpdated := newCount;
              skillsAdded := Z.max 0 (newCount - oldCount);
              skillsRemoved := Z.max 0 (oldCount - newCount);
              refresh_message := "Skills refreshed successfully. Now have "
                                   +++ numberToString newCount +++ " skills." |},
         r')
    end
  else
    (Returned
       {| refresh_success := gs_success result;
          skillsUpdated := oldCount;
          skillsAdded := 0;
          skillsRemoved := 0;
          refresh_message := if gs_success result then "No changes detected"
                             else gs_message result |}, r).

(** ** The directory shape *)

(** The suffix that starts at the last dot of a string, if it has a dot. *)
Fixpoint fromLastDot (s : string) : option string :=
  match s with
  | EmptyString => None
  | String c s' =>
      match fromLastDot s' with
      | Some e => Some e
      | None => if Ascii.eqb c "."%char then Some s else None
      end
  end.

(** [path.extname] of a file name (a string without a slash): the suffix from
    the last dot on; empty when there is no dot, when the only dot leads the
    name, and for the name [..]. *)
Definition extname (name : string) : string :=
  match name with
  | EmptyString => EmptyString
  | String _ rest =>
      match fromLastDot rest with
      | Some e => if String.eqb name ".." then EmptyString else e
      | None => EmptyString
      end
  end.

(** [files.includes(name)] *)
Definition listed (name : string) (files : list string) : bool :=
  existsb (String.eqb name) files.

(** The main file of a skill directory: [SKILL.md], else [README.md], else
    the first file whose extension is [.md]. *)
Definition chooseSkillFile (files : list string) : option string :=
  if listed "SKILL.md" files then Some "SKILL.md"
  else if listed "README.md" files then Some "README.md"
  else find (fun f => String.eqb (extname f) ".md") files.

(** An entry of [readdir(dir, { withFileTypes: true })]. *)
Record Dirent := { dirent_name : string; dirent_isDirectory : bool }.

Section RepositoryShape.

(** Besides the parser's own [parseMarkdown] and override table, the network
    and the clock: the file system ([existsSync], the two forms of [readdir],
    [readFile], each failing or not), [path.join], and the matches of the link
    pattern in the text of an index document. *)
Variable parseMarkdown : string -> ParsedSkill.
Variable overrides : list (string * ParsedOverride).
Variable fetch : string -> FetchResult.
Variable now : Z.
Variable join : string -> string -> string.
Variable existsSync : string -> bool.
Variable readdir : string -> Completion (list string).
Variable readdirTyped : string -> Completion (list Dirent).
Variable readFile : string -> Completion string.
Variable skillLinksOf : string -> list SkillLink.

(** [parseSkillDirectory]: [null] for a directory without a name or without a
    main file, and when reading fails. *)
Definition parseSkillDirectory (skillDir : string) (source : SkillSource)
  : option Skill :=
  let skillId := lastSegment skillDir in
  if isEmpty skillId then None
  else
    match readdir skillDir with
    | Thrown _ => None
    | Returned files =>
        match chooseSkillFile files with
        | None => None
        | Some file =>
            match readFile (join skillDir file) with
            | Thrown _ => None
            | Returned content =>
                let parsed := parseMarkdown content in
                let parsed := match mapGet overrides skillId with
                              | Some override => assignOverride parsed override
                              | None => parsed
                              end in
                Some {| skill_id := normalizeSkillId skillId;
                        skill_name := orElse (parsed_name parsed) skillId;
                        skill_description :=
                          orElse (parsed_description parsed) EmptyString;
                        skill_source := source;
                        skill_sourcePath := skillDir;
                        skill_content := parsed_content parsed;
                        skill_parameters := Some (parsed_parameters parsed);
                        skill_metadata := parsed_metadata parsed;
                        skill_lastUpdated := now |}
            end
        end
    end.

(** The loop of [parseSkillsFromDirectory] over the names of the
    subdirectories. *)
Fixpoint parseSkillDirectories (skillsDir : string) (names : list string)
  (source : SkillSource) : list Skill :=
  match names with
  | [] => []
  | skillDirName :: rest =>
      match parseSkillDirectory (join skillsDir skillDirName) source with
      | Some skill => skill :: parseSkillDirectories skillsDir rest source
      | None => parseSkillDirectories skillsDir rest source
      end
  end.

Definition parseSkillsFromDirectory (skillsDir : string) (source : SkillSource)
  : list Skill :=
  match readdirTyped skillsDir with
  | Thrown _ => []
  | Returned entries =>
      parseSkillDirectories skillsDir
        (map dirent_name (List.filter dirent_isDirectory entries)) source
  end.

(** [parseSkillsFromReadme] on the path of the index document: the document
    is read, its links are collected and the link loop runs. *)
Definition parseSkillsFromReadmeFile (readmePath : string) (source : SkillSource)
  : list Skill :=
  match readFile readmePath with
  | Thrown _ => []
  | Returned content =>
      parseSkillsFromReadme parseMarkdown overrides fetch now
        (skillLinksOf content) source
  end.

(** [parseSkillsFromRepo]: the index shape when there is a [README.md] and
    no [skills] directory, the directory shape when there is a [skills]
    directory, nothing otherwise. *)
Definition parseSkillsFromRepo (repoDir : string) (source : SkillSource)
  : list Skill :=
  let readmePath := join repoDir "README.md" in
  let skillsDir := join repoDir "skills" in
  if existsSync readmePath && negb (existsSync skillsDir) then
    parseSkillsFromReadmeFile readmePath source
  else if existsSync skillsDir then parseSkillsFromDirectory skillsDir source
  else [].

End RepositoryShape.

(** A character other than the opening brace. *)
Definition noBrace (c : ascii) : bool := negb (Ascii.eqb c "{"%char).


(** A document parser that keeps the whole text as the content, and a network
    on which the pdf skill has a [README.md] and no [SKILL.md]. *)
Definition plainDocument (content : string) : ParsedSkill :=
  {| parsed_name := EmptyString;
     parsed_description := EmptyString;
     parsed_content := content;
     parsed_metadata := noMetadata;
     parsed_parameters := [] |}.

Definition readmeOnly (url : string) : FetchResult :=
  if String.eqb url (rawUrl sampleLink "README.md")
  then FetchResponse true (Some "# PDF")
  else FetchResponse false None.

(** A repository of the directory shape: [skills/PDF Tools] holds a
    [README.md], [skills/notes.txt] is a file. *)
Definition joinPath (a b : string) : string := a +++ "/" +++ b.

Definition sampleExists (path : string) : bool :=
  String.eqb path "repo/README.md" || String.eqb path "repo/skills".

Definition sampleReaddirTyped (path : string) : Completion (list Dirent) :=
  if String.eqb path "repo/skills"
  then Returned [ {| dirent_name := "PDF Tools"; dirent_isDirectory := true |};
                  {| dirent_name := "notes.txt"; dirent_isDirectory := false |} ]
  else Thrown "ENOENT".

Definition sampleReaddir (path : string) : Completion (list string) :=
  if String.eqb path "repo/skills/PDF Tools"
  then Returned ["LICENSE"; "README.md"]
  else Thrown "ENOENT".

Definition sampleReadFile (path : string) : Completion string :=
  if String.eqb path "repo/skills/PDF Tools/README.md"
  then Returned "# PDF tools"
  else Thrown "ENOENT".

(** What every skill that leaves the parser at the time [now] for the source
    [source] has. *)
Definition parsedFor (now : Z) (source : SkillSource) (skill : Skill) : Prop :=
  skill_source skill = source /\
  normalizeSkillId (skill_id skill) = skill_id skill /\
  skill_parameters skill <> None /\
  skill_lastUpdated skill = now.


(** A clone that is behind its remote and carries local edits, and a
    directory that was never cloned. *)
Definition staleCopy : WorkingCopy :=
  {| hasGitDir := true; localHead := "4f2a9c1"; trackingHead := "4f2a9c1";
     localChanges := ["README.md"]; upstreamHead := "9be01d7";
     failures := []; journal := [] |}.

Definition emptyDirectory : WorkingCopy :=
  {| hasGitDir := false; localHead := EmptyString; trackingHead := EmptyString;
     localChanges := []; upstreamHead := "9be01d7";
     failures := []; journal := [] |}.

(** The git commands of one [sync] of an existing clone, in the order in which
    they are started. *)
Definition syncCommands (branch : string) : list GitCommand :=
  [GitFetch; GitRevParse "HEAD"; GitRevParse ("origin/" +++ branch);
   GitResetHard].

(** No record of the registry comes from a source of a priority above [p]. *)
Definition bounded (r : SkillRegistry) (p : Z) : Prop :=
  forall i e, getSkill r i = Some e ->
    (resolvedPriority r (skill_source e) <= p)%Z.

(** The record served for an id after the skills of a list were stored one
    after the other: the last one of the list with that id. *)
Definition lastWithId (l : list Skill) (id : string) : option Skill :=
  find (fun s => String.eqb (skill_id s) id) (rev l).

(** Two skills of the repository and a local one that shadows the first. *)
Definition repoPdf : Skill := sampleSkill "pdf" "Repo pdf" SrcRepository [].
Definition repoDocx : Skill := sampleSkill "docx" "Repo docx" SrcRepository [].
Definition localPdf : Skill := sampleSkill "pdf" "Local pdf" SrcLocal [].

(** The events of a run of the loop that start a [sync()] on their own (the
    ticks) and those that call [onUpdate] (a timer callback whose sync
    reported an update). *)
Definition callsOnUpdate (ev : LoopEvent) : bool :=
  match ev with
  | HandlerSyncSettled result => gs_success result && gs_updated result
  | _ => false
  end.

Definition isTick (ev : LoopEvent) : bool :=
  match ev with Tick => true | _ => false end.

Definition countEvents (p : LoopEvent -> bool) (events : list LoopEvent) : nat :=
  List.length (filter p events).

(** A skill whose one parameter is the required object [__proto__], one whose
    parameter is the required string [constructor], and their registries. *)
Definition protoSkill : Skill :=
  sampleSkill "merge" "Merge" SrcRepository
    [{| param_name := "__proto__"; param_type := TObject;
        param_description := "The object to merge into";
        param_required := true; param_default := None; param_enum := None |}].

Definition constructorSkill : Skill :=
  sampleSkill "class" "Class" SrcRepository [requiredParam "constructor"].

Definition inheritedNames : SkillRegistry :=
  registerSkill (registerSkill (newRegistry "/tmp/cache") protoSkill)
    constructorSkill.

(** An engine that takes no source, a skill with an object parameter, and an
    object that [String] cannot print. *)
Definition noEngine : RegExpEngine :=
  fun source => Thrown ("Invalid regular expression: /" +++ source +++ "/").

Definition optionsSkill : Skill :=
  {| skill_id := "report"; skill_name := "Report";
     skill_description := "Write a report";
     skill_source := SrcRepository; skill_sourcePath := "/path/to/report";
     skill_content := "Report with ${options}.";
     skill_parameters :=
       Some [{| param_name := "options"; param_type := TObject;
                param_description := "The options of the report";
                param_required := false; param_default := None;
                param_enum := None |}];
     skill_metadata := noMetadata; skill_lastUpdated := 0%Z |}.

Definition optionsRegistry : SkillRegistry :=
  registerSkill (newRegistry "/tmp/cache") optionsSkill.

Definition unprintable : JSValue := JObject [("toString", JNumber 1)].
(* ===================================================================== *)
(** * Part II: theorems *)
(* ===================================================================== *)

Example normalize_ex1 : normalizeSkillId "  My_Skill--Name!! " = "my-skill-name".
Proof. reflexivity. Qed.

Example normalize_ex2 : normalizeSkillId "---" = EmptyString.
Proof. reflexivity. Qed.

(** ** Identifier normalization *)

Lemma idChar_cases (c : ascii) :
  isIdChar c = true -> isLowerAlnum c = true \/ c = hyphen.
Proof.
  unfold isIdChar. intros H. apply orb_true_iff in H.
  destruct H as [H | H]; [now left | right; now apply Ascii.eqb_eq].
Qed.

Lemma lowerAlnum_isAlnum (c : ascii) : isLowerAlnum c = true -> isAlnum c = true.
Proof.
  unfold isLowerAlnum, isAlnum. intros H. apply orb_true_iff in H.
  destruct H as [-> | ->]; [reflexivity | now rewrite orb_true_r].
Qed.

Lemma lowerAlnum_not_hyphen (c : ascii) : isLowerAlnum c = true -> c <> hyphen.
Proof. intros H ->. discriminate H. Qed.

Lemma hyphen_not_alnum : isAlnum hyphen = false.
Proof. reflexivity. Qed.

Lemma lowerChar_fix (c : ascii) : isIdChar c = true -> lowerChar c = c.
Proof.
  destruct c as [[] [] [] [] [] [] [] []]; intros H;
    solve [reflexivity | discriminate H].
Qed.

Lemma idChar_not_upper (c : ascii) : isIdChar c = true -> isUpper c = false.
Proof.
  destruct c as [[] [] [] [] [] [] [] []]; intros H;
    solve [reflexivity | discriminate H].
Qed.

Lemma toLowerCase_fix (s : string) :
  allChars isIdChar s = true -> toLowerCase s = s.
Proof.
  induction s as [| c s IH]; simpl; intros H; [reflexivity |].
  apply andb_true_iff in H. destruct H as [Hc Hs].
  now rewrite lowerChar_fix, IH.
Qed.

Lemma allChars_impl (p q : ascii -> bool) (s : string) :
  (forall c, p c = true -> q c = true) ->
  allChars p s = true -> allChars q s = true.
Proof.
  intros Hpq. induction s as [| c s IH]; simpl; intros H; [reflexivity |].
  apply andb_true_iff in H. destruct H as [Hc Hs].
  now rewrite (Hpq _ Hc), IH.
Qed.

(** What the first replacement produces: identifier characters only, no two
    hyphens in a row, and no leading hyphen when a run was already open. *)
Lemma replaceNonAlnumRuns_shape (s : string) : forall b,
  allChars isIdChar (replaceNonAlnumRuns b s) = true /\
  noAdjacentSeparators (replaceNonAlnumRuns b s) = true /\
  (b = true -> firstChar (replaceNonAlnumRuns b s) <> Some hyphen).
Proof.
  induction s as [| c s IH]; intros b; simpl.
  - repeat split; intros; discriminate.
  - destruct (isLowerAlnum c) eqn:Hc.
    + destruct (IH false) as (Ha & Hn & _). simpl.
      unfold isIdChar at 1. rewrite Hc, Ha. simpl.
      repeat split.
      * destruct (replaceNonAlnumRuns false s); [reflexivity |].
        now rewrite (lowerAlnum_isAlnum _ Hc), Hn.
      * intros _ [= E]. now apply (lowerAlnum_not_hyphen c).
    + destruct b.
      * apply IH.
      * destruct (IH true) as (Ha & Hn & Hf). simpl. rewrite Ha.
        repeat split; [| discriminate].
        destruct (replaceNonAlnumRuns true s) as [| d r] eqn:E; [reflexivity |].
        simpl in Ha. apply andb_true_iff in Ha. destruct Ha as [Hd _].
        destruct (idChar_cases d Hd) as [Hd' | ->].
        -- now rewrite (lowerAlnum_isAlnum _ Hd'), Hn.
        -- exfalso. now apply Hf.
Qed.

(** On a string that already has that shape the first replacement is the
    identity. *)
Lemma replaceNonAlnumRuns_fix (s : string) : forall b,
  allChars isIdChar s = true ->
  noAdjacentSeparators s = true ->
  (b = true -> firstChar s <> Some hyphen) ->
  replaceNonAlnumRuns b s = s.
Proof.
  induction s as [| c s IH]; intros b Ha Hn Hf; simpl; [reflexivity |].
  simpl in Ha. apply andb_true_iff in Ha. destruct Ha as [Hc Hs].
  assert (Hn' : noAdjacentSeparators s = true).
  { simpl in Hn. destruct s; [reflexivity |].
    apply andb_true_iff in Hn. apply Hn. }
  destruct (idChar_cases c Hc) as [Hl | ->].
  - rewrite Hl. f_equal. apply IH; auto. discriminate.
  - change (isLowerAlnum hyphen) with false. cbv iota.
    destruct b; [exfalso; now apply Hf |].
    f_equal. apply IH; auto.
    intros _ E. destruct s as [| d s']; [discriminate |].
    injection E as ->. simpl in Hn. discriminate Hn.
Qed.

Lemma dropLeadingHyphens_shape (s : string) :
  allChars isIdChar s = true ->
  noAdjacentSeparators s = true ->
  allChars isIdChar (dropLeadingHyphens s) = true /\
  noAdjacentSeparators (dropLeadingHyphens s) = true /\
  firstChar (dropLeadingHyphens s) <> Some hyphen.
Proof.
  induction s as [| c s IH]; intros Ha Hn.
  - repeat split; discriminate.
  - simpl. destruct (Ascii.eqb c hyphen) eqn:E.
    + simpl in Ha. apply andb_true_iff in Ha. destruct Ha as [_ Hs].
      apply IH; [assumption |].
      simpl in Hn. destruct s; [reflexivity |].
      apply andb_true_iff in Hn. apply Hn.
    + repeat split; auto. intros [= ->]. discriminate E.
Qed.

Lemma dropLeadingHyphens_fix (s : string) :
  firstChar s <> Some hyphen -> dropLeadingHyphens s = s.
Proof.
  destruct s as [| c s]; simpl; intros H; [reflexivity |].
  destruct (Ascii.eqb c hyphen) eqn:E; [| reflexivity].
  apply Ascii.eqb_eq in E. now subst.
Qed.

Lemma dropTrailingHyphens_first (s : string) (d : ascii) (r : string) :
  dropTrailingHyphens s = String d r -> firstChar s = Some d.
Proof.
  destruct s as [| c s]; simpl; [discriminate |].
  destruct (Ascii.eqb c hyphen && isEmpty (dropTrailingHyphens s));
    [discriminate | now intros [= -> _]].
Qed.

Lemma dropTrailingHyphens_shape (s : string) :
  allChars isIdChar s = true ->
  noAdjacentSeparators s = true ->
  firstChar s <> Some hyphen ->
  allChars isIdChar (dropTrailingHyphens s) = true /\
  noAdjacentSeparators (dropTrailingHyphens s) = true /\
  firstChar (dropTrailingHyphens s) <> Some hyphen /\
  lastChar (dropTrailingHyphens s) <> Some hyphen.
Proof.
  assert (G : forall t,
    allChars isIdChar t = true -> noAdjacentSeparators t = true ->
    allChars isIdChar (dropTrailingHyphens t) = true /\
    noAdjacentSeparators (dropTrailingHyphens t) = true /\
    lastChar (dropTrailingHyphens t) <> Some hyphen).
  { induction t as [| c t IH]; intros Ha Hn.
    - repeat split; discriminate.
    - simpl in Ha. apply andb_true_iff in Ha. destruct Ha as [Hc Ht].
      assert (Hn' : noAdjacentSeparators t = true).
      { simpl in Hn. destruct t; [reflexivity |].
        apply andb_true_iff in Hn. apply Hn. }
      destruct (IH Ht Hn') as (Ia & In' & Il). simpl.
      destruct (dropTrailingHyphens t) as [| d r] eqn:E.
      + rewrite andb_true_r. destruct (Ascii.eqb c hyphen) eqn:Ec.
        * repeat split; discriminate.
        * simpl. rewrite Hc. repeat split.
          intros [= ->]. discriminate Ec.
      + rewrite andb_false_r. simpl. rewrite Hc. simpl in Ia. rewrite Ia.
        repeat split; [| exact Il].
        apply dropTrailingHyphens_first in E.
        destruct t as [| d' t']; [discriminate |]. injection E as ->.
        simpl in Hn. apply andb_true_iff in Hn. destruct Hn as [Hcd _].
        simpl in In'. now rewrite Hcd, In'. }
  intros Ha Hn Hf. destruct (G s Ha Hn) as (Ia & In' & Il).
  repeat split; auto.
  destruct (dropTrailingHyphens s) as [| d r] eqn:E; [discriminate |].
  apply dropTrailingHyphens_first in E. simpl. congruence.
Qed.

Lemma dropTrailingHyphens_fix (s : string) :
  lastChar s <> Some hyphen -> dropTrailingHyphens s = s.
Proof.
  induction s as [| c s IH]; intros H; simpl; [reflexivity |].
  destruct s as [| d s'].
  - simpl. rewrite andb_true_r. destruct (Ascii.eqb c hyphen) eqn:E;
      [| reflexivity].
    apply Ascii.eqb_eq in E. subst. now elim H.
  - rewrite IH by exact H. simpl. now rewrite andb_false_r.
Qed.

Lemma normalizeSkillId_shape (x : string) :
  allChars isIdChar (normalizeSkillId x) = true /\
  noAdjacentSeparators (normalizeSkillId x) = true /\
  firstChar (normalizeSkillId x) <> Some hyphen /\
  lastChar (normalizeSkillId x) <> Some hyphen.
Proof.
  unfold normalizeSkillId.
  destruct (replaceNonAlnumRuns_shape (toLowerCase x) false) as (Ha & Hn & _).
  destruct (dropLeadingHyphens_shape _ Ha Hn) as (Ha' & Hn' & Hf').
  exact (dropTrailingHyphens_shape _ Ha' Hn' Hf').
Qed.

(** C7.  Skill-id normalization is idempotent, and a normalized identifier
    holds no uppercase character (only [a-z], [0-9] and the hyphen), neither
    begins nor ends with the separator, and has no two neighbouring
    non-alphanumeric characters. *)
Theorem normalizeSkillId_idempotent (x : string) :
  normalizeSkillId (normalizeSkillId x) = normalizeSkillId x /\
  allChars isIdChar (normalizeSkillId x) = true /\
  allChars (fun c => negb (isUpper c)) (normalizeSkillId x) = true /\
  firstChar (normalizeSkillId x) <> Some hyphen /\
  lastChar (normalizeSkillId x) <> Some hyphen /\
  noAdjacentSeparators (normalizeSkillId x) = true.
Proof.
  destruct (normalizeSkillId_shape x) as (Ha & Hn & Hf & Hl).
  repeat split; auto.
  - unfold normalizeSkillId at 1.
    rewrite (toLowerCase_fix _ Ha).
    rewrite (replaceNonAlnumRuns_fix _ false Ha Hn) by discriminate.
    rewrite (dropLeadingHyphens_fix _ Hf).
    apply (dropTrailingHyphens_fix _ Hl).
  - apply (allChars_impl isIdChar); [| exact Ha].
    intros c Hc. now rewrite (idChar_not_upper c Hc).
Qed.

(** ** Entry lists *)

Lemma mapGet_mapSet_eq {V : Type} (m : list (string * V)) (k : string) (v : V) :
  mapGet (mapSet m k v) k = Some v.
Proof.
  induction m as [| [k' v'] m IH]; simpl.
  - now rewrite String.eqb_refl.
  - destruct (String.eqb k' k) eqn:E; simpl; rewrite E; [reflexivity | exact IH].
Qed.

Lemma mapGet_mapSet_ne {V : Type} (m : list (string * V)) (k k' : string) (v : V) :
  k <> k' -> mapGet (mapSet m k v) k' = mapGet m k'.
Proof.
  intros Hne. induction m as [| [k0 v0] m IH]; simpl.
  - apply String.eqb_neq in Hne. now rewrite Hne.
  - destruct (String.eqb k0 k) eqn:E; simpl.
    + apply String.eqb_eq in E. subst k0.
      apply String.eqb_neq in Hne. now rewrite Hne.
    + now rewrite IH.
Qed.

Lemma mapHas_true {V : Type} (m : list (string * V)) (k : string) :
  mapHas m k = true <-> exists v, mapGet m k = Some v.
Proof.
  unfold mapHas. destruct (mapGet m k) as [v |]; split; intros H;
    try reflexivity; try discriminate; [now exists v | now destruct H].
Qed.

Lemma mapHas_false {V : Type} (m : list (string * V)) (k : string) :
  mapHas m k = false <-> mapGet m k = None.
Proof.
  unfold mapHas. destruct (mapGet m k); split; intros H;
    try reflexivity; discriminate.
Qed.

Lemma mapSet_fresh {V : Type} (m : list (string * V)) (k : string) (v : V) :
  mapHas m k = false -> mapSet m k v = m ++ [(k, v)].
Proof.
  induction m as [| [k' v'] m IH]; simpl; intros H; [reflexivity |].
  unfold mapHas in H. simpl in H.
  destruct (String.eqb k' k) eqn:E; [discriminate |].
  f_equal. apply IH. exact H.
Qed.

Lemma mapHas_app {V : Type} (m1 m2 : list (string * V)) (k : string) :
  mapHas (m1 ++ m2) k = mapHas m1 k || mapHas m2 k.
Proof.
  unfold mapHas. induction m1 as [| [k' v'] m1 IH]; simpl.
  - now destruct (mapGet m2 k).
  - destruct (String.eqb k' k); [reflexivity | exact IH].
Qed.

(** ** Registration and override resolution *)

Lemma registerSkill_sources (r : SkillRegistry) (s : Skill) :
  sources (registerSkill r s) = sources r.
Proof.
  unfold registerSkill. destruct (mapGet (skills r) (skill_id s)); [| reflexivity].
  now destruct (_ <? _)%Z.
Qed.

Lemma registerSkill_priority (r : SkillRegistry) (s : Skill) (o : SkillSource) :
  resolvedPriority (registerSkill r s) o = resolvedPriority r o.
Proof. unfold resolvedPriority. now rewrite registerSkill_sources. Qed.

Lemma getSkill_setSkill_eq (r : SkillRegistry) (s : Skill) :
  getSkill (setSkill r s) (skill_id s) = Some s.
Proof. apply mapGet_mapSet_eq. Qed.

Lemma getSkill_setSkill_ne (r : SkillRegistry) (s : Skill) (i : string) :
  skill_id s <> i -> getSkill (setSkill r s) i = getSkill r i.
Proof. apply mapGet_mapSet_ne. Qed.

(** The incoming skill is discarded when the record it would replace comes
    from a source of strictly higher priority. *)
Lemma registerSkill_discard (r : SkillRegistry) (s e : Skill) :
  getSkill r (skill_id s) = Some e ->
  (resolvedPriority r (skill_source s) < resolvedPriority r (skill_source e))%Z ->
  registerSkill r s = r.
Proof.
  unfold getSkill, registerSkill. intros -> H.
  apply Z.ltb_lt in H. now rewrite H.
Qed.

(** In every other case it is stored. *)
Lemma registerSkill_store (r : SkillRegistry) (s : Skill) :
  (forall e, getSkill r (skill_id s) = Some e ->
     (resolvedPriority r (skill_source e) <= resolvedPriority r (skill_source s))%Z) ->
  registerSkill r s = setSkill r s.
Proof.
  unfold getSkill, registerSkill. intros H.
  destruct (mapGet (skills r) (skill_id s)) as [e |]; [| reflexivity].
  specialize (H e eq_refl).
  destruct (_ <? _)%Z eqn:E; [| reflexivity].
  apply Z.ltb_lt in E. lia.
Qed.

(** The record found under the id right after a registration. *)
Lemma getSkill_registerSkill_same (r : SkillRegistry) (s : Skill) :
  getSkill (registerSkill r s) (skill_id s)
  = match getSkill r (skill_id s) with
    | Some e =>
        if (resolvedPriority r (skill_source s)
              <? resolvedPriority r (skill_source e))%Z
        then Some e else Some s
    | None => Some s
    end.
Proof.
  unfold registerSkill, getSkill.
  destruct (mapGet (skills r) (skill_id s)) as [e |] eqn:G.
  - destruct (_ <? _)%Z; [exact G | apply mapGet_mapSet_eq].
  - apply mapGet_mapSet_eq.
Qed.

Lemma getSkill_registerSkill_other (r : SkillRegistry) (s : Skill) (i : string) :
  skill_id s <> i -> getSkill (registerSkill r s) i = getSkill r i.
Proof.
  intros Hne. unfold registerSkill.
  destruct (mapGet (skills r) (skill_id s)) as [e |];
    [destruct (_ <? _)%Z; [reflexivity |] |];
    now apply getSkill_setSkill_ne.
Qed.

(** Case analysis on every [<?] test of the goal, closed by arithmetic. *)
Ltac ltb_cases :=
  cbv iota; rewrite ?registerSkill_priority;
  repeat match goal with
         | |- context [(?a <? ?b)%Z] =>
             let E := fresh "E" in
             destruct (a <? b)%Z eqn:E;
             [apply Z.ltb_lt in E | apply Z.ltb_ge in E];
             cbv iota; rewrite ?registerSkill_priority
         end;
  try reflexivity; try lia.

(** C2, as the code has it.  [registerSkill] discards the incoming skill
    exactly when the id is taken by a record whose resolved priority is
    strictly higher, and stores it otherwise.  Hence, for a registry in which
    the id is free or held by a record of priority at most [p2], and two
    skills of that id with resolved priorities [p1 <= p2]: registering [p1]
    then [p2] leaves the [p2] record; registering [p2] then [p1] leaves the
    [p2] record when [p1 < p2]; and with [p1 = p2] the later one wins. *)
Theorem registerSkill_override (r : SkillRegistry) (s1 s2 : Skill) :
  (* the discard rule, in every registry *)
  ((exists e, getSkill r (skill_id s1) = Some e /\
      (resolvedPriority r (skill_source s1)
         < resolvedPriority r (skill_source e))%Z)
     -> registerSkill r s1 = r) /\
  (~ (exists e, getSkill r (skill_id s1) = Some e /\
      (resolvedPriority r (skill_source s1)
         < resolvedPriority r (skill_source e))%Z)
     -> registerSkill r s1 = setSkill r s1 /\
        getSkill (registerSkill r s1) (skill_id s1) = Some s1) /\
  (* two registrations of one id *)
  (skill_id s1 = skill_id s2 ->
   (forall e, getSkill r (skill_id s2) = Some e ->
      (resolvedPriority r (skill_source e)
         <= resolvedPriority r (skill_source s2))%Z) ->
   (resolvedPriority r (skill_source s1)
      <= resolvedPriority r (skill_source s2))%Z ->
   getSkill (registerSkill (registerSkill r s1) s2) (skill_id s2) = Some s2 /\
   ((resolvedPriority r (skill_source s1)
       < resolvedPriority r (skill_source s2))%Z ->
    getSkill (registerSkill (registerSkill r s2) s1) (skill_id s2) = Some s2) /\
   ((resolvedPriority r (skill_source s1)
       = resolvedPriority r (skill_source s2))%Z ->
    getSkill (registerSkill (registerSkill r s2) s1) (skill_id s2) = Some s1)).
Proof.
  split; [| split].
  - intros (e & He & Hlt). exact (registerSkill_discard r s1 e He Hlt).
  - intros Hno.
    assert (E : registerSkill r s1 = setSkill r s1).
    { apply registerSkill_store. intros e He.
      destruct (Z_lt_le_dec (resolvedPriority r (skill_source s1))
                            (resolvedPriority r (skill_source e))) as [Hlt | Hle];
        [| exact Hle].
      exfalso. apply Hno. now exists e. }
    split; [exact E |]. rewrite E. apply getSkill_setSkill_eq.
  - intros Hid Hfree Hle.
    pose proof (getSkill_registerSkill_same r s1) as G1.
    pose proof (getSkill_registerSkill_same r s2) as G2.
    pose proof (getSkill_registerSkill_same (registerSkill r s1) s2) as G12.
    pose proof (getSkill_registerSkill_same (registerSkill r s2) s1) as G21.
    rewrite !registerSkill_priority in G12, G21.
    rewrite Hid in G1, G21. rewrite G1 in G12. rewrite G2 in G21.
    rewrite G12, G21. clear G1 G2 G12 G21.
    rewrite ?registerSkill_priority.
    destruct (getSkill r (skill_id s2)) as [e |].
    + specialize (Hfree e eq_refl). repeat split; intros; ltb_cases.
    + repeat split; intros; ltb_cases.
Qed.

Lemma registerSkill_override_witness :
  registerSkill localFooRegistered repoFooA = localFooRegistered /\
  getSkill (registerSkill twoSources repoFooA) "foo" = Some repoFooA /\
  getSkill (registerSkill (registerSkill twoSources repoFooA) localFoo) "foo"
    = Some localFoo /\
  getSkill (registerSkill (registerSkill twoSources localFoo) repoFooA) "foo"
    = Some localFoo /\
  getSkill (registerSkill (registerSkill twoSources repoFooB) repoFooA) "foo"
    = Some repoFooA.
Proof.
  split; [| split; [| split; [| split]]].
  - destruct (registerSkill_override localFooRegistered repoFooA repoFooA)
      as (H & _ & _).
    apply H. exists localFoo. split; reflexivity.
  - destruct (registerSkill_override twoSources repoFooA repoFooA)
      as (_ & H & _).
    apply H. intros (e & He & _). discriminate He.
  - destruct (registerSkill_override twoSources repoFooA localFoo)
      as (_ & _ & H).
    destruct H as (H & _ & _);
      [reflexivity | intros e He; discriminate He | discriminate | exact H].
  - destruct (registerSkill_override twoSources repoFooA localFoo)
      as (_ & _ & H).
    destruct H as (_ & H & _);
      [reflexivity | intros e He; discriminate He | discriminate |].
    apply H. reflexivity.
  - destruct (registerSkill_override twoSources repoFooA repoFooB)
      as (_ & _ & H).
    destruct H as (_ & _ & H);
      [reflexivity | intros e He; discriminate He | discriminate |].
    apply H. reflexivity.
Defined.

(** C2 as stated fails in a registry that already holds the id at a higher
    priority: with the local [foo] (priority 2) registered, two repository
    registrations of [foo] (priority 1 each, so [p1 <= p2]) are both
    discarded and the later one does not win. *)
Lemma registerSkill_two_registrations_counterexample :
  skill_id repoFooA = skill_id repoFooB /\
  (resolvedPriority localFooRegistered (skill_source repoFooA)
     <= resolvedPriority localFooRegistered (skill_source repoFooB))%Z /\
  getSkill (registerSkill (registerSkill localFooRegistered repoFooA) repoFooB)
           (skill_id repoFooB) = Some localFoo /\
  getSkill (registerSkill (registerSkill localFooRegistered repoFooA) repoFooB)
           (skill_id repoFooB) <> Some repoFooB.
Proof.
  repeat split; try discriminate.
Qed.

(** ** Restoring a registry from a snapshot *)

Lemma find_append {A : Type} (f : A -> bool) (l1 l2 : list A) :
  find f (l1 ++ l2)
  = match find f l1 with Some x => Some x | None => find f l2 end.
Proof.
  induction l1 as [| x l1 IH]; simpl; [reflexivity |].
  now destruct (f x).
Qed.


Lemma fold_registerSkill_sources (l : list Skill) : forall r,
  sources (fold_left registerSkill l r) = sources r.
Proof.
  induction l as [| s l IH]; intros r; simpl; [reflexivity |].
  now rewrite IH, registerSkill_sources.
Qed.

Lemma resolvedPriority_no_sources (r : SkillRegistry) (o : SkillSource) :
  sources r = [] -> resolvedPriority r o = 0%Z.
Proof. unfold resolvedPriority. now intros ->. Qed.

(** Without sources every priority is 0, and nothing is ever discarded. *)
Lemma registerSkill_no_sources (r : SkillRegistry) (s : Skill) :
  sources r = [] -> registerSkill r s = setSkill r s.
Proof.
  intros H. apply registerSkill_store. intros e _.
  rewrite !resolvedPriority_no_sources by exact H. lia.
Qed.

Lemma fold_registerSkill_no_sources (l : list Skill) : forall r,
  sources r = [] -> fold_left registerSkill l r = fold_left setSkill l r.
Proof.
  induction l as [| s l IH]; intros r H; simpl; [reflexivity |].
  rewrite registerSkill_no_sources by exact H. now apply IH.
Qed.

Lemma getSkill_fold_setSkill (l : list Skill) (i : string) : forall r,
  getSkill (fold_left setSkill l r) i
  = match find (fun s => String.eqb (skill_id s) i) (rev l) with
    | Some s => Some s
    | None => getSkill r i
    end.
Proof.
  induction l as [| s l IH]; intros r; simpl; [reflexivity |].
  rewrite IH, find_append.
  destruct (find _ (rev l)) as [s' |]; [reflexivity |]. simpl.
  destruct (String.eqb (skill_id s) i) eqn:E.
  - apply String.eqb_eq in E. subst i. apply getSkill_setSkill_eq.
  - apply String.eqb_neq in E. now apply getSkill_setSkill_ne.
Qed.

Lemma fold_addSource_skills (l : list RepositorySource) : forall r,
  skills (fold_left addSource l r) = skills r.
Proof.
  induction l as [| s l IH]; intros r; simpl; [reflexivity |]. now rewrite IH.
Qed.

Lemma getSkill_fromJSON (data : RegistrySnapshot) (i : string) :
  getSkill (fromJSON data) i
  = getSkill (match snap_skills data with
              | Some l => fold_left registerSkill l (newRegistry (snap_cachePath data))
              | None => newRegistry (snap_cachePath data)
              end) i.
Proof.
  unfold fromJSON, getSkill.
  destruct (snap_lastSync data), (snap_sources data); simpl;
    now rewrite ?fold_addSource_skills.
Qed.

Lemma find_last_occurrence (l3 : list Skill) (b : Skill) (front : list Skill) :
  (forall s, In s l3 -> skill_id s <> skill_id b) ->
  find (fun s => String.eqb (skill_id s) (skill_id b)) (rev (front ++ b :: l3))
  = Some b.
Proof.
  intros H. rewrite rev_app_distr. simpl. rewrite <- app_assoc, find_append.
  assert (E : find (fun s => String.eqb (skill_id s) (skill_id b)) (rev l3) = None).
  { destruct (find _ (rev l3)) as [s |] eqn:F; [| reflexivity].
    apply find_some in F. destruct F as [Hin Heq].
    apply in_rev in Hin. apply String.eqb_eq in Heq. now elim (H s Hin). }
  rewrite E. simpl. now rewrite String.eqb_refl.
Qed.

(** C10.  While [fromJSON] registers the snapshot's skills the source list is
    still empty, so every priority resolves to 0 and each entry is stored:
    the record restored under an id is the last entry of the skill list with
    that id, whatever the snapshot's sources say.  In particular, of two
    entries with one id the later one wins. *)
Theorem fromJSON_last_entry_wins (l : list Skill)
  (srcs : option (list RepositorySource)) (path : string) (t : option JSDate) :
  let data := {| snap_skills := Some l; snap_sources := srcs;
                 snap_cachePath := path; snap_lastSync := t |} in
  (forall k origin,
     sources (fold_left registerSkill (firstn k l) (newRegistry path)) = [] /\
     resolvedPriority (fold_left registerSkill (firstn k l) (newRegistry path))
       origin = 0%Z) /\
  (forall k s,
     registerSkill (fold_left registerSkill (firstn k l) (newRegistry path)) s
     = setSkill (fold_left registerSkill (firstn k l) (newRegistry path)) s) /\
  (forall i,
     getSkill (fromJSON data) i
     = find (fun s => String.eqb (skill_id s) i) (rev l)) /\
  (forall l1 a l2 b l3,
     l = l1 ++ a :: l2 ++ b :: l3 ->
     skill_id a = skill_id b ->
     (forall s, In s l3 -> skill_id s <> skill_id b) ->
     getSkill (fromJSON data) (skill_id a) = Some b).
Proof.
  intros data.
  assert (Hsrc : forall k,
    sources (fold_left registerSkill (firstn k l) (newRegistry path)) = [])
    by (intros k; now rewrite fold_registerSkill_sources).
  assert (Hget : forall i, getSkill (fromJSON data) i
    = find (fun s => String.eqb (skill_id s) i) (rev l)).
  { intros i. rewrite getSkill_fromJSON. simpl.
    rewrite fold_registerSkill_no_sources by reflexivity.
    rewrite getSkill_fold_setSkill.
    now destruct (find _ (rev l)). }
  repeat split.
  - apply Hsrc.
  - apply resolvedPriority_no_sources, Hsrc.
  - intros k s. apply registerSkill_no_sources, Hsrc.
  - exact Hget.
  - intros l1 a l2 b l3 -> Hid Hlast. rewrite Hget, Hid.
    replace (l1 ++ a :: l2 ++ b :: l3) with ((l1 ++ a :: l2) ++ b :: l3)
      by (now rewrite <- app_assoc).
    now apply find_last_occurrence.
Qed.

Lemma fromJSON_last_entry_wins_witness :
  getSkill (fromJSON duplicateSnapshot) "foo" = Some repoFooA.
Proof.
  destruct (fromJSON_last_entry_wins [localFoo; repoFooA]
              (Some [localSource 2; gitSource 1]) "/tmp/cache" None)
    as (_ & _ & _ & H).
  apply (H [] localFoo [] repoFooA []).
  - reflexivity.
  - reflexivity.
  - intros s [].
Defined.

(** ** Snapshot round trip *)

Lemma descending_tail (x : RepositorySource) (l : list RepositorySource) :
  descending (x :: l) = true -> descending l = true.
Proof.
  simpl. destruct l; [reflexivity |]. intros H.
  apply andb_true_iff in H. apply H.
Qed.

Lemma sortByPriority_descending (l : list RepositorySource) :
  descending l = true -> sortByPriority l = l.
Proof.
  induction l as [| x l IH]; intros H; simpl; [reflexivity |].
  rewrite IH by exact (descending_tail _ _ H).
  destruct l as [| y l']; [reflexivity |].
  simpl in H. apply andb_true_iff in H. destruct H as [Hxy _].
  simpl. now rewrite Hxy.
Qed.

Lemma descending_prefix (l1 l2 : list RepositorySource) :
  descending (l1 ++ l2) = true -> descending l1 = true.
Proof.
  induction l1 as [| x l1 IH]; intros H; [reflexivity |].
  pose proof (IH (descending_tail _ _ H)) as Ht.
  destruct l1 as [| y l1']; [reflexivity |].
  simpl in H |- *. apply andb_true_iff in H. destruct H as [Hxy _].
  rewrite Hxy. exact Ht.
Qed.

Lemma insertByPriority_descending (x : RepositorySource) (l : list RepositorySource) :
  descending l = true -> descending (insertByPriority x l) = true.
Proof.
  induction l as [| y l IH]; intros H; [reflexivity |].
  simpl. destruct (src_priority y <=? src_priority x)%Z eqn:E.
  - change (descending (x :: y :: l))
      with ((src_priority y <=? src_priority x)%Z && descending (y :: l)).
    now rewrite E, H.
  - pose proof (IH (descending_tail _ _ H)) as Hi.
    destruct l as [| z l'].
    + simpl. apply Z.leb_gt in E.
      assert (G : (src_priority x <=? src_priority y)%Z = true)
        by (apply Z.leb_le; lia).
      now rewrite G.
    + simpl in H. apply andb_true_iff in H. destruct H as [Hzy Hd].
      simpl in Hi |- *.
      destruct (src_priority z <=? src_priority x)%Z eqn:E2.
      * apply Z.leb_gt in E.
        assert (G : (src_priority x <=? src_priority y)%Z = true)
          by (apply Z.leb_le; lia).
        rewrite G. simpl. exact Hi.
      * rewrite Hzy. simpl. exact Hi.
Qed.

Lemma sortByPriority_is_descending (l : list RepositorySource) :
  descending (sortByPriority l) = true.
Proof.
  induction l as [| x l IH]; [reflexivity |].
  simpl. now apply insertByPriority_descending.
Qed.

(** Replaying [addSource] over a list that is already in descending order
    appends it unchanged. *)
Lemma fold_addSource_descending (l : list RepositorySource) : forall r,
  descending (sources r ++ l) = true ->
  sources (fold_left addSource l r) = sources r ++ l.
Proof.
  induction l as [| s l IH]; intros r H; simpl.
  - now rewrite app_nil_r.
  - assert (Hs : sources (addSource r s) = sources r ++ [s]).
    { simpl. apply sortByPriority_descending.
      apply (descending_prefix _ l). now rewrite <- app_assoc. }
    rewrite IH; rewrite Hs, <- app_assoc; [reflexivity | exact H].
Qed.

Lemma fold_addSource_fields (l : list RepositorySource) : forall r,
  cachePath (fold_left addSource l r) = cachePath r /\
  lastSync (fold_left addSource l r) = lastSync r.
Proof.
  induction l as [| s l IH]; intros r; simpl; [now split |].
  exact (IH (addSource r s)).
Qed.

Lemma fold_setSkill_fields (l : list Skill) : forall r,
  sources (fold_left setSkill l r) = sources r /\
  cachePath (fold_left setSkill l r) = cachePath r /\
  lastSync (fold_left setSkill l r) = lastSync r.
Proof.
  induction l as [| s l IH]; intros r; simpl; [now repeat split |].
  exact (IH (setSkill r s)).
Qed.

(** Replaying [set] over the values of a [Map] whose keys are the ids of its
    records rebuilds the same entries in the same order. *)
Lemma fold_setSkill_skills (m : list (string * Skill)) : forall r,
  keysAreIds m = true ->
  distinctKeys m = true ->
  (forall k, mapHas m k = true -> mapHas (skills r) k = false) ->
  skills (fold_left setSkill (mapValues m) r) = skills r ++ m.
Proof.
  induction m as [| [k s] m IH]; intros r Hk Hd Hfresh; simpl.
  - now rewrite app_nil_r.
  - simpl in Hk, Hd.
    apply andb_true_iff in Hk. destruct Hk as [Hks Hk].
    apply andb_true_iff in Hd. destruct Hd as [Hkm Hd].
    apply String.eqb_eq in Hks. subst k.
    apply negb_true_iff in Hkm.
    assert (Hset : skills (setSkill r s) = skills r ++ [(skill_id s, s)]).
    { simpl. apply mapSet_fresh. apply Hfresh.
      unfold mapHas. simpl. now rewrite String.eqb_refl. }
    rewrite IH; try assumption.
    + rewrite Hset, <- app_assoc. reflexivity.
    + intros k Hin. rewrite Hset, mapHas_app.
      rewrite Hfresh.
      * simpl. unfold mapHas. simpl.
        destruct (String.eqb (skill_id s) k) eqn:E; [| reflexivity].
        apply String.eqb_eq in E. subst k. congruence.
      * unfold mapHas. simpl.
        destruct (String.eqb (skill_id s) k); [reflexivity | exact Hin].
Qed.

(** Every operation of the registry keeps it well formed. *)
Lemma keysAreIds_mapSet (m : list (string * Skill)) (s : Skill) :
  keysAreIds m = true -> keysAreIds (mapSet m (skill_id s) s) = true.
Proof.
  induction m as [| [k v] m IH]; intros H; simpl.
  - now rewrite String.eqb_refl.
  - simpl in H. apply andb_true_iff in H. destruct H as [Hk Hm].
    destruct (String.eqb k (skill_id s)) eqn:E; simpl.
    + now rewrite E, Hm.
    + now rewrite Hk, IH.
Qed.

Lemma mapHas_mapSet {V : Type} (m : list (string * V)) (k k' : string) (v : V) :
  mapHas (mapSet m k v) k' = String.eqb k k' || mapHas m k'.
Proof.
  unfold mapHas. destruct (String.eqb k k') eqn:E.
  - apply String.eqb_eq in E. subst k'. now rewrite mapGet_mapSet_eq.
  - apply String.eqb_neq in E. now rewrite mapGet_mapSet_ne.
Qed.

Lemma distinctKeys_mapSet {V : Type} (m : list (string * V)) (k : string) (v : V) :
  distinctKeys m = true -> distinctKeys (mapSet m k v) = true.
Proof.
  induction m as [| [k0 v0] m IH]; intros H; [reflexivity |].
  simpl in H. apply andb_true_iff in H. destruct H as [Hk Hm].
  simpl. destruct (String.eqb k0 k) eqn:E; simpl.
  - now rewrite Hk, Hm.
  - rewrite mapHas_mapSet, IH by exact Hm.
    rewrite String.eqb_sym, E. simpl. now rewrite Hk.
Qed.

Lemma wellFormed_setSkill (r : SkillRegistry) (s : Skill) :
  wellFormed r = true -> wellFormed (setSkill r s) = true.
Proof.
  unfold wellFormed. simpl. intros H.
  apply andb_true_iff in H. destruct H as [H Hs].
  apply andb_true_iff in H. destruct H as [Hk Hd].
  now rewrite keysAreIds_mapSet, distinctKeys_mapSet, Hs.
Qed.

Lemma reachable_wellFormed (r : SkillRegistry) :
  reachable r -> wellFormed r = true.
Proof.
  induction 1 as [path | r s _ IH | r s _ IH | r _ IH | r t _ IH].
  - reflexivity.
  - unfold wellFormed in *. simpl.
    apply andb_true_iff in IH. destruct IH as [IH _].
    now rewrite IH, sortByPriority_is_descending.
  - unfold registerSkill.
    destruct (mapGet (skills r) (skill_id s));
      [destruct (_ <? _)%Z; [exact IH |] |]; now apply wellFormed_setSkill.
  - unfold wellFormed in *. simpl.
    apply andb_true_iff in IH. destruct IH as [_ IH]. exact IH.
  - exact IH.
Qed.

(** C6, as the code has it.  For a well-formed registry, which every registry
    built through the class's methods is ([reachable_wellFormed]), whose last
    sync is [null] or a valid date: [toJSON] returns a snapshot and [fromJSON]
    of that snapshot is the registry again, with the same records under the
    same ids in the same order, the same sources, the same cache path and the
    same last-sync instant.  The skills are replayed through [registerSkill],
    which stores each of them.  [toJSON] throws exactly when the last sync is
    the invalid date. *)
Theorem fromJSON_toJSON (r : SkillRegistry) :
  wellFormed r = true ->
  getLastSync r <> Some InvalidDate ->
  exists data,
    toJSON r = Returned data /\
    fromJSON data = r /\
    (forall i, getSkill (fromJSON data) i = getSkill r i) /\
    getSources (fromJSON data) = getSources r /\
    getLastSync (fromJSON data) = getLastSync r /\
    fold_left registerSkill (listSkills r) (newRegistry (cachePath r))
    = {| skills := skills r; sources := []; cachePath := cachePath r;
         lastSync := None |} /\
    (forall r', toJSON r' = Thrown "Invalid time value" <->
                getLastSync r' = Some InvalidDate).
Proof.
  intros H Hdate. unfold wellFormed in H.
  apply andb_true_iff in H. destruct H as [H Hs].
  apply andb_true_iff in H. destruct H as [Hk Hd].
  assert (Hreplay :
    fold_left registerSkill (listSkills r) (newRegistry (cachePath r))
    = {| skills := skills r; sources := []; cachePath := cachePath r;
         lastSync := None |}).
  { unfold listSkills. rewrite fold_registerSkill_no_sources by reflexivity.
    pose proof (fold_setSkill_skills (skills r) (newRegistry (cachePath r))
                  Hk Hd (fun _ _ => eq_refl)) as Hsk.
    destruct (fold_setSkill_fields (mapValues (skills r))
                (newRegistry (cachePath r))) as (F1 & F2 & F3).
    destruct (fold_left setSkill _ _) as [sk so cp ls]. simpl in *.
    now subst. }
  exists {| snap_skills := Some (mapValues (skills r));
            snap_sources := Some (sources r);
            snap_cachePath := cachePath r;
            snap_lastSync := lastSync r |}.
  assert (Hto : toJSON r
                = Returned {| snap_skills := Some (mapValues (skills r));
                              snap_sources := Some (sources r);
                              snap_cachePath := cachePath r;
                              snap_lastSync := lastSync r |}).
  { unfold toJSON, getLastSync in *.
    destruct (lastSync r) as [[time |] |];
      [reflexivity | now elim Hdate | reflexivity]. }
  assert (E : fromJSON {| snap_skills := Some (mapValues (skills r));
                          snap_sources := Some (sources r);
                          snap_cachePath := cachePath r;
                          snap_lastSync := lastSync r |} = r).
  { unfold fromJSON. simpl.
    change (mapValues (skills r)) with (listSkills r). rewrite Hreplay.
    set (r0 := {| skills := skills r; sources := []; cachePath := cachePath r;
                  lastSync := None |}).
    pose proof (fold_addSource_descending (sources r) r0 Hs) as Hso.
    pose proof (fold_addSource_skills (sources r) r0) as Hsk.
    destruct (fold_addSource_fields (sources r) r0) as (Hcp & Hls).
    destruct (fold_left addSource (sources r) r0) as [sk so cp ls].
    simpl in *. subst.
    destruct r as [sk so cp [t |]]; reflexivity. }
  split; [exact Hto |]. split; [exact E |].
  split; [intros i; now rewrite E |].
  split; [now rewrite E |]. split; [now rewrite E |].
  split; [exact Hreplay |].
  intros r'. unfold toJSON, getLastSync.
  destruct (lastSync r') as [[time |] |]; simpl; split;
    try discriminate; reflexivity.
Qed.

Lemma fromJSON_toJSON_witness :
  exists data,
    toJSON syncedRegistry = Returned data /\ fromJSON data = syncedRegistry.
Proof.
  destruct (fromJSON_toJSON syncedRegistry) as (data & Hto & Hfrom & _).
  - reflexivity.
  - discriminate.
  - exists data. now split.
Defined.

(** C6 as it is stated fails.  A snapshot whose [lastSync] text cannot be read
    as a date is restored with the invalid date as last sync, and of that
    registry, which is well formed, [toJSON] throws: there is no snapshot to
    read back. *)
Lemma fromJSON_toJSON_invalid_date_counterexample :
  fromJSON unreadableSnapshot = unreadableRegistry /\
  reachable unreadableRegistry /\
  wellFormed unreadableRegistry = true /\
  toJSON unreadableRegistry = Thrown "Invalid time value" /\
  ~ (exists data,
       toJSON unreadableRegistry = Returned data /\
       fromJSON data = unreadableRegistry).
Proof.
  split; [reflexivity |]. split; [repeat constructor |].
  split; [reflexivity |]. split; [reflexivity |].
  intros (data & H & _). discriminate H.
Qed.

(** ** Parameter validation *)

(** An own entry is found first; a name that [Object.prototype] does not have
    is found among the own entries only. *)
Lemma hasProperty_own (params : list (string * JSValue)) (k : string)
  (v : JSValue) :
  mapGet params k = Some v ->
  hasProperty params k = true /\ getProperty params k = v.
Proof.
  intros H. unfold hasProperty, getProperty, mapHas. now rewrite H.
Qed.

Lemma hasProperty_not_inherited (params : list (string * JSValue)) (k : string) :
  mapHas objectPrototype k = false ->
  hasProperty params k = mapHas params k.
Proof. intros H. unfold hasProperty. rewrite H. apply orb_false_r. Qed.

Lemma declaredErrors_length (ps : list ParameterSchema)
  (params : list (string * JSValue)) :
  List.length (declaredErrors ps params)
  = List.length (filter (isMissing params) ps)
    + List.length (filter (isInvalid params) ps).
Proof.
  induction ps as [| p ps IH]; [reflexivity |].
  cbn [declaredErrors filter]. unfold isMissing at 1, isInvalid at 1.
  destruct (param_required p); cbn [andb];
    destruct (hasProperty params (param_name p)); cbn [andb negb];
    try destruct (vc_valid (validateParameterValue p _)); cbn [negb];
    cbn [List.length]; rewrite IH; lia.
Qed.

Lemma declaredErrors_missing (ps : list ParameterSchema)
  (params : list (string * JSValue)) (p : ParameterSchema) :
  In p ps -> isMissing params p = true ->
  In ("Missing required parameter: " +++ param_name p) (declaredErrors ps params).
Proof.
  intros Hin Hm. induction ps as [| q ps IH]; [destruct Hin |].
  destruct Hin as [-> | Hin].
  - cbn [declaredErrors]. unfold isMissing in Hm. rewrite Hm. now left.
  - cbn [declaredErrors]. specialize (IH Hin).
    destruct (param_required q && negb (hasProperty params (param_name q)));
      [now right |].
    destruct (hasProperty params (param_name q)); [| exact IH].
    destruct (negb (vc_valid (validateParameterValue q _)));
      [now right | exact IH].
Qed.

Lemma declaredErrors_invalid (ps : list ParameterSchema)
  (params : list (string * JSValue)) (p : ParameterSchema) :
  In p ps -> hasProperty params (param_name p) = true ->
  vc_valid (validateParameterValue p (getProperty params (param_name p)))
  = false ->
  In (invalidMessage p (getProperty params (param_name p)))
     (declaredErrors ps params).
Proof.
  intros Hin Hhas Hv. induction ps as [| q ps IH]; [destruct Hin |].
  destruct Hin as [-> | Hin].
  - cbn [declaredErrors]. rewrite Hhas, Hv, andb_false_r. now left.
  - cbn [declaredErrors]. specialize (IH Hin).
    destruct (param_required q && negb (hasProperty params (param_name q)));
      [now right |].
    destruct (hasProperty params (param_name q)); [| exact IH].
    destruct (negb (vc_valid (validateParameterValue q _)));
      [now right | exact IH].
Qed.

Lemma unknownErrors_spec (ps : list ParameterSchema) (keys : list string) :
  unknownErrors ps keys
  = map (fun k => "Unknown parameter: " +++ k) (filter (isUnknown ps) keys).
Proof.
  induction keys as [| k keys IH]; [reflexivity |].
  simpl. unfold isUnknown at 1.
  destruct (negb (declares ps k)); simpl; now rewrite IH.
Qed.

(** C4, as the code has it.  On an unknown id the result is invalid with the
    single not-found error.  Otherwise all violations are collected: the error
    list holds the entry of every present parameter whose value fails its
    schema and of every key that is not declared, and the entry of every
    required parameter that is absent, provided its name is not the name of a
    member of [Object.prototype].  The tests the code makes are [name in
    params] and [params[name]], which find inherited members too: the length
    of the list is the number of the violations as these tests see them, and
    the result is valid only when there is none.  A skill whose parameters are
    the required [a] and [b], called with [{z: 1}], gets the three entries.
    But the required object parameter [__proto__] is not missed in [{}], and
    the required string parameter [constructor] is reported as invalid, not
    as missing. *)
Theorem validateParameters_reports_all (r : SkillRegistry) (skillId : string)
  (params : list (string * JSValue)) :
  (getSkill r skillId = None ->
   validateParameters r skillId params
   = {| valid := false; errors := Some ["Skill not found: " +++ skillId] |}) /\
  (forall skill, getSkill r skillId = Some skill ->
   let ps := declaredParameters skill in
   let errs := reportedErrors (validateParameters r skillId params) in
   (forall p, In p ps -> param_required p = true ->
      mapHas objectPrototype (param_name p) = false ->
      mapHas params (param_name p) = false ->
      In ("Missing required parameter: " +++ param_name p) errs) /\
   (forall p v, In p ps -> mapGet params (param_name p) = Some v ->
      vc_valid (validateParameterValue p v) = false ->
      In (invalidMessage p v) errs) /\
   (forall k, In k (mapKeys params) -> declares ps k = false ->
      In ("Unknown parameter: " +++ k) errs) /\
   (forall p, In p ps -> param_required p = true ->
      hasProperty params (param_name p) = false ->
      In ("Missing required parameter: " +++ param_name p) errs) /\
   (forall p, In p ps -> hasProperty params (param_name p) = true ->
      vc_valid (validateParameterValue p (getProperty params (param_name p)))
      = false ->
      In (invalidMessage p (getProperty params (param_name p))) errs) /\
   List.length errs
   = List.length (filter (isMissing params) ps)
     + List.length (filter (isInvalid params) ps)
     + List.length (filter (isUnknown ps) (mapKeys params)) /\
   valid (validateParameters r skillId params) = Nat.eqb (List.length errs) 0 /\
   (errors (validateParameters r skillId params) = None <-> errs = [])) /\
  (forall skill pa pb, getSkill r skillId = Some skill ->
   skill_parameters skill = Some [pa; pb] ->
   param_name pa = "a" -> param_required pa = true ->
   param_name pb = "b" -> param_required pb = true ->
   validateParameters r skillId [("z", JNumber 1)]
   = {| valid := false;
        errors := Some ["Missing required parameter: a";
                        "Missing required parameter: b";
                        "Unknown parameter: z"] |}) /\
  validateParameters inheritedNames "merge" []
  = {| valid := true; errors := None |} /\
  validateParameters inheritedNames "class" []
  = {| valid := false;
       errors := Some ["Invalid parameter 'constructor': "
                       +++ "Expected string, received function"] |}.
Proof.
  split; [| split; [| split; [| split]]].
  - unfold validateParameters. now intros ->.
  - intros skill Hget ps errs.
    assert (Herrs : errs = declaredErrors ps params
                           ++ unknownErrors ps (mapKeys params)).
    { unfold errs, reportedErrors, validateParameters. rewrite Hget.
      fold (declaredParameters skill). fold ps. simpl.
      destruct (declaredErrors ps params ++ unknownErrors ps (mapKeys params));
        reflexivity. }
    assert (Hmiss : forall p, In p ps -> param_required p = true ->
              hasProperty params (param_name p) = false ->
              In ("Missing required parameter: " +++ param_name p) errs).
    { intros p Hin Hreq Hno. rewrite Herrs. apply in_or_app. left.
      apply declaredErrors_missing; [exact Hin |].
      unfold isMissing. now rewrite Hreq, Hno. }
    assert (Hinv : forall p, In p ps ->
              hasProperty params (param_name p) = true ->
              vc_valid (validateParameterValue p
                          (getProperty params (param_name p))) = false ->
              In (invalidMessage p (getProperty params (param_name p))) errs).
    { intros p Hin Hhas Hbad. rewrite Herrs. apply in_or_app. left.
      now apply declaredErrors_invalid. }
    split; [| split; [| split; [| split; [| split; [| split; [| split]]]]]].
    + intros p Hin Hreq Hproto Hown. apply Hmiss; [exact Hin | exact Hreq |].
      now rewrite hasProperty_not_inherited.
    + intros p v Hin Hv Hbad.
      destruct (hasProperty_own params (param_name p) v Hv) as (Hhas & Hval).
      rewrite <- Hval. apply Hinv; [exact Hin | exact Hhas |].
      now rewrite Hval.
    + intros k Hin Hk. rewrite Herrs. apply in_or_app. right.
      rewrite unknownErrors_spec.
      apply (in_map (fun k => "Unknown parameter: " +++ k)).
      apply filter_In. split; [exact Hin |]. unfold isUnknown. now rewrite Hk.
    + exact Hmiss.
    + exact Hinv.
    + rewrite Herrs, length_app, declaredErrors_length, unknownErrors_spec,
        length_map. reflexivity.
    + unfold errs, reportedErrors, validateParameters. rewrite Hget.
      fold (declaredParameters skill). fold ps. simpl.
      destruct (declaredErrors ps params ++ unknownErrors ps (mapKeys params));
        reflexivity.
    + unfold errs, reportedErrors, validateParameters. rewrite Hget.
      fold (declaredParameters skill). fold ps. simpl.
      destruct (declaredErrors ps params ++ unknownErrors ps (mapKeys params));
        simpl; split; intros H; try reflexivity; discriminate H.
  - intros skill pa pb Hget Hps Ha Hra Hb Hrb.
    unfold validateParameters. rewrite Hget, Hps.
    cbn [declaredErrors unknownErrors declares existsb mapKeys map fst].
    rewrite Ha, Hb, Hra, Hrb. reflexivity.
  - reflexivity.
  - reflexivity.
Qed.

Lemma validateParameters_reports_all_witness :
  validateParameters twoRequiredRegistry "missing-skill" []
  = {| valid := false; errors := Some ["Skill not found: missing-skill"] |} /\
  validateParameters twoRequiredRegistry "test-skill" [("z", JNumber 1)]
  = {| valid := false;
       errors := Some ["Missing required parameter: a";
                       "Missing required parameter: b";
                       "Unknown parameter: z"] |}.
Proof.
  split.
  - destruct (validateParameters_reports_all twoRequiredRegistry
                "missing-skill" []) as (H & _).
    apply H. reflexivity.
  - destruct (validateParameters_reports_all twoRequiredRegistry
                "test-skill" [("z", JNumber 1)]) as (_ & _ & H & _).
    apply (H twoRequired (requiredParam "a") (requiredParam "b"));
      reflexivity.
Defined.

(** ** Template substitution *)

Example substitute_hello (newRegExp : RegExpEngine) :
  substituteParameters newRegExp "Hello, {{name}}!" [("name", JString "World")]
  = Returned "Hello, World!".
Proof. reflexivity. Qed.

Example substitute_twice (newRegExp : RegExpEngine) :
  substituteParameters newRegExp "${x}-${x}" [("x", JString "1")]
  = Returned "1-1".
Proof. reflexivity. Qed.

Example substitute_spaces (newRegExp : RegExpEngine) :
  substituteParameters newRegExp "{{ name }} and ${  name}" [("name", JNumber 42)]
  = Returned "42 and 42".
Proof. reflexivity. Qed.

Example substitute_unreferenced (newRegExp : RegExpEngine) :
  substituteParameters newRegExp "{{name}} {{other}} ${names}"
    [("name", JString "x")]
  = Returned "x {{other}} ${names}".
Proof. reflexivity. Qed.

(** *** Strings *)

Lemma append_empty_r (s : string) : s +++ EmptyString = s.
Proof. induction s as [| c s IH]; simpl; [reflexivity | now rewrite IH]. Qed.

Lemma append_associative (a b c : string) : (a +++ b) +++ c = a +++ b +++ c.
Proof. induction a as [| x a IH]; simpl; [reflexivity | now rewrite IH]. Qed.

Lemma length_append (a b : string) :
  String.length (a +++ b) = String.length a + String.length b.
Proof. induction a as [| x a IH]; simpl; [reflexivity | now rewrite IH]. Qed.

Lemma substring_prefix (a b : string) :
  substring 0 (String.length a) (a +++ b) = a.
Proof.
  induction a as [| x a IH]; simpl.
  - now destruct b.
  - now rewrite IH.
Qed.

Lemma allChars_append (p : ascii -> bool) (a b : string) :
  allChars p (a +++ b) = allChars p a && allChars p b.
Proof.
  induction a as [| x a IH]; simpl; [reflexivity |].
  now rewrite IH, andb_assoc.
Qed.

(** *** Character classes *)

Lemma space_is_plain (c : ascii) : isSpace c = true -> isPlain c = true.
Proof.
  destruct c as [[] [] [] [] [] [] [] []]; intros H;
    solve [reflexivity | discriminate H].
Qed.

Lemma wordChar_is_plain (c : ascii) : isWordChar c = true -> isPlain c = true.
Proof.
  destruct c as [[] [] [] [] [] [] [] []]; intros H;
    solve [reflexivity | discriminate H].
Qed.

Lemma wordChar_not_space (c : ascii) : isWordChar c = true -> isSpace c = false.
Proof.
  destruct c as [[] [] [] [] [] [] [] []]; intros H;
    solve [reflexivity | discriminate H].
Qed.

Lemma wordChar_not_brace (c : ascii) :
  isWordChar c = true -> Ascii.eqb "}"%char c = false.
Proof.
  destruct c as [[] [] [] [] [] [] [] []]; intros H;
    solve [reflexivity | discriminate H].
Qed.

(** *** The matcher *)

Lemma matchLiteral_append (lit s : string) : matchLiteral lit (lit +++ s) = Some s.
Proof.
  induction lit as [| c lit IH]; simpl; [reflexivity |].
  now rewrite Ascii.eqb_refl.
Qed.

Lemma skipSpaces_pad (pad s : string) :
  allChars isSpace pad = true -> skipSpaces (pad +++ s) = skipSpaces s.
Proof.
  induction pad as [| c pad IH]; simpl; intros H; [reflexivity |].
  apply andb_true_iff in H. destruct H as [-> Hp]. now apply IH.
Qed.

Lemma skipSpaces_word (c : ascii) (s : string) :
  isSpace c = false -> skipSpaces (String c s) = String c s.
Proof. simpl. now intros ->. Qed.

(** A value without a dollar sign is its own substitution. *)
Lemma getSubstitution_plain (matched before after v : string) :
  allChars isPlain v = true -> getSubstitution matched before after v = v.
Proof.
  induction v as [| c v IH]; simpl; intros H; [reflexivity |].
  apply andb_true_iff in H. destruct H as [Hc Hv].
  unfold isPlain in Hc. apply andb_true_iff in Hc. destruct Hc as [_ Hd].
  apply negb_true_iff in Hd. rewrite Hd. now rewrite IH.
Qed.

(** Two different names: the key either fails to match the name, or matches
    a strict prefix of it and leaves a word character behind. *)
Lemma matchLiteral_other_name (k : string) : forall n c0 t,
  allChars isWordChar k = true ->
  allChars isWordChar n = true ->
  k <> n ->
  isWordChar c0 = false ->
  matchLiteral k (n +++ String c0 t) = None \/
  exists c n', isWordChar c = true /\
               matchLiteral k (n +++ String c0 t)
               = Some (String c (n' +++ String c0 t)).
Proof.
  induction k as [| k0 k' IH]; intros n c0 t Hk Hn Hne Hc0.
  - destruct n as [| c n']; [now elim Hne |]. right.
    simpl in Hn. apply andb_true_iff in Hn. destruct Hn as [Hc _].
    now exists c, n'.
  - simpl in Hk. apply andb_true_iff in Hk. destruct Hk as [Hk0 Hk'].
    destruct n as [| c n'].
    + left. cbn -[Ascii.eqb].
      destruct (Ascii.eqb k0 c0) eqn:E; [| reflexivity].
      apply Ascii.eqb_eq in E. congruence.
    + simpl in Hn. apply andb_true_iff in Hn. destruct Hn as [Hc Hn'].
      cbn -[Ascii.eqb]. destruct (Ascii.eqb k0 c) eqn:E; [| now left].
      apply Ascii.eqb_eq in E. subst c.
      apply IH; try assumption. congruence.
Qed.

(** *** Fuel *)

Lemma matchLiteral_length (lit : string) : forall s rest,
  matchLiteral lit s = Some rest ->
  String.length s = String.length lit + String.length rest.
Proof.
  induction lit as [| c lit IH]; intros s rest; simpl.
  - now intros [= ->].
  - destruct s as [| d s]; [discriminate |].
    destruct (Ascii.eqb c d); [| discriminate].
    intros H. simpl. now rewrite (IH _ _ H).
Qed.

Lemma skipSpaces_length (s : string) :
  String.length (skipSpaces s) <= String.length s.
Proof.
  induction s as [| c s IH]; simpl; [lia |].
  destruct (isSpace c); simpl; lia.
Qed.

(** A match of a placeholder is never empty. *)
Lemma matchPlaceholder_shorter (double : bool) (key s rest : string) :
  matchPlaceholder (opening double) (closing double) key s = Some rest ->
  String.length rest < String.length s.
Proof.
  unfold matchPlaceholder.
  destruct (matchLiteral (opening double) s) as [s1 |] eqn:E1; [| discriminate].
  destruct (matchLiteral key (skipSpaces s1)) as [s2 |] eqn:E2; [| discriminate].
  intros E3.
  apply matchLiteral_length in E1, E2, E3.
  pose proof (skipSpaces_length s1). pose proof (skipSpaces_length s2).
  assert (0 < String.length (opening double)) by (destruct double; simpl; lia).
  lia.
Qed.

(** Once the fuel exceeds the length of the text the scan does not depend on
    it: [replacePlaceholders] never runs out. *)
Lemma replaceMatches_fuel (matcher : string -> option string) (v : string) :
  (forall s rest, matcher s = Some rest -> String.length rest < String.length s) ->
  forall fuel1 fuel2 before s,
  String.length s < fuel1 ->
  String.length s < fuel2 ->
  replaceMatches fuel1 matcher v before s = replaceMatches fuel2 matcher v before s.
Proof.
  intros Hm. induction fuel1 as [| fuel1 IH]; intros fuel2 before s H1 H2;
    [lia |].
  destruct fuel2 as [| fuel2]; [lia |]. simpl.
  destruct (matcher s) as [rest |] eqn:E.
  - apply Hm in E. f_equal. apply IH; lia.
  - destruct s as [| c s]; [reflexivity |]. simpl in H1, H2.
    f_equal. apply IH; lia.
Qed.

Lemma replacePlaceholders_fuel (double : bool) (key v content : string)
  (fuel : nat) :
  String.length content < fuel ->
  replaceMatches fuel (matchPlaceholder (opening double) (closing double) key)
    v EmptyString content
  = replacePlaceholders (opening double) (closing double) key v content.
Proof.
  intros H. unfold replacePlaceholders.
  apply replaceMatches_fuel; [| exact H | lia].
  intros s rest. apply matchPlaceholder_shorter.
Qed.

Section OnePass.

Variable double : bool.
Variable key : string.
Variable v : string.

Hypothesis key_word : isWord key = true.
Hypothesis v_plain : allChars isPlain v = true.

Let matcher : string -> option string :=
  matchPlaceholder (opening double) (closing double) key.

(** No match begins at a plain character. *)
Lemma matcher_plain (c : ascii) (s : string) :
  isPlain c = true -> matcher (String c s) = None.
Proof.
  unfold isPlain, matcher, matchPlaceholder. intros H.
  apply andb_true_iff in H. destruct H as [Hb Hd].
  apply negb_true_iff in Hb. apply negb_true_iff in Hd.
  rewrite Ascii.eqb_sym in Hb. rewrite Ascii.eqb_sym in Hd.
  unfold dollar in Hd.
  destruct double; cbn -[Ascii.eqb]; [now rewrite Hb | now rewrite Hd].
Qed.

Lemma inert_plain (s rest : string) : allChars isPlain s = true -> inert matcher s rest.
Proof.
  induction s as [| c s IH]; simpl; intros H; [exact I |].
  apply andb_true_iff in H. destruct H as [Hc Hs].
  split; [now apply matcher_plain | now apply IH].
Qed.

(** The scan copies an inert stretch. *)
Lemma replaceMatches_inert (s : string) : forall fuel before rest,
  inert matcher s rest ->
  replaceMatches (String.length s + fuel) matcher v before (s +++ rest)
  = s +++ replaceMatches fuel matcher v (before +++ s) rest.
Proof.
  induction s as [| c s IH]; intros fuel before rest H; simpl.
  - now rewrite append_empty_r.
  - destruct H as [Hc Hs]. fold matcher. rewrite Hc. f_equal.
    rewrite IH by exact Hs. now rewrite append_associative.
Qed.

(** At a match the scan emits the value and goes on after it. *)
Lemma replaceMatches_match (s rest : string) (fuel : nat) (before : string) :
  matcher (s +++ rest) = Some rest ->
  replaceMatches (S fuel) matcher v before (s +++ rest)
  = v +++ replaceMatches fuel matcher v (before +++ s) rest.
Proof.
  intros H. simpl. rewrite H.
  rewrite length_append, Nat.add_sub, substring_prefix.
  now rewrite getSubstitution_plain.
Qed.

(** A placeholder of the form and name looked for is matched whole. *)
Lemma matcher_placeholder (pad1 pad2 rest : string) :
  allChars isSpace pad1 = true ->
  allChars isSpace pad2 = true ->
  matcher (renderPiece (Placeholder double pad1 key pad2) +++ rest) = Some rest.
Proof.
  intros H1 H2. unfold matcher, matchPlaceholder, renderPiece.
  rewrite !append_associative, matchLiteral_append.
  rewrite (skipSpaces_pad _ _ H1).
  pose proof key_word as Hkey. unfold isWord in Hkey.
  apply andb_true_iff in Hkey. destruct Hkey as [Hne Hw].
  destruct key as [| k key'] eqn:Ek; [discriminate Hne |].
  simpl in Hw. apply andb_true_iff in Hw. destruct Hw as [Hk _].
  change (String k key' +++ pad2 +++ closing double +++ rest)
    with (String k (key' +++ pad2 +++ closing double +++ rest)).
  rewrite (skipSpaces_word k _ (wordChar_not_space k Hk)).
  change (String k (key' +++ pad2 +++ closing double +++ rest))
    with (String k key' +++ pad2 +++ closing double +++ rest).
  rewrite matchLiteral_append, (skipSpaces_pad _ _ H2).
  assert (Hc : skipSpaces (closing double +++ rest) = closing double +++ rest)
    by (destruct double; reflexivity).
  rewrite Hc. apply matchLiteral_append.
Qed.

(** The closing brace and the white space are no word characters. *)
Lemma pad_closing_first (pad2 rest : string) :
  allChars isSpace pad2 = true ->
  exists c0 t, pad2 +++ closing double +++ rest = String c0 t /\
               isWordChar c0 = false.
Proof.
  destruct pad2 as [| c pad2]; simpl; intros H.
  - destruct double; eexists _, _; split; reflexivity.
  - apply andb_true_iff in H. destruct H as [Hc _].
    exists c, (pad2 +++ closing double +++ rest). split; [reflexivity |].
    destruct (isWordChar c) eqn:E; [| reflexivity].
    apply wordChar_not_space in E. congruence.
Qed.

(** A placeholder of the form looked for and of another name is not matched. *)
Lemma matcher_other_name (pad1 name pad2 rest : string) :
  allChars isSpace pad1 = true ->
  isWord name = true ->
  allChars isSpace pad2 = true ->
  key <> name ->
  matcher (renderPiece (Placeholder double pad1 name pad2) +++ rest) = None.
Proof.
  intros H1 Hn H2 Hne. unfold matcher, matchPlaceholder, renderPiece.
  rewrite !append_associative, matchLiteral_append.
  rewrite (skipSpaces_pad _ _ H1).
  pose proof key_word as Hk. unfold isWord in Hn, Hk.
  apply andb_true_iff in Hn. destruct Hn as [Hnn Hnw].
  apply andb_true_iff in Hk. destruct Hk as [_ Hkw].
  destruct name as [| n0 name']; [discriminate Hnn |].
  pose proof Hnw as Hnw'. simpl in Hnw'.
  apply andb_true_iff in Hnw'. destruct Hnw' as [Hn0 _].
  change (String n0 name' +++ pad2 +++ closing double +++ rest)
    with (String n0 (name' +++ pad2 +++ closing double +++ rest)).
  rewrite (skipSpaces_word n0 _ (wordChar_not_space n0 Hn0)).
  change (String n0 (name' +++ pad2 +++ closing double +++ rest))
    with (String n0 name' +++ pad2 +++ closing double +++ rest).
  destruct (pad_closing_first pad2 rest H2) as (c0 & t & -> & Hc0).
  destruct (matchLiteral_other_name key (String n0 name') c0 t Hkw Hnw Hne Hc0)
    as [-> | (c & n' & Hc & ->)]; [reflexivity |].
  rewrite (skipSpaces_word c _ (wordChar_not_space c Hc)).
  destruct double; cbn -[Ascii.eqb]; now rewrite (wordChar_not_brace c Hc).
Qed.

(** What stands between the braces of a well-formed placeholder, with the
    closing braces, is plain and begins with a plain character. *)
Lemma placeholder_body (d : bool) (pad1 name pad2 : string) :
  wellFormedPiece (Placeholder d pad1 name pad2) = true ->
  allChars isPlain (pad1 +++ name +++ pad2 +++ closing d) = true /\
  exists c t, pad1 +++ name +++ pad2 +++ closing d = String c t /\
              isPlain c = true.
Proof.
  simpl. unfold isWord. intros H.
  apply andb_true_iff in H. destruct H as [H H2].
  apply andb_true_iff in H. destruct H as [H1 Hn].
  apply andb_true_iff in Hn. destruct Hn as [Hne Hw].
  assert (Hall : allChars isPlain (pad1 +++ name +++ pad2 +++ closing d) = true).
  { rewrite !allChars_append.
    rewrite (allChars_impl isSpace isPlain pad1 space_is_plain H1).
    rewrite (allChars_impl isWordChar isPlain name wordChar_is_plain Hw).
    rewrite (allChars_impl isSpace isPlain pad2 space_is_plain H2).
    now destruct d. }
  split; [exact Hall |].
  destruct (pad1 +++ name +++ pad2 +++ closing d) as [| c t] eqn:E.
  - destruct pad1; [destruct name; discriminate | discriminate].
  - simpl in Hall. apply andb_true_iff in Hall. destruct Hall as [Hc _].
    now exists c, t.
Qed.

(** A piece the pass leaves as it is holds no match. *)
Lemma piece_inert (p : Piece) (rest : string) :
  wellFormedPiece p = true ->
  fillForm double key v p = p ->
  inert matcher (renderPiece p) rest.
Proof.
  destruct p as [s | d pad1 name pad2]; intros Hwf Hfix.
  - now apply inert_plain.
  - destruct (placeholder_body d pad1 name pad2 Hwf) as (Hbody & c & t & E & Hc).
    assert (H0 : matcher (renderPiece (Placeholder d pad1 name pad2) +++ rest)
                 = None).
    { simpl in Hfix. destruct (Bool.eqb d double) eqn:Ed.
      - apply Bool.eqb_prop in Ed. subst d.
        destruct (String.eqb name key) eqn:En; [discriminate Hfix |].
        apply String.eqb_neq in En.
        simpl in Hwf. apply andb_true_iff in Hwf. destruct Hwf as [Hwf H2].
        apply andb_true_iff in Hwf. destruct Hwf as [H1 Hn].
        apply matcher_other_name; auto.
      - unfold matcher, matchPlaceholder.
        destruct d, double; try discriminate Ed; reflexivity. }
    unfold renderPiece in *.
    assert (Hopen : opening d = String (if d then "{" else "$")%char
                                  (String "{"%char EmptyString))
      by (now destruct d).
    rewrite Hopen in *. simpl. simpl in H0. split; [exact H0 |].
    split; [| now apply inert_plain].
    rewrite E. simpl. unfold matcher, matchPlaceholder.
    unfold isPlain in Hc. apply andb_true_iff in Hc. destruct Hc as [Hb _].
    apply negb_true_iff in Hb. rewrite Ascii.eqb_sym in Hb.
    destruct double; cbn -[Ascii.eqb]; [now rewrite Hb | reflexivity].
Qed.

Lemma renderPiece_length (d : bool) (pad1 name pad2 : string) :
  0 < String.length (renderPiece (Placeholder d pad1 name pad2)).
Proof. destruct d; simpl; lia. Qed.

(** One pass replaces the placeholders of its form and key, and nothing
    else. *)
Lemma replaceMatches_pieces (ps : list Piece) : forall fuel before,
  forallb wellFormedPiece ps = true ->
  String.length (renderPieces ps) < fuel ->
  replaceMatches fuel matcher v before (renderPieces ps)
  = renderPieces (map (fillForm double key v) ps).
Proof.
  induction ps as [| p ps IH]; intros fuel before Hwf Hfuel.
  - destruct fuel; [reflexivity |]. simpl.
    unfold matcher, matchPlaceholder. now destruct double.
  - simpl in Hwf. apply andb_true_iff in Hwf. destruct Hwf as [Hp Hps].
    simpl renderPieces in *. rewrite length_append in Hfuel.
    assert (Hcases : fillForm double key v p = p \/
      exists pad1 pad2, p = Placeholder double pad1 key pad2).
    { destruct p as [s | d pad1 name pad2]; [now left |]. simpl.
      destruct (Bool.eqb d double) eqn:Ed; [| now left].
      destruct (String.eqb name key) eqn:En; [| now left].
      apply Bool.eqb_prop in Ed. apply String.eqb_eq in En. subst.
      right. now exists pad1, pad2. }
    destruct Hcases as [Hfix | (pad1 & pad2 & ->)].
    + simpl map. simpl renderPieces. rewrite Hfix.
      replace fuel with (String.length (renderPiece p)
                         + (fuel - String.length (renderPiece p))) by lia.
      rewrite replaceMatches_inert by (now apply piece_inert).
      f_equal. apply IH; [exact Hps | lia].
    + pose proof (renderPiece_length double pad1 key pad2) as Hlen.
      destruct fuel as [| fuel]; [lia |].
      simpl in Hp. apply andb_true_iff in Hp. destruct Hp as [Hp H2].
      apply andb_true_iff in Hp. destruct Hp as [H1 _].
      rewrite replaceMatches_match by (now apply matcher_placeholder).
      simpl map. simpl renderPieces. unfold fillForm at 1.
      rewrite Bool.eqb_reflx, String.eqb_refl. simpl.
      f_equal. apply IH; [exact Hps | lia].
Qed.

Lemma fillForm_wellFormed (ps : list Piece) :
  forallb wellFormedPiece ps = true ->
  forallb wellFormedPiece (map (fillForm double key v) ps) = true.
Proof.
  induction ps as [| p ps IH]; simpl; intros H; [reflexivity |].
  apply andb_true_iff in H. destruct H as [Hp Hps].
  rewrite (IH Hps), andb_true_r.
  destruct p as [s | d pad1 name pad2]; [exact Hp |]. simpl.
  destruct (Bool.eqb d double && String.eqb name key); [exact v_plain | exact Hp].
Qed.

Lemma replacePlaceholders_pieces (ps : list Piece) :
  forallb wellFormedPiece ps = true ->
  replacePlaceholders (opening double) (closing double) key v (renderPieces ps)
  = renderPieces (map (fillForm double key v) ps).
Proof.
  intros H. unfold replacePlaceholders. fold matcher.
  apply replaceMatches_pieces; [exact H | lia].
Qed.

End OnePass.

(** The two passes made for one entry of the map. *)
Lemma replaceBoth_pieces (ps : list Piece) (key text : string) :
  isWord key = true ->
  allChars isPlain text = true ->
  forallb wellFormedPiece ps = true ->
  replaceBoth (renderPieces ps) key text
  = renderPieces (map (fillForm false key text)
                    (map (fillForm true key text) ps)).
Proof.
  intros Hk Hv Hps. unfold replaceBoth.
  change "{{" with (opening true). change "}}" with (closing true).
  change "${" with (opening false). change "}" with (closing false).
  rewrite (replacePlaceholders_pieces true key _ Hk Hv ps Hps).
  apply (replacePlaceholders_pieces false key _ Hk Hv).
  now apply fillForm_wellFormed.
Qed.

Lemma fillPiece_entry (key : string) (value : JSValue)
  (values : list (string * JSValue)) (p : Piece) :
  fillPiece values
    (fillForm false key (textOf value)
       (fillForm true key (textOf value) p))
  = fillPiece ((key, value) :: values) p.
Proof.
  destruct p as [s | d pad1 name pad2]; [reflexivity |].
  simpl. rewrite (String.eqb_sym key name).
  destruct (String.eqb name key) eqn:E; destruct d; simpl; rewrite ?E;
    reflexivity.
Qed.

(** One turn of the loop for a key made of word characters: the engine is not
    asked, and the turn throws exactly when [String(value)] does. *)
Lemma substituteEntry_word (newRegExp : RegExpEngine) (result key : string)
  (value : JSValue) :
  isWord key = true ->
  substituteEntry newRegExp result (key, value)
  = andThen (toStringJS value)
      (fun text => Returned (replaceBoth result key text)).
Proof.
  intros Hk. unfold substituteEntry, newPlaceholder. rewrite Hk.
  cbn [andThen]. now destruct (toStringJS value).
Qed.

(** Rendering a template made of plain text and placeholders with values whose
    text is plain: every placeholder of either form whose name is a key is
    replaced by the text of that key's value, and every other piece is left
    as it is. *)
Lemma substituteParameters_pieces (newRegExp : RegExpEngine)
  (values : list (string * JSValue)) :
  forall ps,
  forallb plainEntry values = true ->
  forallb wellFormedPiece ps = true ->
  substituteParameters newRegExp (renderPieces ps) values
  = Returned (renderPieces (map (fillPiece values) ps)).
Proof.
  induction values as [| [key value] values IH]; intros ps Hv Hps.
  - simpl. f_equal. induction ps as [| p ps IHp]; [reflexivity |].
    simpl in Hps. apply andb_true_iff in Hps. destruct Hps as [_ Hps].
    simpl. rewrite <- (IHp Hps) at 1. now destruct p.
  - simpl in Hv. apply andb_true_iff in Hv. destruct Hv as [He Hv].
    unfold plainEntry in He. cbn [fst snd] in He.
    apply andb_true_iff in He. destruct He as [He Hplain].
    apply andb_true_iff in He. destruct He as [Hk Hret].
    cbn [substituteParameters]. rewrite (substituteEntry_word _ _ _ _ Hk).
    unfold textOf in *.
    destruct (toStringJS value) as [text |] eqn:T; [| discriminate Hret].
    cbn [andThen].
    rewrite (replaceBoth_pieces ps key text Hk Hplain Hps).
    rewrite IH; [| exact Hv |].
    + do 2 f_equal. rewrite !map_map. apply map_ext. intros p.
      rewrite <- fillPiece_entry. unfold textOf. now rewrite T.
    + apply (fillForm_wellFormed false key _ Hplain).
      now apply (fillForm_wellFormed true key _ Hplain).
Qed.

Example substitute_pieces_example (newRegExp : RegExpEngine) :
  substituteParameters newRegExp "Dear ${ title } {{name}}, see {{page}}."
    [("name", JString "Ada"); ("title", JString "Dr")]
  = Returned "Dear Dr Ada, see {{page}}.".
Proof.
  apply (substituteParameters_pieces newRegExp
           [("name", JString "Ada"); ("title", JString "Dr")]
           [Text "Dear "; Placeholder false " " "title" " "; Text " ";
            Placeholder true EmptyString "name" EmptyString; Text ", see ";
            Placeholder true EmptyString "page" EmptyString; Text "."]); reflexivity.
Qed.

(** C5, at the input where the code leaves the claim.  The value is handed
    to [String.prototype.replace] as a replacement pattern, so a value holding
    a dollar sign is not inserted as it is: for [{name: "$$"}] the template
    [Hello, {{name}}!] renders as [Hello, $!], and for [{name: "$&"}] the
    placeholder is replaced by itself.  The two renderings of the claim hold. *)
Theorem substituteParameters_dollar_value (newRegExp : RegExpEngine) :
  substituteParameters newRegExp "Hello, {{name}}!" [("name", JString "World")]
    = Returned "Hello, World!" /\
  substituteParameters newRegExp "${x}-${x}" [("x", JString "1")]
    = Returned "1-1" /\
  substituteParameters newRegExp "Hello, {{name}}!" [("name", JString "$$")]
    = Returned "Hello, $!" /\
  substituteParameters newRegExp "Hello, {{name}}!" [("name", JString "$&")]
    = Returned "Hello, {{name}}!" /\
  invokeSkill newRegExp greetingRegistry 0 0 "greeting" [("name", JString "$$")]
    = createSuccessResult "Hello, $!" 0.
Proof. repeat split. Qed.

(** ** Requiredness of a parsed parameter *)

(** C9, as the code has it.  An explicit [required] or [optional] as the
    second element of the hint decides.  Without one: a bullet that has no
    parenthesised hint is optional when its description contains [optional]
    or [default], else required when it contains [required], else optional;
    a bullet that has a hint is required exactly when its description
    contains [(required)] or [is required].  The description is compared in
    lower case. *)
Theorem isRequired_inference (name : string) (typeHintRaw : option string)
  (description : string) :
  let d := toLowerCase description in
  let p := parameterOfBullet name typeHintRaw description in
  (forall b, explicitRequired typeHintRaw = Some b -> param_required p = b) /\
  (explicitRequired typeHintRaw = None ->
   (hasTypeHint typeHintRaw = false ->
      (includes d "optional" || includes d "default" = true ->
         param_required p = false) /\
      (includes d "optional" = false -> includes d "default" = false ->
         includes d "required" = true -> param_required p = true) /\
      (includes d "optional" = false -> includes d "default" = false ->
         includes d "required" = false -> param_required p = false)) /\
   (hasTypeHint typeHintRaw = true ->
      param_required p
      = includes d "(required)" || includes d "is required")).
Proof.
  intros d p. unfold p, parameterOfBullet, isRequired. simpl. fold d.
  split.
  - now intros b ->.
  - intros ->. split.
    + intros ->. repeat split.
      * now intros ->.
      * now intros -> -> ->.
      * now intros -> -> ->.
    + now intros ->.
Qed.

Lemma isRequired_inference_witness :
  param_required (parameterOfBullet "path" (Some "string, required") "The path")
    = true /\
  param_required (parameterOfBullet "limit" None "Required number of items")
    = true /\
  param_required (parameterOfBullet "limit" None "Required; the default is 5")
    = false /\
  param_required (parameterOfBullet "limit" None "Number of items") = false /\
  param_required (parameterOfBullet "path" (Some "string") "This is required")
    = true.
Proof.
  split; [| split; [| split; [| split]]].
  - destruct (isRequired_inference "path" (Some "string, required") "The path")
      as (H & _).
    apply H. reflexivity.
  - destruct (isRequired_inference "limit" None "Required number of items")
      as (_ & H).
    destruct (H eq_refl) as (H1 & _). destruct (H1 eq_refl) as (_ & H2 & _).
    apply H2; reflexivity.
  - destruct (isRequired_inference "limit" None "Required; the default is 5")
      as (_ & H).
    destruct (H eq_refl) as (H1 & _). destruct (H1 eq_refl) as (H2 & _).
    apply H2; reflexivity.
  - destruct (isRequired_inference "limit" None "Number of items") as (_ & H).
    destruct (H eq_refl) as (H1 & _). destruct (H1 eq_refl) as (_ & _ & H2).
    apply H2; reflexivity.
  - destruct (isRequired_inference "path" (Some "string") "This is required")
      as (_ & H).
    destruct (H eq_refl) as (_ & H1). rewrite (H1 eq_refl). reflexivity.
Defined.

(** C9 as stated fails on a bullet with a hint and no explicit token, such as
    [- path (string): required path to the file]: the description contains
    the word [required], yet the parameter is optional. *)
Lemma isRequired_hint_counterexample :
  explicitRequired (Some "string") = None /\
  includes (toLowerCase "required path to the file") "required" = true /\
  param_required
    (parameterOfBullet "path" (Some "string") "required path to the file")
  = false.
Proof. repeat split. Qed.

(** ** The link loop of the index shape *)

Section IndexShapeFacts.

Variable parseMarkdown : string -> ParsedSkill.
Variable overrides : list (string * ParsedOverride).
Variable fetch : string -> FetchResult.
Variable now : Z.

Lemma tryFiles_all_fail (link : SkillLink) (source : SkillSource)
  (files : list string) :
  forallb (fun file => fetchFails (fetch (rawUrl link file))) files = true ->
  tryFiles parseMarkdown overrides fetch now link source files = None.
Proof.
  induction files as [| file files IH]; simpl; intros H; [reflexivity |].
  apply andb_true_iff in H. destruct H as [Hf Hr].
  destruct (fetch (rawUrl link file)) as [| [] [text |]];
    try discriminate Hf; now apply IH.
Qed.

(** The loop never takes its [catch] branch: what it returns are the skills
    of the links whose fetch came back with a document. *)
Lemma parseSkillsFromReadme_spec (links : list SkillLink) (source : SkillSource) :
  parseSkillsFromReadme parseMarkdown overrides fetch now links source
  = flat_map (fun link =>
      match tryFiles parseMarkdown overrides fetch now link source possibleFiles with
      | Some skill => [skill]
      | None => []
      end) links.
Proof.
  induction links as [| link links IH]; [reflexivity |].
  assert (Hstep :
    parseSkillsFromReadme parseMarkdown overrides fetch now (link :: links) source
    = match tryFiles parseMarkdown overrides fetch now link source possibleFiles with
      | Some skill =>
          skill :: parseSkillsFromReadme parseMarkdown overrides fetch now links source
      | None => parseSkillsFromReadme parseMarkdown overrides fetch now links source
      end) by reflexivity.
  rewrite Hstep, IH. cbn [flat_map].
  now destruct (tryFiles parseMarkdown overrides fetch now link source
                  possibleFiles).
Qed.

End IndexShapeFacts.

(** C1, at the input where the code leaves the claim.  When the fetch fails
    for the three candidate files, [fetchSkillFromGitHub] returns [null]
    instead of throwing, so the [catch] that builds the stub is not entered
    and the link leaves no record: neither the stub nor anything else.  With
    the network down, the sample link is dropped. *)
Theorem parseSkillsFromReadme_drops_link (parseMarkdown : string -> ParsedSkill)
  (overrides : list (string * ParsedOverride)) (fetch : string -> FetchResult)
  (now : Z) (before after : list SkillLink) (link : SkillLink)
  (source : SkillSource) :
  (allFetchesFail fetch link = true ->
   fetchSkillFromGitHub parseMarkdown overrides fetch now link source
     = Returned None /\
   parseSkillsFromReadme parseMarkdown overrides fetch now [link] source = [] /\
   parseSkillsFromReadme parseMarkdown overrides fetch now
     (before ++ link :: after) source
   = parseSkillsFromReadme parseMarkdown overrides fetch now
       (before ++ after) source) /\
  parseSkillsFromReadme parseMarkdown overrides networkDown now
    [sampleLink] source = [] /\
  parseSkillsFromReadme parseMarkdown overrides notFound now
    [sampleLink] source = [].
Proof.
  split; [| split; reflexivity].
  intros H. unfold allFetchesFail in H.
  pose proof (tryFiles_all_fail parseMarkdown overrides fetch now link source
                possibleFiles H) as Hnone.
  repeat split.
  - unfold fetchSkillFromGitHub. now rewrite Hnone.
  - rewrite parseSkillsFromReadme_spec. cbn [flat_map]. now rewrite Hnone.
  - rewrite !parseSkillsFromReadme_spec, !flat_map_app. cbn [flat_map].
    now rewrite Hnone.
Qed.

Lemma parseSkillsFromReadme_drops_link_witness :
  parseSkillsFromReadme (fun content =>
      {| parsed_name := EmptyString; parsed_description := EmptyString; parsed_content := content;
         parsed_metadata := noMetadata; parsed_parameters := [] |})
    [] networkDown 0%Z [sampleLink] SrcRepository = [].
Proof.
  destruct (parseSkillsFromReadme_drops_link
              (fun content =>
                 {| parsed_name := EmptyString; parsed_description := EmptyString;
                    parsed_content := content;
                    parsed_metadata := noMetadata; parsed_parameters := [] |})
              [] networkDown 0%Z [] [] sampleLink SrcRepository) as (H & _).
  destruct H as (_ & H & _); [reflexivity | exact H].
Defined.

(** ** The sync controller *)

(** One call of [sync] on a clone that is level with its remote: whatever the
    fate of the git commands, the call returns, reports no update, starts no
    hard reset and leaves the head and the working tree as they were. *)
Lemma sync_level_once (fuel : nat) (branch : string) (w : WorkingCopy) :
  hasGitDir w = true ->
  localHead w = upstreamHead w ->
  exists r w' started,
    sync (S fuel) branch w = Some (r, w') /\
    journal w' = started ++ journal w /\
    ~ In GitResetHard started /\
    gs_updated r = false /\
    gs_skillsChanged r <> Some true /\
    (gs_success r = true -> r = upToDate) /\
    (failures w = [] -> r = upToDate /\ failures w' = []) /\
    hasGitDir w' = true /\
    localHead w' = localHead w /\
    localChanges w' = localChanges w /\
    upstreamHead w' = upstreamHead w.
Proof.
  destruct w as [g h t c u f j]. simpl. intros -> ->.
  assert (Hno : forall l, (forall x, In x l -> x <> GitResetHard) ->
                          ~ In GitResetHard l)
    by (intros l H Hin; exact (H _ Hin eq_refl)).
  (* the commands started, by the place of the first failure *)
  destruct f as [| [m1 |] [| [m2 |] [| [m3 |] f]]];
    unfold tryCatch, bind, gitFetch, gitRevParse, git, ret, settled; simpl;
    rewrite ?String.eqb_refl;
    match goal with
    | |- exists r w' started, Some (_, ?w) = _ /\ _ =>
        let js := eval simpl in (journal w) in
        match js with
        | context [GitRevParse ?ref :: GitRevParse "HEAD" :: _] =>
            eexists _, _, [GitRevParse ref; GitRevParse "HEAD"; GitFetch]
        | context [GitRevParse "HEAD" :: _] =>
            eexists _, _, [GitRevParse "HEAD"; GitFetch]
        | _ => eexists _, _, [GitFetch]
        end
    end;
    repeat split; try reflexivity; try discriminate;
    apply Hno; simpl; intros x Hx;
    repeat (destruct Hx as [<- | Hx]; [discriminate |]); destruct Hx.
Qed.

(** [sync] and [initialize] return: two levels of calls are enough. *)
Lemma sync_returns (fuel : nat) (branch : string) (w : WorkingCopy) :
  exists r w', sync (S (S fuel)) branch w = Some (r, w').
Proof.
  cbn [sync]. destruct (hasGitDir w) eqn:E; cbn [negb].
  - match goal with |- exists r w', Some ?x = _ =>
      exists (fst x), (snd x); now destruct x end.
  - cbn [initialize]. rewrite E.
    match goal with |- exists r w', Some ?x = _ =>
      exists (fst x), (snd x); now destruct x end.
Qed.

Lemma initialize_returns (fuel : nat) (branch : string) (w : WorkingCopy) :
  exists r w', initialize (S (S fuel)) branch w = Some (r, w').
Proof.
  cbn [initialize]. destruct (hasGitDir w) eqn:E.
  - cbn [sync]. rewrite E. cbn [negb].
    match goal with |- exists r w', Some ?x = _ =>
      exists (fst x), (snd x); now destruct x end.
  - match goal with |- exists r w', Some ?x = _ =>
      exists (fst x), (snd x); now destruct x end.
Qed.

(** C8.  On a clone whose head is the head of the remote branch, [sync]
    returns with [updated = false], and with [skillsChanged = false] whenever
    it succeeds, which it does when no git command fails; no hard reset is
    started and the head and the working tree are left as they were.  A
    second call right after behaves the same. *)
Theorem sync_no_op_when_level (fuel : nat) (branch : string) (w : WorkingCopy) :
  hasGitDir w = true ->
  localHead w = upstreamHead w ->
  exists r1 w1 r2 w2 started,
    sync (S fuel) branch w = Some (r1, w1) /\
    sync (S fuel) branch w1 = Some (r2, w2) /\
    journal w2 = started ++ journal w /\
    ~ In GitResetHard started /\
    gs_updated r1 = false /\ gs_updated r2 = false /\
    gs_skillsChanged r1 <> Some true /\ gs_skillsChanged r2 <> Some true /\
    (gs_success r1 = true -> gs_skillsChanged r1 = Some false) /\
    (gs_success r2 = true -> gs_skillsChanged r2 = Some false) /\
    (failures w = [] -> r1 = upToDate /\ r2 = upToDate) /\
    localHead w1 = localHead w /\ localChanges w1 = localChanges w /\
    localHead w2 = localHead w /\ localChanges w2 = localChanges w.
Proof.
  intros Hg Hh.
  destruct (sync_level_once fuel branch w Hg Hh)
    as (r1 & w1 & s1 & E1 & J1 & N1 & U1 & C1 & S1 & F1 & G1 & H1 & L1 & R1).
  assert (Hh1 : localHead w1 = upstreamHead w1) by congruence.
  destruct (sync_level_once fuel branch w1 G1 Hh1)
    as (r2 & w2 & s2 & E2 & J2 & N2 & U2 & C2 & S2 & F2 & G2 & H2 & L2 & R2).
  exists r1, w1, r2, w2, (s2 ++ s1).
  split; [exact E1 |]. split; [exact E2 |].
  split; [now rewrite J2, J1, app_assoc |].
  split; [intros Hin; apply in_app_or in Hin; tauto |].
  split; [exact U1 |]. split; [exact U2 |].
  split; [exact C1 |]. split; [exact C2 |].
  split; [intros Hs; now rewrite (S1 Hs) |].
  split; [intros Hs; now rewrite (S2 Hs) |].
  split.
  - intros Hf. destruct (F1 Hf) as (-> & Hf1).
    destruct (F2 Hf1) as (-> & _). now split.
  - repeat split; congruence.
Qed.

Lemma sync_no_op_when_level_witness :
  exists w1 w2,
    sync 1 "main" levelCopy = Some (upToDate, w1) /\
    sync 1 "main" w1 = Some (upToDate, w2) /\
    localChanges w2 = ["README.md"].
Proof.
  destruct (sync_no_op_when_level 0 "main" levelCopy eq_refl eq_refl)
    as (r1 & w1 & r2 & w2 & started & E1 & E2 & _ & _ & _ & _ & _ & _ & _ & _
        & F & _ & _ & _ & L2).
  destruct (F eq_refl) as (-> & ->).
  exists w1, w2. repeat split; assumption.
Defined.

(** ** The auto-sync loop *)

(** C3, at the input where the code leaves the claim.  The timer callback of
    [startAutoSync] calls [sync()] without consulting any flag: in every
    state of the loop a tick starts one more sync, and after two ticks in a
    row two syncs are in flight.  [isSyncing] guards [onUpdate] alone, which
    runs once a sync of the timer callback has settled with an update. *)
Theorem autoSync_tick_starts_sync :
  (forall st, exists st',
     step st Tick = Some st' /\
     syncsStarted st' = S (syncsStarted st) /\
     syncsInFlight st' = S (syncsInFlight st)) /\
  (exists st,
     runLoop loopStart [Tick; Tick] = Some st /\
     syncsStarted st = 2 /\ syncsInFlight st = 2 /\ callbacksSkipped st = 0) /\
  (forall st result st',
     isSyncing st = true ->
     step st (HandlerSyncSettled result) = Some st' ->
     syncsStarted st' = syncsStarted st).
Proof.
  split; [| split].
  - intros st. eexists. repeat split.
  - eexists. repeat split.
  - intros st result st' Hflag. simpl.
    destruct (handlerSyncs st); [discriminate |].
    destruct (gs_success result && gs_updated result); intros [= <-];
      [unfold onUpdate; simpl; now rewrite Hflag | reflexivity].
Qed.

Lemma autoSync_tick_starts_sync_witness :
  runLoop loopStart [Tick; HandlerSyncSettled updated;
                     CallbackSyncSettled updated; Tick]
    = Some reloadingLoop /\
  (forall st', step reloadingLoop (HandlerSyncSettled updated) = Some st' ->
     syncsStarted st' = 3).
Proof.
  split; [reflexivity |].
  destruct autoSync_tick_starts_sync as (_ & _ & H).
  intros st'. apply (H reloadingLoop updated st'). reflexivity.
Defined.

(** What the flag does guarantee: [isSyncing] is set exactly while an
    [onUpdate] is under way, so the syncs made by [onUpdate] never overlap one
    another. *)
Lemma step_flag_consistent (st st' : LoopState) (ev : LoopEvent) :
  flagConsistent st = true ->
  step st ev = Some st' ->
  flagConsistent st' = true.
Proof.
  unfold flagConsistent. intros H.
  destruct ev as [| result | result |]; simpl.
  - now intros [= <-].
  - destruct (handlerSyncs st); [discriminate |].
    destruct (gs_success result && gs_updated result); intros [= <-];
      [| exact H].
    unfold onUpdate. destruct (isSyncing st) eqn:E; simpl; [| reflexivity].
    now destruct (callbackPhase st).
  - destruct (callbackPhase st); try discriminate.
    destruct (gs_success result && isTrue (gs_skillsChanged result));
      intros [= <-]; simpl; [| reflexivity].
    simpl in H. exact H.
  - destruct (callbackPhase st); try discriminate. now intros [= <-].
Qed.

Lemma runLoop_flag_consistent (events : list LoopEvent) : forall st st',
  flagConsistent st = true ->
  runLoop st events = Some st' ->
  flagConsistent st' = true.
Proof.
  induction events as [| ev events IH]; intros st st' H; simpl.
  - now intros [= <-].
  - destruct (step st ev) as [st1 |] eqn:E; [| discriminate].
    apply IH. exact (step_flag_consistent st st1 ev H E).
Qed.

(* ===================================================================== *)
(** * Part III: further properties of the code *)
(* ===================================================================== *)

(** ** The source list *)

Lemma insertByPriority_permutation (x : RepositorySource)
  (l : list RepositorySource) : Permutation (insertByPriority x l) (x :: l).
Proof.
  induction l as [| y l IH]; simpl; [apply Permutation_refl |].
  destruct (src_priority y <=? src_priority x)%Z; [apply Permutation_refl |].
  apply perm_trans with (y :: x :: l); [now apply perm_skip | apply perm_swap].
Qed.

Lemma sortByPriority_permutation (l : list RepositorySource) :
  Permutation (sortByPriority l) l.
Proof.
  induction l as [| x l IH]; simpl; [apply perm_nil |].
  apply perm_trans with (x :: sortByPriority l);
    [apply insertByPriority_permutation | now apply perm_skip].
Qed.

(** In a descending list the head has the highest priority. *)
Lemma descending_head (x : RepositorySource) (l : list RepositorySource) :
  descending (x :: l) = true ->
  forall y, In y l -> (src_priority y <= src_priority x)%Z.
Proof.
  revert x. induction l as [| z l IH]; intros x H y Hin; [destruct Hin |].
  simpl in H. apply andb_true_iff in H. destruct H as [Hzx Hd].
  apply Z.leb_le in Hzx. destruct Hin as [<- | Hin]; [exact Hzx |].
  specialize (IH z Hd y Hin). lia.
Qed.

(** Where the new source lands in a list that is already in order: behind
    every source of at least its priority, before every source of less. *)
Lemma sortByPriority_snoc (l : list RepositorySource) (s : RepositorySource) :
  descending l = true ->
  exists l1 l2,
    l = l1 ++ l2 /\
    sortByPriority (l ++ [s]) = l1 ++ s :: l2 /\
    (forall y, In y l1 -> (src_priority s <= src_priority y)%Z) /\
    (forall y, In y l2 -> (src_priority y < src_priority s)%Z).
Proof.
  induction l as [| x l IH]; intros Hd.
  - exists [], []. repeat split; intros y [].
  - destruct (IH (descending_tail _ _ Hd)) as (l1 & l2 & El & Es & H1 & H2).
    simpl. rewrite Es.
    destruct l1 as [| y l1].
    + (* every source of [l] is below [s] *)
      simpl in El. subst l2. simpl.
      destruct (src_priority s <=? src_priority x)%Z eqn:E.
      * apply Z.leb_le in E. exists [x], l. repeat split; [| exact H2].
        intros y [<- | []]. exact E.
      * apply Z.leb_gt in E. exists [], (x :: l). simpl.
        assert (Hins : insertByPriority x l = x :: l).
        { destruct l as [| z l']; [reflexivity |]. simpl.
          simpl in Hd. apply andb_true_iff in Hd. destruct Hd as [Hzx _].
          now rewrite Hzx. }
        rewrite Hins. repeat split; [intros y [] |].
        intros y [<- | Hin]; [exact E | now apply H2].
    + simpl in El. subst l. simpl.
      simpl in Hd. apply andb_true_iff in Hd. destruct Hd as [Hyx Hd].
      rewrite Hyx. exists (x :: y :: l1), l2. repeat split; [| exact H2].
      intros z [<- | Hin]; [| now apply H1].
      apply Z.leb_le in Hyx. specialize (H1 y (or_introl eq_refl)). lia.
Qed.

(** X1.  [addSource] loses and invents nothing: the new source list is a
    rearrangement of the old one with the new source, in descending order of
    priority, and the skills, the cache path and the last sync are untouched.
    When the list was in order, the old sources keep their places and the new
    one goes behind every source of the same or a higher priority. *)
Theorem addSource_keeps_order (r : SkillRegistry) (s : RepositorySource) :
  Permutation (getSources (addSource r s)) (s :: getSources r) /\
  descending (getSources (addSource r s)) = true /\
  skills (addSource r s) = skills r /\
  getLastSync (addSource r s) = getLastSync r /\
  (descending (getSources r) = true ->
   exists l1 l2,
     getSources r = l1 ++ l2 /\
     getSources (addSource r s) = l1 ++ s :: l2 /\
     (forall y, In y l1 -> (src_priority s <= src_priority y)%Z) /\
     (forall y, In y l2 -> (src_priority y < src_priority s)%Z)).
Proof.
  unfold getSources, getLastSync. simpl. repeat split.
  - apply perm_trans with (sources r ++ [s]);
      [apply sortByPriority_permutation |].
    apply Permutation_sym, Permutation_cons_append.
  - apply sortByPriority_is_descending.
  - apply sortByPriority_snoc.
Qed.

Lemma addSource_keeps_order_witness :
  exists l1 l2,
    getSources twoSources = l1 ++ l2 /\
    getSources (addSource twoSources (gitSource 2)) = l1 ++ gitSource 2 :: l2 /\
    (forall y, In y l1 -> (src_priority (gitSource 2) <= src_priority y)%Z) /\
    (forall y, In y l2 -> (src_priority y < src_priority (gitSource 2))%Z).
Proof.
  destruct (addSource_keeps_order twoSources (gitSource 2))
    as (_ & _ & _ & _ & H).
  exact (H eq_refl).
Defined.

(** X2.  With the sources in descending order, which [addSource] maintains,
    the priority [registerSkill] resolves for an origin is the highest
    priority among the registered sources of the matching type, and 0 when
    there is none. *)
Theorem resolvedPriority_highest (r : SkillRegistry) (origin : SkillSource) :
  descending (getSources r) = true ->
  (forall s, In s (getSources r) -> sourceOf origin s = true ->
     (src_priority s <= resolvedPriority r origin)%Z) /\
  ((exists s, In s (getSources r) /\ sourceOf origin s = true /\
              resolvedPriority r origin = src_priority s) \/
   ((forall s, In s (getSources r) -> sourceOf origin s = false) /\
    resolvedPriority r origin = 0%Z)).
Proof.
  unfold getSources, resolvedPriority.
  induction (sources r) as [| x l IH]; intros Hd.
  - split; [intros s [] |]. right. split; [intros s [] | reflexivity].
  - simpl. destruct (sourceOf origin x) eqn:Ex.
    + split.
      * intros s [<- | Hin] _; [lia |]. now apply (descending_head x l).
      * left. exists x. repeat split; [now left | exact Ex].
    + destruct (IH (descending_tail _ _ Hd)) as (Hmax & Hex).
      split.
      * intros s [<- | Hin] Hs; [congruence | now apply Hmax].
      * destruct Hex as [(s & Hin & Hs & E) | (Hnone & E)].
        -- left. exists s. repeat split; [now right | exact Hs | exact E].
        -- right. split; [| exact E].
           intros s [<- | Hin]; [exact Ex | now apply Hnone].
Qed.

Lemma resolvedPriority_highest_witness :
  resolvedPriority (addSource twoSources (gitSource 5)) SrcRepository = 5%Z /\
  (src_priority (gitSource 1)
     <= resolvedPriority (addSource twoSources (gitSource 5)) SrcRepository)%Z.
Proof.
  destruct (resolvedPriority_highest (addSource twoSources (gitSource 5))
              SrcRepository eq_refl) as (H & _).
  split; [reflexivity |].
  apply H; [right; right; now left | reflexivity].
Defined.

(** ** The skill map *)

Lemma mapSet_length {V : Type} (m : list (string * V)) (k : string) (v : V) :
  List.length (mapSet m k v)
  = List.length m + (if mapHas m k then 0 else 1).
Proof.
  unfold mapHas. induction m as [| [k' v'] m IH]; simpl; [reflexivity |].
  destruct (String.eqb k' k); simpl; [lia |]. rewrite IH.
  destruct (mapGet m k); lia.
Qed.

Lemma registerSkill_fields (r : SkillRegistry) (s : Skill) :
  cachePath (registerSkill r s) = cachePath r /\
  lastSync (registerSkill r s) = lastSync r.
Proof.
  unfold registerSkill.
  destruct (mapGet (skills r) (skill_id s));
    [destruct (_ <? _)%Z |]; now split.
Qed.

(** X3.  [registerSkill] never removes a skill and touches one id only: the
    records under every other id stay, the id of the incoming skill is
    registered afterwards (by the incoming skill or by the record that outranks
    it), the count grows by one exactly when the id was new, and the sources
    and the last sync are untouched. *)
Theorem registerSkill_touches_one_id (r : SkillRegistry) (s : Skill) :
  (forall i, i <> skill_id s ->
     getSkill (registerSkill r s) i = getSkill r i) /\
  hasSkill (registerSkill r s) (skill_id s) = true /\
  (forall i, hasSkill r i = true -> hasSkill (registerSkill r s) i = true) /\
  getSkillCount (registerSkill r s)
  = getSkillCount r + (if hasSkill r (skill_id s) then 0 else 1) /\
  getSources (registerSkill r s) = getSources r /\
  getLastSync (registerSkill r s) = getLastSync r.
Proof.
  assert (Hsame : hasSkill (registerSkill r s) (skill_id s) = true).
  { unfold hasSkill, mapHas. fold (getSkill (registerSkill r s) (skill_id s)).
    rewrite getSkill_registerSkill_same.
    destruct (getSkill r (skill_id s)); [destruct (_ <? _)%Z |]; reflexivity. }
  assert (Hother : forall i, i <> skill_id s ->
            getSkill (registerSkill r s) i = getSkill r i).
  { intros i Hne. apply getSkill_registerSkill_other. congruence. }
  split; [exact Hother |]. split; [exact Hsame |]. split; [| split; [| split]].
  - intros i Hi. destruct (String.eqb (skill_id s) i) eqn:E.
    + apply String.eqb_eq in E. now subst i.
    + apply String.eqb_neq in E. unfold hasSkill, mapHas in *.
      fold (getSkill (registerSkill r s) i). fold (getSkill r i) in Hi.
      rewrite Hother by congruence. exact Hi.
  - unfold getSkillCount, hasSkill, registerSkill, mapHas.
    destruct (mapGet (skills r) (skill_id s)) as [e |] eqn:G.
    + destruct (_ <? _)%Z; simpl; [lia |].
      rewrite mapSet_length. unfold mapHas. rewrite G. lia.
    + simpl. rewrite mapSet_length. unfold mapHas. now rewrite G.
  - unfold getSources. apply registerSkill_sources.
  - unfold getLastSync. apply registerSkill_fields.
Qed.

Lemma mapGet_In {V : Type} (m : list (string * V)) (k : string) (v : V) :
  mapGet m k = Some v -> In (k, v) m.
Proof.
  induction m as [| [k' v'] m IH]; simpl; [discriminate |].
  destruct (String.eqb k' k) eqn:E.
  - apply String.eqb_eq in E. intros [= ->]. subst. now left.
  - intros H. right. now apply IH.
Qed.

Lemma In_mapGet {V : Type} (m : list (string * V)) (k : string) (v : V) :
  distinctKeys m = true -> In (k, v) m -> mapGet m k = Some v.
Proof.
  induction m as [| [k' v'] m IH]; simpl; intros Hd Hin; [destruct Hin |].
  apply andb_true_iff in Hd. destruct Hd as [Hk Hd].
  apply negb_true_iff in Hk.
  destruct Hin as [[= -> ->] | Hin].
  - now rewrite String.eqb_refl.
  - destruct (String.eqb k' k) eqn:E; [| now apply IH].
    apply String.eqb_eq in E. subst k'.
    unfold mapHas in Hk. rewrite (IH Hd Hin) in Hk. discriminate Hk.
Qed.

Lemma distinctKeys_NoDup {V : Type} (m : list (string * V)) :
  distinctKeys m = true -> NoDup (mapKeys m).
Proof.
  induction m as [| [k v] m IH]; simpl; intros H; [constructor |].
  apply andb_true_iff in H. destruct H as [Hk Hd].
  apply negb_true_iff in Hk. constructor; [| now apply IH].
  intros Hin. unfold mapKeys in Hin. apply in_map_iff in Hin.
  destruct Hin as ([k' v'] & E & Hin). simpl in E. subst k'.
  apply (In_mapGet m k v' Hd) in Hin. unfold mapHas in Hk.
  now rewrite Hin in Hk.
Qed.

Lemma keysAreIds_keys (m : list (string * Skill)) :
  keysAreIds m = true -> mapKeys m = map skill_id (mapValues m).
Proof.
  induction m as [| [k s] m IH]; simpl; intros H; [reflexivity |].
  apply andb_true_iff in H. destruct H as [Hk Hm].
  apply String.eqb_eq in Hk. now rewrite Hk, IH.
Qed.

Lemma keysAreIds_In (m : list (string * Skill)) (k : string) (s : Skill) :
  keysAreIds m = true -> In (k, s) m -> k = skill_id s.
Proof.
  induction m as [| [k' s'] m IH]; simpl; intros H Hin; [destruct Hin |].
  apply andb_true_iff in H. destruct H as [Hk Hm].
  destruct Hin as [[= -> ->] | Hin]; [now apply String.eqb_eq | now apply IH].
Qed.

(** X4.  In a registry built through the class's methods the views agree:
    [listSkills] holds every id once, a skill is listed exactly when
    [getSkill] returns it for its own id, [hasSkill] holds exactly for the ids
    listed, and [getSkillCount] is the length of the list. *)
Theorem registry_views_agree (r : SkillRegistry) :
  wellFormed r = true ->
  NoDup (map skill_id (listSkills r)) /\
  (forall s, In s (listSkills r) <-> getSkill r (skill_id s) = Some s) /\
  (forall i, hasSkill r i = true <->
             exists s, In s (listSkills r) /\ skill_id s = i) /\
  List.length (listSkills r) = getSkillCount r.
Proof.
  unfold wellFormed, listSkills, getSkill, hasSkill, getSkillCount.
  intros H. apply andb_true_iff in H. destruct H as [H _].
  apply andb_true_iff in H. destruct H as [Hk Hd].
  assert (Hiff : forall s, In s (mapValues (skills r))
                           <-> mapGet (skills r) (skill_id s) = Some s).
  { intros s. split.
    - intros Hin. unfold mapValues in Hin. apply in_map_iff in Hin.
      destruct Hin as ([k s'] & E & Hin). simpl in E. subst s'.
      rewrite <- (keysAreIds_In _ _ _ Hk Hin). now apply In_mapGet.
    - intros Hg. apply mapGet_In in Hg.
      unfold mapValues. apply in_map_iff. now exists (skill_id s, s). }
  repeat split.
  - rewrite <- keysAreIds_keys by exact Hk. now apply distinctKeys_NoDup.
  - apply Hiff.
  - apply Hiff.
  - intros Hi. apply mapHas_true in Hi. destruct Hi as (s & Hs).
    pose proof (mapGet_In _ _ _ Hs) as Hin.
    pose proof (keysAreIds_In _ _ _ Hk Hin) as E.
    exists s. split; [| now symmetry].
    unfold mapValues. apply in_map_iff. now exists (i, s).
  - intros (s & Hin & <-). apply mapHas_true. exists s. now apply Hiff.
  - unfold mapValues. apply length_map.
Qed.

Lemma registry_views_agree_witness :
  NoDup (map skill_id (listSkills localFooRegistered)) /\
  List.length (listSkills localFooRegistered) = getSkillCount localFooRegistered.
Proof.
  destruct (registry_views_agree localFooRegistered eq_refl)
    as (H1 & _ & _ & H2).
  now split.
Defined.

(** ** Restoring any snapshot *)

Lemma fold_registerSkill_reachable (l : list Skill) : forall r,
  reachable r -> reachable (fold_left registerSkill l r).
Proof.
  induction l as [| s l IH]; intros r H; simpl; [exact H |].
  apply IH. now constructor.
Qed.

Lemma fold_addSource_reachable (l : list RepositorySource) : forall r,
  reachable r -> reachable (fold_left addSource l r).
Proof.
  induction l as [| s l IH]; intros r H; simpl; [exact H |].
  apply IH. now constructor.
Qed.

Lemma fromJSON_reachable (data : RegistrySnapshot) : reachable (fromJSON data).
Proof.
  unfold fromJSON.
  assert (H1 : reachable (match snap_skills data with
                          | Some l => fold_left registerSkill l
                                        (newRegistry (snap_cachePath data))
                          | None => newRegistry (snap_cachePath data)
                          end)).
  { destruct (snap_skills data);
      [apply fold_registerSkill_reachable |]; constructor. }
  destruct (snap_sources data) as [l |];
    destruct (snap_lastSync data); try constructor;
    try apply fold_addSource_reachable; exact H1.
Qed.

Lemma fold_addSource_permutation (l : list RepositorySource) : forall r,
  Permutation (sources (fold_left addSource l r)) (sources r ++ l).
Proof.
  induction l as [| s l IH]; intros r; simpl.
  - rewrite app_nil_r. apply Permutation_refl.
  - apply perm_trans with (sources (addSource r s) ++ l); [apply IH |].
    simpl. replace (sources r ++ s :: l) with ((sources r ++ [s]) ++ l)
      by (now rewrite <- app_assoc).
    apply Permutation_app_tail, sortByPriority_permutation.
Qed.

Lemma fold_setSkill_from (l : list Skill) : forall r s,
  In s (mapValues (skills (fold_left setSkill l r))) ->
  In s l \/ In s (mapValues (skills r)).
Proof.
  induction l as [| x l IH]; intros r s H; simpl in H; [now right |].
  destruct (IH _ _ H) as [Hin | Hin]; [left; now right |].
  simpl in Hin. clear H IH.
  induction (skills r) as [| [k v] m IHm]; simpl in Hin.
  - destruct Hin as [<- | []]. left. now left.
  - destruct (String.eqb k (skill_id x)); simpl in Hin.
    + destruct Hin as [<- | Hin]; [left; now left | right; now right].
    + destruct Hin as [<- | Hin]; [right; now left |].
      destruct (IHm Hin) as [H | H]; [now left | right; now right].
Qed.

(** X5.  [fromJSON] repairs what it is given: whatever the snapshot holds
    (ids twice, sources out of order), the restored registry lists every id
    once under its own key and has the sources of the snapshot in descending
    order of priority; every restored skill is an entry of the snapshot and
    every id of the snapshot is restored. *)
Theorem fromJSON_well_formed (l : list Skill) (srcs : list RepositorySource)
  (path : string) (t : option JSDate) :
  let r := fromJSON {| snap_skills := Some l; snap_sources := Some srcs;
                       snap_cachePath := path; snap_lastSync := t |} in
  wellFormed r = true /\
  NoDup (map skill_id (listSkills r)) /\
  descending (getSources r) = true /\
  Permutation (getSources r) srcs /\
  (forall s, In s (listSkills r) -> In s l) /\
  (forall s, In s l -> hasSkill r (skill_id s) = true) /\
  getLastSync r = t.
Proof.
  intros r.
  assert (Hwf : wellFormed r = true)
    by apply reachable_wellFormed, fromJSON_reachable.
  assert (Hsk : skills r = skills (fold_left setSkill l (newRegistry path))).
  { unfold r, fromJSON. simpl.
    rewrite fold_registerSkill_no_sources by reflexivity.
    destruct t; simpl; now rewrite fold_addSource_skills. }
  split; [exact Hwf |]. split; [| split; [| split; [| split; [| split]]]].
  - pose proof Hwf as H. unfold wellFormed in H.
    apply andb_true_iff in H. destruct H as [H _].
    apply andb_true_iff in H. destruct H as [Hk Hd].
    unfold listSkills. rewrite <- keysAreIds_keys by exact Hk.
    now apply distinctKeys_NoDup.
  - unfold wellFormed in Hwf. apply andb_true_iff in Hwf. apply Hwf.
  - unfold r, fromJSON, getSources. simpl.
    pose proof (fold_addSource_permutation srcs
                  (fold_left registerSkill l (newRegistry path))) as Hp.
    rewrite fold_registerSkill_sources in Hp. simpl in Hp.
    now destruct t.
  - intros s Hin. unfold listSkills in Hin. rewrite Hsk in Hin.
    destruct (fold_setSkill_from _ _ _ Hin) as [H | []]. exact H.
  - intros s Hin. unfold hasSkill, mapHas. rewrite Hsk.
    fold (getSkill (fold_left setSkill l (newRegistry path)) (skill_id s)).
    rewrite getSkill_fold_setSkill.
    destruct (find _ (rev l)) as [x |] eqn:F; [reflexivity |].
    exfalso. assert (Hrev : In s (rev l)) by (now apply -> in_rev).
    pose proof (find_none _ _ F s Hrev) as Hf. simpl in Hf.
    rewrite String.eqb_refl in Hf. discriminate Hf.
  - unfold r, fromJSON, getLastSync. simpl.
    destruct t; simpl; [reflexivity |].
    destruct (fold_addSource_fields srcs
                (fold_left registerSkill l (newRegistry path))) as (_ & ->).
    rewrite fold_registerSkill_no_sources by reflexivity.
    now destruct (fold_setSkill_fields l (newRegistry path)) as (_ & _ & ->).
Qed.

Lemma registerSkill_touches_one_id_witness :
  getSkill (registerSkill localFooRegistered twoRequired) "foo" = Some localFoo /\
  getSkillCount (registerSkill localFooRegistered twoRequired) = 2 /\
  getSkillCount (registerSkill localFooRegistered repoFooA) = 1.
Proof.
  destruct (registerSkill_touches_one_id localFooRegistered twoRequired)
    as (H1 & _ & _ & H2 & _).
  destruct (registerSkill_touches_one_id localFooRegistered repoFooA)
    as (_ & _ & _ & H3 & _).
  split; [| split].
  - rewrite H1; [reflexivity | discriminate].
  - rewrite H2. reflexivity.
  - rewrite H3. reflexivity.
Defined.

Lemma fromJSON_well_formed_witness :
  NoDup (map skill_id (listSkills (fromJSON duplicateSnapshot))) /\
  hasSkill (fromJSON duplicateSnapshot) (skill_id localFoo) = true.
Proof.
  destruct (fromJSON_well_formed [localFoo; repoFooA]
              [localSource 2; gitSource 1] "/tmp/cache" None)
    as (_ & H1 & _ & _ & _ & H2 & _).
  split; [exact H1 |]. apply H2. now left.
Defined.

(** ** Validation *)

(** X6.  [validateParameterValue] accepts a value exactly when it has the
    declared type and, for a string parameter that carries an [enum], the
    values of the [enum] can be listed and the value is one of them; an [enum]
    on a parameter of another type is not looked at.  The result carries an
    error message exactly when it is invalid.  When listing the [enum] of a
    string parameter throws (one of its values is an object with an own entry
    [toString]), every value is rejected with the text of the [TypeError]. *)
Theorem validateParameterValue_accepts (param : ParameterSchema) (value : JSValue) :
  (vc_valid (validateParameterValue param value) = true <->
   hasType (param_type param) value = true /\
   (forall allowed, param_type param = TString ->
      param_enum param = Some allowed ->
      returns (joinJS ", " allowed) = true /\
      includesJS allowed value = true)) /\
  (vc_error (validateParameterValue param value) = None <->
   vc_valid (validateParameterValue param value) = true) /\
  (param_type param <> TString ->
   vc_valid (validateParameterValue param value)
   = hasType (param_type param) value) /\
  (forall allowed message, param_type param = TString ->
     param_enum param = Some allowed ->
     joinJS ", " allowed = Thrown message ->
     validateParameterValue param value
     = {| vc_valid := false; vc_error := Some ("TypeError: " +++ message) |}).
Proof.
  destruct param as [name type description required default enum].
  unfold validateParameterValue.
  cbn [param_type param_enum].
  destruct (isStringType type) eqn:Es.
  - assert (type = TString)
      by (destruct type; try discriminate Es; reflexivity).
    subst type.
    destruct enum as [allowed |].
    + destruct (joinJS ", " allowed) as [listed | message] eqn:J.
      * destruct (hasType TString value) eqn:Ht;
          [destruct (includesJS allowed value) eqn:Ei |]; cbn.
        -- split; [| split; [| split]].
           ++ split; [| reflexivity]. intros _. split; [reflexivity |].
              intros a _ [= <-]. rewrite J. now split.
           ++ split; reflexivity.
           ++ intros H. now elim H.
           ++ intros a m _ [= <-] Hj. congruence.
        -- split; [| split; [| split]].
           ++ split; [discriminate |]. intros (_ & H).
              destruct (H allowed eq_refl eq_refl) as (_ & H'). congruence.
           ++ split; discriminate.
           ++ intros H. now elim H.
           ++ intros a m _ [= <-] Hj. congruence.
        -- split; [| split; [| split]].
           ++ split; [discriminate |]. now intros (H & _).
           ++ split; discriminate.
           ++ intros H. now elim H.
           ++ intros a m _ [= <-] Hj. congruence.
      * cbn. split; [| split; [| split]].
        -- split; [discriminate |]. intros (_ & H).
           destruct (H allowed eq_refl eq_refl) as (H' & _).
           rewrite J in H'. discriminate H'.
        -- split; discriminate.
        -- intros H. now elim H.
        -- intros a m _ [= <-] Hj. rewrite J in Hj. now injection Hj as <-.
    + destruct (hasType TString value) eqn:Ht; cbn.
      * split; [| split; [| split]].
        -- split; [| reflexivity]. intros _. split; [reflexivity |].
           intros a _ E. discriminate E.
        -- split; reflexivity.
        -- intros H. now elim H.
        -- intros a m _ E. discriminate E.
      * split; [| split; [| split]].
        -- split; [discriminate |]. now intros (H & _).
        -- split; discriminate.
        -- intros H. now elim H.
        -- intros a m _ E. discriminate E.
  - destruct (hasType type value) eqn:Ht; cbn.
    + split; [| split; [| split]].
      * split; [| reflexivity]. intros _. split; [reflexivity |].
        intros a E. subst type. discriminate Es.
      * split; reflexivity.
      * reflexivity.
      * intros a m E. subst type. discriminate Es.
    + split; [| split; [| split]].
      * split; [discriminate |]. now intros (H & _).
      * split; discriminate.
      * reflexivity.
      * intros a m E. subst type. discriminate Es.
Qed.

Lemma validateParameterValue_accepts_witness :
  vc_valid (validateParameterValue
              {| param_name := "mode"; param_type := TString;
                 param_description := "The mode"; param_required := true;
                 param_default := None;
                 param_enum := Some [JString "fast"; JString "slow"] |}
              (JString "slow")) = true /\
  vc_valid (validateParameterValue
              {| param_name := "count"; param_type := TNumber;
                 param_description := "How many"; param_required := true;
                 param_default := None;
                 param_enum := Some [JNumber 1] |}
              (JNumber 7)) = true.
Proof.
  split.
  - destruct (validateParameterValue_accepts
                {| param_name := "mode"; param_type := TString;
                   param_description := "The mode"; param_required := true;
                   param_default := None;
                   param_enum := Some [JString "fast"; JString "slow"] |}
                (JString "slow")) as (H & _).
    apply H. split; [reflexivity |].
    intros allowed _ [= <-]. split; reflexivity.
  - destruct (validateParameterValue_accepts
                {| param_name := "count"; param_type := TNumber;
                   param_description := "How many"; param_required := true;
                   param_default := None;
                   param_enum := Some [JNumber 1] |} (JNumber 7))
      as (_ & _ & H & _).
    rewrite H; [reflexivity | discriminate].
Defined.

Lemma filter_nil {A : Type} (f : A -> bool) (l : list A) :
  filter f l = [] <-> forall x, In x l -> f x = false.
Proof.
  induction l as [| a l IH]; simpl.
  - split; [intros _ x [] | reflexivity].
  - destruct (f a) eqn:E.
    + split; [discriminate |]. intros H.
      specialize (H a (or_introl eq_refl)). congruence.
    + rewrite IH. split.
      * intros H x [<- | Hin]; [exact E | now apply H].
      * intros H x Hin. apply H. now right.
Qed.

Lemma declaredErrors_nil (ps : list ParameterSchema)
  (params : list (string * JSValue)) :
  declaredErrors ps params = [] <->
  forall p, In p ps -> isMissing params p = false /\ isInvalid params p = false.
Proof.
  rewrite <- length_zero_iff_nil, declaredErrors_length.
  split.
  - intros H p Hin.
    assert (H1 : filter (isMissing params) ps = [])
      by (apply length_zero_iff_nil; lia).
    assert (H2 : filter (isInvalid params) ps = [])
      by (apply length_zero_iff_nil; lia).
    split; [exact (proj1 (filter_nil _ _) H1 p Hin)
           | exact (proj1 (filter_nil _ _) H2 p Hin)].
  - intros H.
    assert (H1 : filter (isMissing params) ps = [])
      by (apply filter_nil; intros p Hin; apply H, Hin).
    assert (H2 : filter (isInvalid params) ps = [])
      by (apply filter_nil; intros p Hin; apply H, Hin).
    now rewrite H1, H2.
Qed.

(** X7.  [validateParameters] on a registered skill answers [valid] exactly
    when every declared required parameter is found by [name in params],
    every declared parameter that is found passes [validateParameterValue]
    with the value [params[name]], and every own key is declared; it then
    reports no error list.  Both tests find the members a plain object
    inherits from [Object.prototype]; when no declared name is the name of
    such a member, they are tests of the own entries. *)
Theorem validateParameters_valid_iff (r : SkillRegistry) (skillId : string)
  (params : list (string * JSValue)) (skill : Skill) :
  getSkill r skillId = Some skill ->
  (valid (validateParameters r skillId params) = true <->
   (forall p, In p (declaredParameters skill) -> param_required p = true ->
      hasProperty params (param_name p) = true) /\
   (forall p, In p (declaredParameters skill) ->
      hasProperty params (param_name p) = true ->
      vc_valid (validateParameterValue p (getProperty params (param_name p)))
      = true) /\
   (forall k, In k (mapKeys params) ->
      declares (declaredParameters skill) k = true)) /\
  ((forall p, In p (declaredParameters skill) ->
      mapHas objectPrototype (param_name p) = false) ->
   (valid (validateParameters r skillId params) = true <->
    (forall p, In p (declaredParameters skill) -> param_required p = true ->
       mapHas params (param_name p) = true) /\
    (forall p v, In p (declaredParameters skill) ->
       mapGet params (param_name p) = Some v ->
       vc_valid (validateParameterValue p v) = true) /\
    (forall k, In k (mapKeys params) ->
       declares (declaredParameters skill) k = true))) /\
  (valid (validateParameters r skillId params) = true ->
   errors (validateParameters r skillId params) = None).
Proof.
  intros Hget. unfold validateParameters. rewrite Hget.
  fold (declaredParameters skill). set (ps := declaredParameters skill).
  set (errs := declaredErrors ps params ++ unknownErrors ps (mapKeys params)).
  cbn [valid errors].
  assert (Hnil : errs = [] <->
    (forall p, In p ps -> isMissing params p = false /\ isInvalid params p = false)
    /\ (forall k, In k (mapKeys params) -> declares ps k = true)).
  { unfold errs. split.
    - intros H. apply app_eq_nil in H. destruct H as (H1 & H2).
      split; [now apply declaredErrors_nil |].
      rewrite unknownErrors_spec in H2. apply map_eq_nil in H2.
      intros k Hin. destruct (declares ps k) eqn:E; [reflexivity |].
      assert (Hf : In k (filter (isUnknown ps) (mapKeys params))).
      { apply filter_In. split; [exact Hin |]. unfold isUnknown. now rewrite E. }
      rewrite H2 in Hf. destruct Hf.
    - intros (H1 & H2). apply declaredErrors_nil in H1. rewrite H1. simpl.
      rewrite unknownErrors_spec.
      assert (Hf : filter (isUnknown ps) (mapKeys params) = []).
      { apply filter_nil. intros k Hin. unfold isUnknown.
        now rewrite (H2 k Hin). }
      now rewrite Hf. }
  assert (Hvalid : Nat.eqb (List.length errs) 0 = true <-> errs = []).
  { destruct errs; simpl; split; intros; try reflexivity; discriminate. }
  assert (Hiff : Nat.eqb (List.length errs) 0 = true <->
    (forall p, In p ps -> param_required p = true ->
       hasProperty params (param_name p) = true) /\
    (forall p, In p ps -> hasProperty params (param_name p) = true ->
       vc_valid (validateParameterValue p (getProperty params (param_name p)))
       = true) /\
    (forall k, In k (mapKeys params) -> declares ps k = true)).
  { rewrite Hvalid, Hnil. split.
    - intros (H1 & H2). split; [| split; [| exact H2]].
      + intros p Hin Hreq. destruct (H1 p Hin) as (Hm & _).
        unfold isMissing in Hm. rewrite Hreq in Hm. simpl in Hm.
        now apply negb_false_iff in Hm.
      + intros p Hin Hhas. destruct (H1 p Hin) as (_ & Hi).
        unfold isInvalid in Hi. rewrite Hhas in Hi. simpl in Hi.
        now apply negb_false_iff in Hi.
    - intros (H1 & H2 & H3). split; [| exact H3].
      intros p Hin. split.
      + unfold isMissing. destruct (param_required p) eqn:Er; [| reflexivity].
        simpl. now rewrite (H1 p Hin Er).
      + unfold isInvalid.
        destruct (hasProperty params (param_name p)) eqn:Eh; [| reflexivity].
        simpl. now rewrite (H2 p Hin Eh). }
  split; [exact Hiff |]. split.
  - intros Hown. rewrite Hiff. split.
    + intros (H1 & H2 & H3). split; [| split; [| exact H3]].
      * intros p Hin Hreq.
        rewrite <- (hasProperty_not_inherited params _ (Hown p Hin)).
        now apply H1.
      * intros p v Hin Hg.
        destruct (hasProperty_own params _ v Hg) as (Hhas & Hval).
        rewrite <- Hval. now apply H2.
    + intros (H1 & H2 & H3). split; [| split; [| exact H3]].
      * intros p Hin Hreq.
        rewrite (hasProperty_not_inherited params _ (Hown p Hin)).
        now apply H1.
      * intros p Hin Hhas.
        rewrite (hasProperty_not_inherited params _ (Hown p Hin)) in Hhas.
        unfold mapHas in Hhas. unfold getProperty.
        destruct (mapGet params (param_name p)) as [v |] eqn:Eg;
          [| discriminate Hhas].
        now apply H2.
  - intros H. apply Hvalid in H. now rewrite H.
Qed.

Lemma validateParameters_valid_iff_witness :
  valid (validateParameters twoRequiredRegistry "test-skill"
           [("a", JString "x"); ("b", JString "y")]) = true.
Proof.
  destruct (validateParameters_valid_iff twoRequiredRegistry "test-skill"
              [("a", JString "x"); ("b", JString "y")] twoRequired eq_refl)
    as (H & _).
  apply H. repeat split.
  - intros p [<- | [<- | []]] _; reflexivity.
  - intros p [<- | [<- | []]] _; reflexivity.
  - intros k [<- | [<- | []]]; reflexivity.
Defined.

(** ** Listing and filtering *)

Lemma lowerChar_idempotent (c : ascii) : lowerChar (lowerChar c) = lowerChar c.
Proof. destruct c as [[] [] [] [] [] [] [] []]; reflexivity. Qed.

Lemma toLowerCase_idempotent (s : string) :
  toLowerCase (toLowerCase s) = toLowerCase s.
Proof.
  induction s as [| c s IH]; simpl; [reflexivity |].
  now rewrite lowerChar_idempotent, IH.
Qed.

Lemma toLowerCase_isEmpty (s : string) : isEmpty (toLowerCase s) = isEmpty s.
Proof. now destruct s. Qed.

Lemma prefix_reflexive (s : string) : prefix s s = true.
Proof.
  induction s as [| c s IH]; simpl; [reflexivity |].
  destruct (ascii_dec c c) as [_ | Hne]; [exact IH | now elim Hne].
Qed.

Lemma includes_itself (s : string) : includes s s = true.
Proof.
  destruct s as [| c s]; [reflexivity |].
  cbn [includes]. now rewrite prefix_reflexive.
Qed.

(** The two conditions of the executor's [listSkills]. *)
Lemma selectSkills_In (r : SkillRegistry) (filter : option string)
  (source : option SourceFilter) (skill : Skill) :
  In skill (selectSkills r filter source) <->
  In skill (listSkills r) /\
  match source with
  | None | Some FilterAll => True
  | Some f => sourceIs f (skill_source skill) = true
  end /\
  match filter with
  | None => True
  | Some text =>
      text = EmptyString \/ matchesText (toLowerCase text) skill = true
  end.
Proof.
  unfold selectSkills.
  assert (Hsrc : In skill
      match source with
      | None | Some FilterAll => listSkills r
      | Some f => List.filter (fun s => sourceIs f (skill_source s)) (listSkills r)
      end <->
    In skill (listSkills r) /\
    match source with
    | None | Some FilterAll => True
    | Some f => sourceIs f (skill_source skill) = true
    end).
  { destruct source as [[] |]; rewrite ?filter_In; tauto. }
  destruct filter as [text |].
  - destruct text as [| c text].
    + simpl. rewrite Hsrc. intuition.
    + cbn [isEmpty]. rewrite filter_In, Hsrc.
      split; [intros ((H1 & H2) & H3); repeat split; auto |].
      intros (H1 & H2 & [H3 | H3]); [discriminate H3 | repeat split; auto].
  - rewrite Hsrc. tauto.
Qed.



(** X9.  The text filter ignores letter case on both sides: a filter and its
    lower-case form select the same skills, and a registered skill is found
    under any spelling of its name, of its description and of its id that
    differs from it by case only. *)
Theorem executorListSkills_ignores_case (r : SkillRegistry) (text : string)
  (source : option SourceFilter) :
  executorListSkills r (Some text) source
  = executorListSkills r (Some (toLowerCase text)) source /\
  (forall skill, In skill (listSkills r) ->
     toLowerCase text = toLowerCase (skill_name skill) \/
     toLowerCase text = toLowerCase (skill_description skill) \/
     toLowerCase text = toLowerCase (skill_id skill) ->
     In (summarize skill) (executorListSkills r (Some text) None)).
Proof.
  split.
  - unfold executorListSkills, selectSkills.
    now rewrite toLowerCase_idempotent, toLowerCase_isEmpty.
  - intros skill Hin H. unfold executorListSkills. apply in_map.
    apply selectSkills_In. repeat split; [exact Hin |].
    right. unfold matchesText.
    destruct H as [-> | [-> | ->]]; rewrite includes_itself;
      rewrite ?orb_true_r; reflexivity.
Qed.

Lemma executorListSkills_ignores_case_witness :
  In (summarize localFoo)
     (executorListSkills localFooRegistered (Some "LOCAL FOO") None).
Proof.
  destruct (executorListSkills_ignores_case localFooRegistered "LOCAL FOO" None)
    as (_ & H).
  apply (H localFoo); [now left | now left].
Defined.

(** ** Invocation *)

Lemma append_not_empty (a b : string) : isEmpty a = false -> isEmpty (a +++ b) = false.
Proof. now destruct a. Qed.

Lemma declaredErrors_not_empty (ps : list ParameterSchema)
  (params : list (string * JSValue)) :
  Forall (fun e => isEmpty e = false) (declaredErrors ps params).
Proof.
  induction ps as [| p ps IH]; cbn [declaredErrors]; [constructor |].
  destruct (param_required p && negb (hasProperty params (param_name p)));
    [now constructor |].
  destruct (hasProperty params (param_name p)); [| exact IH].
  destruct (negb (vc_valid (validateParameterValue p _)));
    [now constructor | exact IH].
Qed.

Lemma unknownErrors_not_empty (ps : list ParameterSchema) (keys : list string) :
  Forall (fun e => isEmpty e = false) (unknownErrors ps keys).
Proof.
  induction keys as [| k keys IH]; simpl; [constructor |].
  destruct (negb (declares ps k)); [now constructor | exact IH].
Qed.

Lemma joinWith_not_empty (sep : string) (l : list string) :
  l <> [] -> Forall (fun e => isEmpty e = false) l ->
  isEmpty (joinWith sep l) = false.
Proof.
  destruct l as [| x l]; [now intros H | intros _ H].
  inversion H as [| ? ? Hx Hl]; subst.
  destruct l; simpl; [exact Hx | now apply append_not_empty].
Qed.

(** With keys made of word characters and values that [String] prints, the
    loop of [substituteParameters] runs to its end. *)
Lemma substituteParameters_returns (newRegExp : RegExpEngine)
  (parameters : list (string * JSValue)) : forall content,
  forallb (fun entry => isWord (fst entry)) parameters = true ->
  forallb (fun entry => returns (toStringJS (snd entry))) parameters = true ->
  returns (substituteParameters newRegExp content parameters) = true.
Proof.
  induction parameters as [| [key value] ps IH]; intros content Hk Hv;
    [reflexivity |].
  cbn [forallb fst snd] in Hk, Hv.
  apply andb_true_iff in Hk. destruct Hk as [Hk Hks].
  apply andb_true_iff in Hv. destruct Hv as [Hv Hvs].
  cbn [substituteParameters]. rewrite (substituteEntry_word _ _ _ _ Hk).
  destruct (toStringJS value) as [text |]; [| discriminate Hv].
  cbn [andThen]. now apply IH.
Qed.

(** X10.  [invokeSkill] has four outcomes.  An unknown id gives the
    [SkillNotFound] error; a registered skill whose parameters do not validate
    gives [InvalidParams] with the whole list of violations as details and
    their texts joined by a comma as message (the fallback message is never
    used), and no content; when the substitution throws (a key from which no
    pattern can be built, a value that [String] cannot print), the answer is
    an [ExecutionError] with the message of the exception; otherwise the
    result is the success result with the substituted content.  So the call
    succeeds exactly when the skill exists, the parameters validate and the
    substitution returns, which it does when the keys are made of word
    characters and the values can be printed.  [getSkillDocumentation] returns
    the content as stored. *)
Theorem invokeSkill_outcomes (newRegExp : RegExpEngine) (r : SkillRegistry)
  (startTime endTime : Z) (skillId : string)
  (parameters : list (string * JSValue)) :
  (getSkill r skillId = None ->
   invokeSkill newRegExp r startTime endTime skillId parameters
   = createErrorResult SkillNotFound ("Skill not found: " +++ skillId)
       (endTime - startTime)%Z None) /\
  (forall skill, getSkill r skillId = Some skill ->
   valid (validateParameters r skillId parameters) = false ->
   exists errs, errs <> [] /\
     errors (validateParameters r skillId parameters) = Some errs /\
     invokeSkill newRegExp r startTime endTime skillId parameters
     = createErrorResult InvalidParams (joinWith ", " errs)
         (endTime - startTime)%Z (Some errs)) /\
  (forall skill message, getSkill r skillId = Some skill ->
   valid (validateParameters r skillId parameters) = true ->
   substituteParameters newRegExp (skill_content skill) parameters
   = Thrown message ->
   invokeSkill newRegExp r startTime endTime skillId parameters
   = createErrorResult ExecutionError message (endTime - startTime)%Z None) /\
  (forall skill formatted, getSkill r skillId = Some skill ->
   valid (validateParameters r skillId parameters) = true ->
   substituteParameters newRegExp (skill_content skill) parameters
   = Returned formatted ->
   invokeSkill newRegExp r startTime endTime skillId parameters
   = createSuccessResult formatted (endTime - startTime)%Z) /\
  (success (invokeSkill newRegExp r startTime endTime skillId parameters) = true
   <->
   exists skill, getSkill r skillId = Some skill /\
     valid (validateParameters r skillId parameters) = true /\
     returns (substituteParameters newRegExp (skill_content skill) parameters)
     = true) /\
  (forall skill, getSkill r skillId = Some skill ->
   valid (validateParameters r skillId parameters) = true ->
   forallb (fun entry => isWord (fst entry)) parameters = true ->
   forallb (fun entry => returns (toStringJS (snd entry))) parameters = true ->
   success (invokeSkill newRegExp r startTime endTime skillId parameters)
   = true) /\
  (forall skill, getSkill r skillId = Some skill ->
   getSkillDocumentation r startTime endTime skillId
   = createSuccessResult (skill_content skill) (endTime - startTime)%Z).
Proof.
  split; [| split; [| split; [| split; [| split; [| split]]]]].
  - unfold invokeSkill. now intros ->.
  - intros skill Hget Hv. unfold invokeSkill. rewrite Hget, Hv.
    cbn [negb].
    unfold validateParameters in *. rewrite Hget in *. cbn [valid errors] in *.
    set (errs := declaredErrors _ parameters ++ unknownErrors _ _) in *.
    assert (Hne : errs <> []) by (destruct errs; [discriminate Hv | discriminate]).
    assert (Hall : Forall (fun e => isEmpty e = false) errs)
      by (apply Forall_app; split;
          [apply declaredErrors_not_empty | apply unknownErrors_not_empty]).
    exists errs. split; [exact Hne |].
    destruct errs as [| e errs'] eqn:E; [now elim Hne |].
    cbn [List.length Nat.ltb Nat.leb].
    split; [reflexivity |]. unfold orElse.
    pose proof (joinWith_not_empty ", " (e :: errs') Hne Hall) as Hj.
    now rewrite Hj.
  - intros skill message Hget Hv Hs. unfold invokeSkill.
    now rewrite Hget, Hv, Hs.
  - intros skill formatted Hget Hv Hs. unfold invokeSkill.
    now rewrite Hget, Hv, Hs.
  - unfold invokeSkill.
    destruct (getSkill r skillId) as [skill |] eqn:Hget.
    + destruct (valid (validateParameters r skillId parameters)); cbn [negb].
      * destruct (substituteParameters newRegExp (skill_content skill)
                    parameters) as [formatted | message] eqn:Hs; cbn.
        -- split; [| reflexivity]. intros _. exists skill.
           rewrite Hs. now repeat split.
        -- split; [discriminate |]. intros (s & [= <-] & _ & H).
           rewrite Hs in H. discriminate H.
      * cbn. split; [discriminate |]. intros (s & _ & H & _). discriminate H.
    + cbn. split; [discriminate |]. intros (s & H & _). discriminate H.
  - intros skill Hget Hv Hk Hp. unfold invokeSkill. rewrite Hget, Hv.
    cbn [negb].
    pose proof (substituteParameters_returns newRegExp parameters
                  (skill_content skill) Hk Hp) as Hr.
    now destruct (substituteParameters newRegExp (skill_content skill)
                    parameters).
  - intros skill Hget. unfold getSkillDocumentation. now rewrite Hget.
Qed.

Lemma invokeSkill_outcomes_witness :
  invokeSkill noEngine greetingRegistry 10 12 "greeting"
    [("name", JString "World")]
  = createSuccessResult "Hello, World!" 2 /\
  success (invokeSkill noEngine greetingRegistry 10 12 "greeting" []) = false /\
  invokeSkill noEngine optionsRegistry 10 12 "report"
    [("options", unprintable)]
  = createErrorResult ExecutionError
      "Cannot convert object to primitive value" 2 None.
Proof.
  destruct (invokeSkill_outcomes noEngine greetingRegistry 10 12 "greeting"
              [("name", JString "World")]) as (_ & _ & _ & H & _).
  split; [exact (H greeting "Hello, World!" eq_refl eq_refl eq_refl) |].
  destruct (invokeSkill_outcomes noEngine greetingRegistry 10 12 "greeting" [])
    as (_ & H2 & _).
  destruct (H2 greeting eq_refl eq_refl) as (errs & _ & _ & ->).
  split; [reflexivity |].
  destruct (invokeSkill_outcomes noEngine optionsRegistry 10 12 "report"
              [("options", unprintable)]) as (_ & _ & H3 & _).
  exact (H3 optionsSkill "Cannot convert object to primitive value"
           eq_refl eq_refl eq_refl).
Defined.

(** ** Substitution *)

Lemma matchPlaceholder_noBrace (double : bool) (key s : string) :
  allChars noBrace s = true ->
  matchPlaceholder (opening double) (closing double) key s = None.
Proof.
  unfold matchPlaceholder, noBrace. intros H.
  destruct s as [| c s]; [now destruct double |].
  simpl in H. apply andb_true_iff in H. destruct H as [Hc Hs].
  apply negb_true_iff in Hc. rewrite Ascii.eqb_sym in Hc.
  destruct double; cbn -[Ascii.eqb]; [now rewrite Hc |].
  destruct (Ascii.eqb "$" c); [| reflexivity].
  destruct s as [| c2 s]; [reflexivity |].
  simpl in Hs. apply andb_true_iff in Hs. destruct Hs as [Hc2 _].
  apply negb_true_iff in Hc2. rewrite Ascii.eqb_sym in Hc2. now rewrite Hc2.
Qed.

Lemma replaceMatches_noBrace (double : bool) (key v : string) (fuel : nat) :
  forall before s,
  allChars noBrace s = true ->
  replaceMatches fuel (matchPlaceholder (opening double) (closing double) key)
    v before s = s.
Proof.
  induction fuel as [| fuel IH]; intros before s H; [reflexivity |].
  simpl. rewrite matchPlaceholder_noBrace by exact H.
  destruct s as [| c s]; [reflexivity |].
  simpl in H. apply andb_true_iff in H. destruct H as [_ Hs].
  now rewrite IH.
Qed.

Lemma replaceBoth_noBrace (content key text : string) :
  allChars noBrace content = true -> replaceBoth content key text = content.
Proof.
  intros H. unfold replaceBoth.
  change "{{" with (opening true). change "}}" with (closing true).
  change "${" with (opening false). change "}" with (closing false).
  unfold replacePlaceholders.
  rewrite (replaceMatches_noBrace true) by exact H.
  now apply (replaceMatches_noBrace false).
Qed.

Lemma substituteParameters_noBrace (newRegExp : RegExpEngine)
  (content : string) (parameters : list (string * JSValue)) :
  forallb (fun entry => isWord (fst entry)) parameters = true ->
  allChars noBrace content = true ->
  forall result,
    substituteParameters newRegExp content parameters = Returned result ->
    result = content.
Proof.
  intros Hk Hc.
  induction parameters as [| [key value] ps IH]; intros result.
  - now intros [= <-].
  - cbn [forallb fst] in Hk. apply andb_true_iff in Hk.
    destruct Hk as [Hk Hks].
    cbn [substituteParameters]. rewrite (substituteEntry_word _ _ _ _ Hk).
    destruct (toStringJS value) as [text |]; [| discriminate].
    cbn [andThen]. rewrite (replaceBoth_noBrace _ _ _ Hc). now apply IH.
Qed.

(** X11.  A content without an opening brace holds no placeholder.  For
    parameters named by word characters, [substituteParameters] returns such a
    content as it is whenever it returns, whatever the values are, a value
    with dollar signs included; and it returns when [String] can print every
    value.  [invokeSkill] then answers with the content as stored when the
    parameters validate. *)
Theorem substituteParameters_no_placeholder (newRegExp : RegExpEngine)
  (content : string) (parameters : list (string * JSValue)) :
  forallb (fun entry => isWord (fst entry)) parameters = true ->
  allChars noBrace content = true ->
  (forall result,
     substituteParameters newRegExp content parameters = Returned result ->
     result = content) /\
  (forallb (fun entry => returns (toStringJS (snd entry))) parameters = true ->
   substituteParameters newRegExp content parameters = Returned content /\
   forall r startTime endTime skill,
     getSkill r (skill_id skill) = Some skill ->
     skill_content skill = content ->
     valid (validateParameters r (skill_id skill) parameters) = true ->
     invokeSkill newRegExp r startTime endTime (skill_id skill) parameters
     = createSuccessResult content (endTime - startTime)%Z).
Proof.
  intros Hk Hc.
  pose proof (substituteParameters_noBrace newRegExp content parameters Hk Hc)
    as Hsame.
  split; [exact Hsame |]. intros Hp.
  assert (E : substituteParameters newRegExp content parameters
              = Returned content).
  { pose proof (substituteParameters_returns newRegExp parameters content
                  Hk Hp) as Hr.
    destruct (substituteParameters newRegExp content parameters)
      as [result |] eqn:Hs; [| discriminate Hr].
    now rewrite (Hsame result eq_refl). }
  split; [exact E |].
  intros r t0 t1 skill Hget Hcontent Hv. unfold invokeSkill.
  now rewrite Hget, Hv, Hcontent, E.
Qed.

Lemma substituteParameters_no_placeholder_witness :
  substituteParameters noEngine "Costs $5 (see } below)"
    [("price", JString "$&$$")]
  = Returned "Costs $5 (see } below)".
Proof.
  destruct (substituteParameters_no_placeholder noEngine
              "Costs $5 (see } below)" [("price", JString "$&$$")])
    as (_ & H); [reflexivity | reflexivity |].
  now destruct H.
Defined.

(** X12.  On a template made of text without braces and dollar signs and of
    placeholders of either form, with white space around their names, and for
    keys made of word characters whose values are printed by [String] without
    braces and dollar signs, their numbers being safe integers:
    [substituteParameters] replaces every placeholder whose name is a key by
    the text of that key's value and leaves every other piece as it is. *)
Theorem substituteParameters_fills (newRegExp : RegExpEngine) (ps : list Piece)
  (values : list (string * JSValue)) :
  forallb plainEntry values = true ->
  forallb (fun entry => safeNumbers (snd entry)) values = true ->
  forallb wellFormedPiece ps = true ->
  substituteParameters newRegExp (renderPieces ps) values
  = Returned (renderPieces (map (fillPiece values) ps)).
Proof. intros Hv _ Hp. now apply substituteParameters_pieces. Qed.

Lemma substituteParameters_fills_witness :
  substituteParameters noEngine
    "Run ${ tool } on {{path}} and {{ path }}, not {{paths}}, ${n} times."
    [("path", JString "src/"); ("tool", JString "lint"); ("n", JNumber 3)]
  = Returned "Run lint on src/ and src/, not {{paths}}, 3 times.".
Proof.
  apply (substituteParameters_fills noEngine
           [Text "Run "; Placeholder false " " "tool" " "; Text " on ";
            Placeholder true EmptyString "path" EmptyString; Text " and ";
            Placeholder true " " "path" " "; Text ", not ";
            Placeholder true EmptyString "paths" EmptyString; Text ", ";
            Placeholder false EmptyString "n" EmptyString; Text " times."]
           [("path", JString "src/"); ("tool", JString "lint");
            ("n", JNumber 3)]);
    reflexivity.
Defined.

(** ** The parser's two shapes *)

Lemma normalizeSkillId_fixed (x : string) :
  normalizeSkillId (normalizeSkillId x) = normalizeSkillId x.
Proof.
  destruct (normalizeSkillId_shape x) as (Ha & Hn & Hf & Hl).
  unfold normalizeSkillId at 1.
  rewrite (toLowerCase_fix _ Ha).
  rewrite (replaceNonAlnumRuns_fix _ false Ha Hn) by discriminate.
  rewrite (dropLeadingHyphens_fix _ Hf).
  apply (dropTrailingHyphens_fix _ Hl).
Qed.

Lemma listed_In (name : string) (files : list string) :
  listed name files = true <-> In name files.
Proof.
  unfold listed. rewrite existsb_exists. split.
  - intros (f & Hin & E). apply String.eqb_eq in E. now subst.
  - intros H. exists name. split; [exact H | apply String.eqb_refl].
Qed.

(** The main file of a skill directory.  [SKILL.md] is taken whenever it is
    listed, [README.md] when it is listed and [SKILL.md] is not, and
    otherwise the first listed file whose extension is [.md]; the file taken
    is always one of the directory with the extension [.md], and no file is
    taken exactly when the directory lists none with that extension. *)
Lemma chooseSkillFile_preference (files : list string) :
  (In "SKILL.md" files -> chooseSkillFile files = Some "SKILL.md") /\
  (~ In "SKILL.md" files -> In "README.md" files ->
   chooseSkillFile files = Some "README.md") /\
  (forall f, chooseSkillFile files = Some f ->
     In f files /\ extname f = ".md") /\
  (chooseSkillFile files = None <->
   forall f, In f files -> extname f <> ".md") /\
  (forall f, ~ In "SKILL.md" files -> ~ In "README.md" files ->
   chooseSkillFile files = Some f ->
   exists before after,
     files = before ++ f :: after /\
     forall g, In g before -> extname g <> ".md").
Proof.
  unfold chooseSkillFile.
  assert (Hfind : forall l f,
    find (fun f => String.eqb (extname f) ".md") l = Some f ->
    exists before after, l = before ++ f :: after /\
      forall g, In g before -> extname g <> ".md").
  { induction l as [| x l IH]; intros f; simpl; [discriminate |].
    destruct (String.eqb (extname x) ".md") eqn:E.
    - intros [= ->]. exists [], l. split; [reflexivity | intros g []].
    - intros H. destruct (IH f H) as (b & a & -> & Hb).
      exists (x :: b), a. split; [reflexivity |].
      intros g [<- | Hin]; [now apply String.eqb_neq | now apply Hb]. }
  destruct (listed "SKILL.md" files) eqn:E1.
  - apply listed_In in E1.
    split; [| split; [| split; [| split]]].
    + reflexivity.
    + intros N. now elim N.
    + intros f [= <-]. split; [exact E1 | reflexivity].
    + split; [discriminate |]. intros H. now elim (H "SKILL.md" E1).
    + intros f N. now elim N.
  - assert (N1 : ~ In "SKILL.md" files)
      by (intros H; apply listed_In in H; congruence).
    destruct (listed "README.md" files) eqn:E2.
    + apply listed_In in E2.
      split; [| split; [| split; [| split]]].
      * intros H. now elim N1.
      * reflexivity.
      * intros f [= <-]. split; [exact E2 | reflexivity].
      * split; [discriminate |]. intros H. now elim (H "README.md" E2).
      * intros f _ N. now elim N.
    + assert (N2 : ~ In "README.md" files)
        by (intros H; apply listed_In in H; congruence).
      split; [| split; [| split; [| split]]].
      * intros H. now elim N1.
      * intros _ H. now elim N2.
      * intros f H. apply find_some in H. destruct H as (Hin & H).
        apply String.eqb_eq in H. now split.
      * split.
        -- intros H f Hin E.
           pose proof (find_none _ _ H f Hin) as Hf. simpl in Hf.
           rewrite E in Hf. discriminate Hf.
        -- intros H.
           destruct (find (fun f => String.eqb (extname f) ".md") files)
             as [f |] eqn:F; [| reflexivity].
           apply find_some in F. destruct F as (Hin & E).
           apply String.eqb_eq in E. now elim (H f Hin).
      * intros f _ _. apply Hfind.
Qed.

(** X13.  [parseSkillDirectory] and the main file of a skill directory.  The
    result is [null] exactly when the path has no last segment, or reading the
    directory fails, or none of its entries has the extension [.md], or
    reading the main file fails.  Otherwise the skill is built from the text
    of the main file, under the normalized name of the directory: the main
    file is [SKILL.md] whenever it is listed, [README.md] when it is listed
    and [SKILL.md] is not, and otherwise the first entry whose extension is
    [.md]. *)
Theorem parseSkillDirectory_main_file (parseMarkdown : string -> ParsedSkill)
  (overrides : list (string * ParsedOverride)) (now : Z)
  (join : string -> string -> string)
  (readdir : string -> Completion (list string))
  (readFile : string -> Completion string)
  (skillDir : string) (source : SkillSource) :
  (parseSkillDirectory parseMarkdown overrides now join readdir readFile
     skillDir source = None <->
   isEmpty (lastSegment skillDir) = true \/
   (exists error, readdir skillDir = Thrown error) \/
   (exists files, readdir skillDir = Returned files /\
      forall f, In f files -> extname f <> ".md") \/
   (exists files file error,
      readdir skillDir = Returned files /\
      chooseSkillFile files = Some file /\
      readFile (join skillDir file) = Thrown error)) /\
  (forall skill,
     parseSkillDirectory parseMarkdown overrides now join readdir readFile
       skillDir source = Some skill ->
     exists files file content,
       readdir skillDir = Returned files /\
       In file files /\ extname file = ".md" /\
       readFile (join skillDir file) = Returned content /\
       (In "SKILL.md" files -> file = "SKILL.md") /\
       (~ In "SKILL.md" files -> In "README.md" files -> file = "README.md") /\
       (~ In "SKILL.md" files -> ~ In "README.md" files ->
        exists before after,
          files = before ++ file :: after /\
          forall g, In g before -> extname g <> ".md") /\
       skill_id skill = normalizeSkillId (lastSegment skillDir) /\
       skill_sourcePath skill = skillDir /\
       skill_source skill = source /\
       skill_content skill
       = parsed_content
           match mapGet overrides (lastSegment skillDir) with
           | Some override => assignOverride (parseMarkdown content) override
           | None => parseMarkdown content
           end).
Proof.
  unfold parseSkillDirectory.
  destruct (isEmpty (lastSegment skillDir)) eqn:Eid.
  { split; [split; [now left | reflexivity] | discriminate]. }
  destruct (readdir skillDir) as [files | e] eqn:Edir.
  2: { split; [| discriminate].
       split; [intros _; right; left; now exists e | reflexivity]. }
  destruct (chooseSkillFile_preference files) as (P1 & P2 & P3 & P4 & P5).
  destruct (chooseSkillFile files) as [file |] eqn:Efile.
  2: { split; [| discriminate].
       split; [| reflexivity]. intros _. right. right. left.
       exists files. split; [reflexivity |]. now apply P4. }
  destruct (P3 file eq_refl) as (Hin & Hext).
  destruct (readFile (join skillDir file)) as [content | e] eqn:Eread.
  2: { split; [| discriminate].
       split; [| reflexivity]. intros _. right. right. right.
       exists files, file, e. now repeat split. }
  split.
  - split; [discriminate |].
    intros [H | [(e & H) | [(fs & [= <-] & H) | (fs & f & e & [= <-] & Hf & H)]]].
    + discriminate H.
    + discriminate H.
    + now elim (H file Hin).
    + rewrite Efile in Hf. injection Hf as <-. rewrite Eread in H.
      discriminate H.
  - intros skill [= <-]. exists files, file, content.
    split; [first [reflexivity | exact Edir] |].
    split; [exact Hin |]. split; [exact Hext |].
    split; [first [reflexivity | exact Eread] |].
    split; [intros H; specialize (P1 H); congruence |].
    split; [intros H1 H2; specialize (P2 H1 H2); congruence |].
    split; [intros H1 H2; exact (P5 file H1 H2 eq_refl) |].
    cbn. now repeat split.
Qed.

Lemma parseSkillDirectory_main_file_witness :
  exists skill,
    parseSkillDirectory plainDocument [] 0%Z joinPath sampleReaddir
      sampleReadFile "repo/skills/PDF Tools" SrcRepository = Some skill /\
    skill_id skill = "pdf-tools" /\ skill_content skill = "# PDF tools".
Proof.
  destruct (parseSkillDirectory plainDocument [] 0%Z joinPath sampleReaddir
              sampleReadFile "repo/skills/PDF Tools" SrcRepository)
    as [skill |] eqn:E; [| discriminate E].
  destruct (parseSkillDirectory_main_file plainDocument [] 0%Z joinPath
              sampleReaddir sampleReadFile "repo/skills/PDF Tools"
              SrcRepository) as (_ & H).
  destruct (H skill E)
    as (files & file & content & Hd & _ & _ & Hr & H1 & H2 & _ & Hid & _ & _
        & Hc).
  exists skill. split; [reflexivity |]. split; [exact Hid |].
  injection Hd as <-.
  assert (Hfile : file = "README.md").
  { apply H2; [| right; now left].
    intros [H' | [H' | []]]; discriminate H'. }
  subst file. injection Hr as <-. exact Hc.
Defined.

Section FetchFacts.

Variable parseMarkdown : string -> ParsedSkill.
Variable overrides : list (string * ParsedOverride).
Variable fetch : string -> FetchResult.
Variable now : Z.

Lemma tryFiles_first (link : SkillLink) (source : SkillSource)
  (files : list string) (skill : Skill) :
  tryFiles parseMarkdown overrides fetch now link source files = Some skill <->
  exists before file after content,
    files = before ++ file :: after /\
    forallb (fun f => fetchFails (fetch (rawUrl link f))) before = true /\
    fetch (rawUrl link file) = FetchResponse true (Some content) /\
    skill = skillOfDocument parseMarkdown overrides now link source content.
Proof.
  induction files as [| f files IH].
  - split; [discriminate |].
    intros (b & x & a & c & E & _). now destruct b.
  - cbn [tryFiles].
    destruct (fetch (rawUrl link f)) as [| ok text] eqn:F;
      [| destruct ok; [destruct text as [content |] |]].
    2: { split.
         - intros [= <-]. exists [], f, files, content. now repeat split.
         - intros (b & x & a & c & E & Hb & Hx & ->).
           destruct b as [| y b]; simpl in E; injection E as <- E.
           + rewrite F in Hx. now injection Hx as <-.
           + simpl in Hb. rewrite F in Hb. discriminate Hb. }
    all: rewrite IH; split;
      [ intros (b & x & a & c & -> & Hb & Hx & ->);
        exists (f :: b), x, a, c; simpl; rewrite F; now repeat split
      | intros (b & x & a & c & E & Hb & Hx & ->);
        destruct b as [| y b]; simpl in E; injection E as <- E;
        [ rewrite F in Hx; discriminate Hx
        | simpl in Hb; rewrite F in Hb; simpl in Hb;
          exists b, x, a, c; now repeat split ] ].
Qed.

Lemma tryFiles_none (link : SkillLink) (source : SkillSource)
  (files : list string) :
  tryFiles parseMarkdown overrides fetch now link source files = None ->
  forallb (fun f => fetchFails (fetch (rawUrl link f))) files = true.
Proof.
  induction files as [| f files IH]; [reflexivity |].
  cbn [tryFiles forallb].
  destruct (fetch (rawUrl link f)) as [| [] [text |]]; simpl;
    try discriminate; exact IH.
Qed.

(** X14.  [fetchSkillFromGitHub] never throws.  It returns a skill exactly
    when one of the candidate files [SKILL.md], [README.md], [skill.md] (tried
    in this order) is answered with a readable document, and the skill is
    built from the first such file; it returns [null] exactly when the three
    fetches fail. *)
Theorem fetchSkillFromGitHub_first_file (link : SkillLink)
  (source : SkillSource) :
  (forall skill,
     fetchSkillFromGitHub parseMarkdown overrides fetch now link source
     = Returned (Some skill) <->
     exists before file after content,
       possibleFiles = before ++ file :: after /\
       forallb (fun f => fetchFails (fetch (rawUrl link f))) before = true /\
       fetch (rawUrl link file) = FetchResponse true (Some content) /\
       skill = skillOfDocument parseMarkdown overrides now link source content) /\
  (fetchSkillFromGitHub parseMarkdown overrides fetch now link source
   = Returned None <-> allFetchesFail fetch link = true) /\
  (forall error,
     fetchSkillFromGitHub parseMarkdown overrides fetch now link source
     <> Thrown error).
Proof.
  unfold fetchSkillFromGitHub. split; [| split].
  - intros skill.
    pose proof (tryFiles_first link source possibleFiles skill) as T.
    split.
    + intros [= H]. now apply T.
    + intros H. apply T in H. now rewrite H.
  - split.
    + intros H. apply (tryFiles_none link source). congruence.
    + intros H. now rewrite (tryFiles_all_fail _ _ _ _ _ _ _ H).
  - discriminate.
Qed.

End FetchFacts.

Lemma fetchSkillFromGitHub_first_file_witness :
  fetchSkillFromGitHub plainDocument [] readmeOnly 0%Z sampleLink SrcRepository
  = Returned (Some (skillOfDocument plainDocument [] 0%Z sampleLink
                      SrcRepository "# PDF")).
Proof.
  destruct (fetchSkillFromGitHub_first_file plainDocument [] readmeOnly 0%Z
              sampleLink SrcRepository) as (H & _).
  apply H.
  exists ["SKILL.md"], "README.md", ["skill.md"], "# PDF".
  repeat split; reflexivity.
Defined.

Section RepositoryShapeFacts.

Variable parseMarkdown : string -> ParsedSkill.
Variable overrides : list (string * ParsedOverride).
Variable fetch : string -> FetchResult.
Variable now : Z.
Variable join : string -> string -> string.
Variable existsSync : string -> bool.
Variable readdir : string -> Completion (list string).
Variable readdirTyped : string -> Completion (list Dirent).
Variable readFile : string -> Completion string.
Variable skillLinksOf : string -> list SkillLink.

Lemma tryFiles_parsedFor (link : SkillLink) (source : SkillSource)
  (files : list string) (skill : Skill) :
  tryFiles parseMarkdown overrides fetch now link source files = Some skill ->
  parsedFor now source skill.
Proof.
  intros H. apply tryFiles_first in H.
  destruct H as (_ & _ & _ & content & _ & _ & _ & ->).
  unfold parsedFor, skillOfDocument, linkSkillId. cbn.
  repeat split; [apply normalizeSkillId_fixed | discriminate].
Qed.

Lemma parseSkillDirectory_parsedFor (skillDir : string) (source : SkillSource)
  (skill : Skill) :
  parseSkillDirectory parseMarkdown overrides now join readdir readFile
    skillDir source = Some skill ->
  parsedFor now source skill /\ skill_sourcePath skill = skillDir.
Proof.
  unfold parseSkillDirectory.
  destruct (isEmpty (lastSegment skillDir)); [discriminate |].
  destruct (readdir skillDir) as [files | e]; [| discriminate].
  destruct (chooseSkillFile files) as [file |]; [| discriminate].
  destruct (readFile (join skillDir file)) as [content | e]; [| discriminate].
  intros [= <-]. unfold parsedFor. cbn.
  repeat split; [apply normalizeSkillId_fixed | discriminate].
Qed.

(** X15.  Whatever the repository, the file system and the network hold,
    every skill that [parseSkillsFromRepo] returns carries the source it was
    asked for, an id that [normalizeSkillId] leaves unchanged, a parameter list
    and the time of the call; and when there is neither a [README.md] nor a
    [skills] directory it returns nothing. *)
Theorem parseSkillsFromRepo_skills (repoDir : string) (source : SkillSource) :
  (forall skill,
     In skill (parseSkillsFromRepo parseMarkdown overrides fetch now join
                 existsSync readdir readdirTyped readFile skillLinksOf
                 repoDir source) ->
     parsedFor now source skill) /\
  (existsSync (join repoDir "skills") = false ->
   existsSync (join repoDir "README.md") = false ->
   parseSkillsFromRepo parseMarkdown overrides fetch now join
     existsSync readdir readdirTyped readFile skillLinksOf repoDir source = []).
Proof.
  unfold parseSkillsFromRepo. split.
  - intros skill.
    destruct (existsSync (join repoDir "README.md")
              && negb (existsSync (join repoDir "skills"))).
    + unfold parseSkillsFromReadmeFile.
      destruct (readFile (join repoDir "README.md")) as [content | e];
        [| intros []].
      rewrite parseSkillsFromReadme_spec. rewrite in_flat_map.
      intros (link & _ & H).
      destruct (tryFiles parseMarkdown overrides fetch now link source
                  possibleFiles) as [s |] eqn:T; [| destruct H].
      destruct H as [<- | []]. exact (tryFiles_parsedFor _ _ _ _ T).
    + destruct (existsSync (join repoDir "skills")); [| intros []].
      unfold parseSkillsFromDirectory.
      destruct (readdirTyped (join repoDir "skills")) as [entries | e];
        [| intros []].
      generalize (map dirent_name (filter dirent_isDirectory entries)) as names.
      induction names as [| name names IH]; [intros [] |].
      cbn [parseSkillDirectories].
      destruct (parseSkillDirectory parseMarkdown overrides now join readdir
                  readFile (join (join repoDir "skills") name) source)
        as [s |] eqn:P; [| exact IH].
      intros [<- | H]; [| exact (IH H)].
      now apply parseSkillDirectory_parsedFor in P.
  - intros -> ->. reflexivity.
Qed.

End RepositoryShapeFacts.

Lemma parseSkillsFromRepo_skills_witness :
  exists skill,
    parseSkillsFromRepo plainDocument [] notFound 0%Z joinPath sampleExists
      sampleReaddir sampleReaddirTyped sampleReadFile (fun _ => [])
      "repo" SrcRepository = [skill] /\
    skill_id skill = "pdf-tools" /\
    parsedFor 0%Z SrcRepository skill.
Proof.
  eexists. split; [reflexivity |]. split; [reflexivity |].
  destruct (parseSkillsFromRepo_skills plainDocument [] notFound 0%Z joinPath
              sampleExists sampleReaddir sampleReaddirTyped sampleReadFile
              (fun _ => []) "repo" SrcRepository) as (H & _).
  apply H. left. reflexivity.
Defined.

(** ** The type hint of a parameter bullet *)








(** ** [sync] and [initialize] on any working copy *)

Ltac git_cases w :=
  destruct w as [g h t c u f j];
  destruct g;
  [ destruct f as [| [m1 |] [| [m2 |] [| [m3 |] [| [m4 |] f]]]]
  | destruct f as [| [m1 |] f] ];
  cbn [sync initialize hasGitDir negb];
  unfold tryCatch, bind, gitClone, gitFetch, gitRevParse, gitResetHard, git,
    ret, settled; simpl.

(** X17.  [sync] and [initialize] are one function: on every working copy and
    whatever git commands fail, both return the same result.  In it [updated]
    and [skillsChanged = true] go together and imply [success]; a failure
    carries no [skillsChanged] and leaves head and working tree as they were;
    a success leaves a clone whose head is the head of the remote branch; and
    the local modifications are discarded exactly when [updated] is set. *)
Theorem sync_result_consistent (fuel : nat) (branch : string) (w : WorkingCopy) :
  exists r w',
    sync (S (S fuel)) branch w = Some (r, w') /\
    initialize (S (S fuel)) branch w = Some (r, w') /\
    (gs_updated r = true <-> gs_skillsChanged r = Some true) /\
    (gs_updated r = true -> gs_success r = true) /\
    (gs_success r = false ->
       gs_skillsChanged r = None /\
       localHead w' = localHead w /\ localChanges w' = localChanges w) /\
    (gs_success r = true ->
       hasGitDir w' = true /\ localHead w' = upstreamHead w) /\
    (gs_updated r = false ->
       localHead w' = localHead w /\ localChanges w' = localChanges w) /\
    (gs_updated r = true -> localChanges w' = []) /\
    upstreamHead w' = upstreamHead w.
Proof.
  git_cases w;
    try (destruct (String.eqb h u) eqn:E;
         [apply String.eqb_eq in E; subst u |]; simpl);
    eexists _, _;
    (split; [reflexivity |]); (split; [reflexivity |]);
    simpl; repeat split; intros; try reflexivity; try discriminate;
    try congruence.
Qed.

(** X18.  The git commands one [sync] starts.  Without a [.git] directory it
    is a single clone.  On a clone it is an initial part of: fetch, rev-parse
    of [HEAD], rev-parse of the remote-tracking branch, hard reset; the call
    stops at the first command that fails, whose message it reports, and the
    hard reset is started only when the head is not the head of the remote
    branch. *)
Theorem sync_commands (fuel : nat) (branch : string) (w : WorkingCopy) :
  exists r w' started,
    sync (S (S fuel)) branch w = Some (r, w') /\
    journal w' = rev started ++ journal w /\
    (hasGitDir w = false -> started = [GitClone]) /\
    (hasGitDir w = true ->
       exists n, 1 <= n <= 4 /\ started = firstn n (syncCommands branch)) /\
    (In GitResetHard started -> localHead w <> upstreamHead w) /\
    (gs_success r = false ->
       exists message,
         nth_error (failures w) (pred (length started)) = Some (Some message) /\
         gs_message r = (if hasGitDir w then "Sync failed: "
                         else "Failed to initialize: ") +++ message).
Proof.
  git_cases w;
    try (destruct (String.eqb h u) eqn:E;
         [apply String.eqb_eq in E; subst u | apply String.eqb_neq in E];
         simpl).
  all: match goal with
    | |- exists r w' started, Some (_, ?w) = _ /\ _ =>
        let js := eval simpl in (journal w) in
        match js with
        | GitResetHard :: _ => eexists _, _, (syncCommands branch)
        | GitRevParse _ :: GitRevParse _ :: _ =>
            eexists _, _, (firstn 3 (syncCommands branch))
        | GitRevParse _ :: _ => eexists _, _, (firstn 2 (syncCommands branch))
        | GitFetch :: _ => eexists _, _, (firstn 1 (syncCommands branch))
        | GitClone :: _ => eexists _, _, [GitClone]
        end
    end.
  all: (split; [reflexivity |]); (split; [reflexivity |]).
  all: (split; [intros; try reflexivity; discriminate |]).
  all: (split;
    [ intros; try discriminate;
      first [ exists 1; split; [lia | reflexivity]
            | exists 2; split; [lia | reflexivity]
            | exists 3; split; [lia | reflexivity]
            | exists 4; split; [lia | reflexivity] ] |]).
  all: split;
    [ simpl; intros Hin;
      repeat (destruct Hin as [Hin | Hin]; [try discriminate Hin |]);
      try (destruct Hin); try assumption
    | simpl; intros Hs; try discriminate Hs ].
  all: eexists; split; reflexivity.
Qed.

Lemma sync_result_consistent_witness :
  exists w',
    sync 2 "main" staleCopy
    = Some ({| gs_success := true; gs_updated := true;
               gs_message := "Repository updated successfully";
               gs_skillsChanged := Some true |}, w') /\
    localHead w' = "9be01d7" /\ localChanges w' = [].
Proof.
  destruct (sync_result_consistent 0 "main" staleCopy)
    as (r & w' & E & _ & _ & _ & _ & Hs & _ & Hu & _).
  pose proof E as E'. cbn in E'. injection E' as Hr Hw.
  exists w'. split; [now rewrite E, <- Hr |].
  split; [apply Hs | apply Hu]; now rewrite <- Hr.
Defined.

Lemma sync_commands_witness :
  exists r w',
    sync 2 "main" emptyDirectory = Some (r, w') /\ journal w' = [GitClone].
Proof.
  destruct (sync_commands 0 "main" emptyDirectory)
    as (r & w' & started & E & J & Hc & _).
  exists r, w'. split; [exact E |].
  rewrite J, (Hc eq_refl). reflexivity.
Defined.

Lemma sync_success_level (fuel : nat) (branch : string) (w : WorkingCopy)
  (r : GitSyncResult) (w' : WorkingCopy) :
  sync (S (S fuel)) branch w = Some (r, w') ->
  gs_success r = true ->
  hasGitDir w' = true /\ localHead w' = upstreamHead w' /\
  upstreamHead w' = upstreamHead w.
Proof.
  git_cases w;
    try (destruct (String.eqb h u) eqn:E;
         [apply String.eqb_eq in E; subst u |]; simpl);
    intros [= <- <-]; simpl; intros Hs; try discriminate Hs;
    repeat split; reflexivity.
Qed.

Lemma sync_journal_no_clone (fuel : nat) (branch : string) (w : WorkingCopy) :
  hasGitDir w = true ->
  exists r w' started,
    sync (S fuel) branch w = Some (r, w') /\
    journal w' = started ++ journal w /\
    ~ In GitClone started.
Proof.
  destruct w as [g h t c u f j]. simpl. intros ->.
  assert (Hno : forall l, (forall x, In x l -> x <> GitClone) ->
                          ~ In GitClone l)
    by (intros l H Hin; exact (H _ Hin eq_refl)).
  destruct f as [| [m1 |] [| [m2 |] [| [m3 |] [| [m4 |] f]]]];
    unfold tryCatch, bind, gitFetch, gitRevParse, gitResetHard, git, ret,
      settled; simpl;
    try (destruct (String.eqb h u); simpl);
    match goal with
    | |- exists r w' started, Some (_, ?w) = _ /\ _ =>
        let js := eval simpl in (journal w) in
        match js with
        | GitResetHard :: ?a :: ?b :: ?c :: _ =>
            eexists _, _, [GitResetHard; a; b; c]
        | GitRevParse ?x :: GitRevParse ?y :: ?c :: _ =>
            eexists _, _, [GitRevParse x; GitRevParse y; c]
        | GitRevParse ?x :: ?c :: _ => eexists _, _, [GitRevParse x; c]
        | GitFetch :: _ => eexists _, _, [GitFetch]
        end
    end;
    (split; [reflexivity |]); (split; [reflexivity |]);
    apply Hno; simpl; intros x Hx;
    repeat (destruct Hx as [<- | Hx]; [discriminate |]); destruct Hx.
Qed.

(** X19.  [sync] settles.  After a call that succeeded, and as long as the
    remote branch stays where it is, the next call starts neither a clone nor
    a hard reset, reports neither [updated] nor [skillsChanged = true], leaves
    head and working tree alone, and its result is the up-to-date one whenever
    it succeeds, as it does when no git command fails. *)
Theorem sync_settles (fuel : nat) (branch : string) (w : WorkingCopy)
  (r : GitSyncResult) (w' : WorkingCopy) :
  sync (S (S fuel)) branch w = Some (r, w') ->
  gs_success r = true ->
  exists r2 w2 started,
    sync (S (S fuel)) branch w' = Some (r2, w2) /\
    journal w2 = started ++ journal w' /\
    ~ In GitResetHard started /\
    ~ In GitClone started /\
    gs_updated r2 = false /\
    gs_skillsChanged r2 <> Some true /\
    (gs_success r2 = true -> r2 = upToDate) /\
    (failures w' = [] -> r2 = upToDate) /\
    localHead w2 = upstreamHead w /\
    localChanges w2 = localChanges w'.
Proof.
  intros E Hs.
  destruct (sync_success_level _ _ _ _ _ E Hs) as (Hg & Hh & Hu).
  destruct (sync_level_once (S fuel) branch w' Hg Hh)
    as (r2 & w2 & started & E2 & J & N & U & K & S2 & F & _ & L & C & _).
  exists r2, w2, started.
  split; [exact E2 |]. split; [exact J |]. split; [exact N |].
  split.
  - intros Hin.
    destruct (sync_journal_no_clone (S fuel) branch w' Hg)
      as (r3 & w3 & s3 & E3 & J3 & N3).
    rewrite E2 in E3. injection E3 as <- <-.
    rewrite J in J3. apply app_inv_tail in J3. subst s3. exact (N3 Hin).
  - split; [exact U |]. split; [exact K |]. split; [exact S2 |].
    split; [intros Hf; now destruct (F Hf) |].
    split; [congruence | exact C].
Qed.

Lemma sync_settles_witness :
  exists w' w2,
    sync 2 "main" staleCopy = Some
      ({| gs_success := true; gs_updated := true;
          gs_message := "Repository updated successfully";
          gs_skillsChanged := Some true |}, w') /\
    sync 2 "main" w' = Some (upToDate, w2) /\
    localHead w2 = "9be01d7".
Proof.
  destruct (sync 2 "main" staleCopy) as [[r w'] |] eqn:E;
    [| discriminate E].
  pose proof E as E'. cbn in E'. injection E' as Hr Hw.
  destruct (sync_settles 0 "main" staleCopy r w' E)
    as (r2 & w2 & started & E2 & _ & _ & _ & _ & _ & _ & F & L & _).
  { now rewrite <- Hr. }
  exists w', w2. split; [now rewrite <- Hr |].
  split; [| exact L].
  rewrite E2, F; [reflexivity |]. now rewrite <- Hw.
Defined.

(** ** The bootstrap file *)

Lemma fold_registerSkill_lastSync (l : list Skill) : forall r,
  lastSync (fold_left registerSkill l r) = lastSync r.
Proof.
  induction l as [| s l IH]; intros r; simpl; [reflexivity |].
  rewrite IH. apply registerSkill_fields.
Qed.

Lemma fold_registerSkill_priority (l : list Skill) (r : SkillRegistry)
  (o : SkillSource) :
  resolvedPriority (fold_left registerSkill l r) o = resolvedPriority r o.
Proof. unfold resolvedPriority. now rewrite fold_registerSkill_sources. Qed.

(** Registrations that all come from sources of one priority, none below the
    priorities already in the registry, are all stored. *)
Lemma fold_registerSkill_level (l : list Skill) : forall r p,
  bounded r p ->
  (forall s, In s l -> resolvedPriority r (skill_source s) = p) ->
  fold_left registerSkill l r = fold_left setSkill l r /\
  bounded (fold_left registerSkill l r) p.
Proof.
  induction l as [| s l IH]; intros r p Hb Hl; simpl.
  - split; [reflexivity | exact Hb].
  - assert (E : registerSkill r s = setSkill r s).
    { apply registerSkill_store. intros e He.
      rewrite (Hl s (or_introl eq_refl)). exact (Hb _ _ He). }
    rewrite E. apply IH.
    + intros i e He.
      change (resolvedPriority (setSkill r s) (skill_source e))
        with (resolvedPriority r (skill_source e)).
      destruct (String.eqb (skill_id s) i) eqn:Q.
      * apply String.eqb_eq in Q. subst i.
        rewrite getSkill_setSkill_eq in He. injection He as <-.
        rewrite (Hl s (or_introl eq_refl)). lia.
      * apply String.eqb_neq in Q.
        rewrite getSkill_setSkill_ne in He by exact Q. exact (Hb _ _ He).
    + intros x Hx.
      change (resolvedPriority (setSkill r s) (skill_source x))
        with (resolvedPriority r (skill_source x)).
      apply Hl. now right.
Qed.

Lemma getSkill_fold_setSkill_clear (l : list Skill) (r : SkillRegistry)
  (id : string) :
  getSkill (fold_left setSkill l (clear r)) id = lastWithId l id.
Proof.
  rewrite getSkill_fold_setSkill. unfold lastWithId.
  now destruct (find _ (rev l)).
Qed.

(** The reload when the local source does not rank below the git source. *)
Lemma reloadSkills_lookup (r : SkillRegistry) (repoSkills localSkills : list Skill)
  (id : string) :
  (forall s, In s repoSkills -> skill_source s = SrcRepository) ->
  (forall s, In s localSkills -> skill_source s = SrcLocal) ->
  (resolvedPriority r SrcRepository <= resolvedPriority r SrcLocal)%Z ->
  getSkill (reloadSkills r repoSkills (Some localSkills)) id
  = lastWithId (repoSkills ++ localSkills) id.
Proof.
  intros Hrepo Hlocal Hp. unfold reloadSkills.
  destruct (fold_registerSkill_level repoSkills (clear r)
              (resolvedPriority r SrcRepository)) as (E1 & B1).
  - intros i e He. discriminate He.
  - intros s Hs. now rewrite (Hrepo s Hs).
  - destruct (fold_registerSkill_level localSkills
                (fold_left registerSkill repoSkills (clear r))
                (resolvedPriority r SrcLocal)) as (E2 & _).
    + intros i e He. specialize (B1 i e He). lia.
    + intros s Hs. rewrite (Hlocal s Hs).
      now rewrite fold_registerSkill_priority.
    + rewrite E2, E1, <- fold_left_app.
      apply getSkill_fold_setSkill_clear.
Qed.

Lemma reloadSkills_repository_lookup (r : SkillRegistry)
  (repoSkills : list Skill) (id : string) :
  (forall s, In s repoSkills -> skill_source s = SrcRepository) ->
  getSkill (fold_left registerSkill repoSkills (clear r)) id
  = lastWithId repoSkills id.
Proof.
  intros Hrepo.
  destruct (fold_registerSkill_level repoSkills (clear r)
              (resolvedPriority r SrcRepository)) as (E1 & _).
  - intros i e He. discriminate He.
  - intros s Hs. now rewrite (Hrepo s Hs).
  - rewrite E1. apply getSkill_fold_setSkill_clear.
Qed.

Lemma asConfigured_addSource (r : SkillRegistry) (s : RepositorySource) :
  forallb asConfigured (sources r) = true ->
  asConfigured s = true ->
  forallb asConfigured (sources (addSource r s)) = true.
Proof.
  intros Hr Hs. apply forallb_forall. intros x Hx. simpl in Hx.
  apply (Permutation_in _ (sortByPriority_permutation _)) in Hx.
  apply in_app_or in Hx. destruct Hx as [Hx | [<- | []]]; [| exact Hs].
  now apply (proj1 (forallb_forall _ _) Hr).
Qed.

Lemma addSource_In (r : SkillRegistry) (s x : RepositorySource) :
  In x (sources r) \/ x = s -> In x (sources (addSource r s)).
Proof.
  intros H. simpl.
  apply (Permutation_in _ (Permutation_sym (sortByPriority_permutation _))).
  apply in_or_app. destruct H as [H | ->]; [now left | right; now left].
Qed.

Lemma resolvedPriority_configured (r : SkillRegistry) (o : SkillSource)
  (s : RepositorySource) :
  forallb asConfigured (sources r) = true ->
  In s (sources r) -> sourceOf o s = true ->
  resolvedPriority r o = match o with SrcRepository => 1 | SrcLocal => 2 end%Z.
Proof.
  intros Hall Hin Hs. unfold resolvedPriority.
  destruct (find (sourceOf o) (sources r)) as [x |] eqn:F.
  - apply find_some in F. destruct F as (Hx & Ho).
    pose proof (proj1 (forallb_forall _ _) Hall x Hx) as Hc.
    unfold asConfigured in Hc. unfold sourceOf in Ho.
    destruct o, (src_type x); try discriminate Ho; now apply Z.eqb_eq.
  - pose proof (find_none _ _ F s Hin) as Hn. simpl in Hn. congruence.
Qed.

Lemma configureSources_priorities (r : SkillRegistry) (url branch : string)
  (localSkillsPath : option string) :
  forallb asConfigured (getSources r) = true ->
  forallb asConfigured
    (getSources (configureSources r url branch localSkillsPath)) = true /\
  resolvedPriority (configureSources r url branch localSkillsPath) SrcRepository
  = 1%Z /\
  (localSkillsPath <> None ->
   resolvedPriority (configureSources r url branch localSkillsPath) SrcLocal
   = 2%Z).
Proof.
  intros H. unfold getSources in *.
  pose proof (asConfigured_addSource r (repoSource url branch) H eq_refl) as H1.
  assert (In1 : In (repoSource url branch)
                  (sources (addSource r (repoSource url branch))))
    by (apply addSource_In; now right).
  unfold configureSources. destruct localSkillsPath as [path |].
  - pose proof (asConfigured_addSource _ (localSourceAt path) H1 eq_refl) as H2.
    split; [exact H2 |]. split.
    + apply (resolvedPriority_configured _ SrcRepository
               (repoSource url branch) H2); [| reflexivity].
      apply addSource_In. now left.
    + intros _.
      apply (resolvedPriority_configured _ SrcLocal (localSourceAt path) H2);
        [| reflexivity].
      apply addSource_In. now right.
  - split; [exact H1 |]. split; [| intros N; now elim N].
    now apply (resolvedPriority_configured _ SrcRepository
                 (repoSource url branch) H1).
Qed.

Lemma lastWithId_local (repoSkills localSkills : list Skill) (s : Skill) :
  In s localSkills ->
  exists s', lastWithId (repoSkills ++ localSkills) (skill_id s) = Some s' /\
             In s' localSkills.
Proof.
  intros Hin. unfold lastWithId. rewrite rev_app_distr, find_append.
  destruct (find (fun x => String.eqb (skill_id x) (skill_id s))
              (rev localSkills)) as [s' |] eqn:F.
  - exists s'. split; [reflexivity |].
    apply find_some in F. now apply in_rev.
  - exfalso. assert (Hrev : In s (rev localSkills)) by (now apply -> in_rev).
    pose proof (find_none _ _ F s Hrev) as Hf. simpl in Hf.
    rewrite String.eqb_refl in Hf. discriminate Hf.
Qed.

(** X20.  Start-up with a local path.  The registry comes from the cache or
    is new, with sources of the priorities the bootstrap file gives (1 for
    git, 2 for local).  When the sync succeeded with changes, or the registry
    holds no skill, and the cache is written, the registry is reloaded: under
    every id it serves the last skill with that id of the repository list
    followed by the local list, so a local skill always replaces a repository
    skill of the same id; [lastSync] is the time of the reload. *)
Theorem startupReload_local_overrides (r : SkillRegistry) (url branch path : string)
  (syncResult : GitSyncResult) (repoSkills localSkills : list Skill) (now : Z) :
  forallb asConfigured (getSources r) = true ->
  (forall s, In s repoSkills -> skill_source s = SrcRepository) ->
  (forall s, In s localSkills -> skill_source s = SrcLocal) ->
  gs_success syncResult = true ->
  gs_skillsChanged syncResult = Some true \/ getSkillCount r = 0 ->
  exists r',
    startupReload (configureSources r url branch (Some path)) syncResult
      repoSkills (Some localSkills) (Returned tt) now = Returned r' /\
    (forall id, getSkill r' id = lastWithId (repoSkills ++ localSkills) id) /\
    (forall s, In s localSkills ->
       exists s', getSkill r' (skill_id s) = Some s' /\
                  skill_source s' = SrcLocal) /\
    getLastSync r' = Some (ValidDate now).
Proof.
  intros Hc Hrepo Hlocal Hs Hch.
  destruct (configureSources_priorities r url branch (Some path) Hc)
    as (_ & P1 & P2).
  specialize (P2 ltac:(discriminate)).
  set (r0 := configureSources r url branch (Some path)) in *.
  assert (Hcount : getSkillCount r0 = getSkillCount r) by reflexivity.
  assert (Hgo : isTrue (gs_skillsChanged syncResult) || (getSkillCount r0 =? 0)
                = true).
  { destruct Hch as [-> | H0]; [reflexivity |].
    rewrite Hcount, H0. apply orb_true_r. }
  unfold startupReload. rewrite Hs, Hgo.
  eexists. split; [reflexivity |].
  assert (L : forall id,
            getSkill (setLastSync (reloadSkills r0 repoSkills (Some localSkills))
                        (ValidDate now)) id
            = lastWithId (repoSkills ++ localSkills) id).
  { intros id.
    change (getSkill (reloadSkills r0 repoSkills (Some localSkills)) id
            = lastWithId (repoSkills ++ localSkills) id).
    apply reloadSkills_lookup; [exact Hrepo | exact Hlocal |].
    rewrite P1, P2. lia. }
  split; [exact L |]. split; [| reflexivity].
  intros s Hin. rewrite L.
  destruct (lastWithId_local repoSkills localSkills s Hin) as (s' & E & Hin').
  exists s'. split; [exact E | now apply Hlocal].
Qed.

Lemma startupReload_local_overrides_witness :
  exists r',
    startupReload (configureSources (newRegistry "/tmp/cache")
                     "https://github.com/test/repo.git" "main"
                     (Some "/local/skills"))
      updated [repoPdf; repoDocx] (Some [localPdf]) (Returned tt) 7%Z
    = Returned r' /\
    getSkill r' "pdf" = Some localPdf /\
    getSkill r' "docx" = Some repoDocx.
Proof.
  destruct (startupReload_local_overrides (newRegistry "/tmp/cache")
              "https://github.com/test/repo.git" "main" "/local/skills"
              updated [repoPdf; repoDocx] [localPdf] 7%Z)
    as (r' & E & L & _).
  - reflexivity.
  - intros s [<- | [<- | []]]; reflexivity.
  - intros s [<- | []]; reflexivity.
  - reflexivity.
  - now left.
  - exists r'. split; [exact E |]. now rewrite !L.
Defined.

Lemma registerSkill_from (r : SkillRegistry) (x s : Skill) :
  In s (listSkills (registerSkill r x)) -> s = x \/ In s (listSkills r).
Proof.
  unfold registerSkill, listSkills.
  assert (H : In s (mapValues (skills (setSkill r x))) ->
              s = x \/ In s (mapValues (skills r))).
  { intros Hin.
    destruct (fold_setSkill_from [x] r s Hin) as [[<- | []] | H];
      [now left | now right]. }
  destruct (mapGet (skills r) (skill_id x));
    [destruct (_ <? _)%Z; [now right |] |]; exact H.
Qed.

Lemma fold_registerSkill_from (l : list Skill) : forall r s,
  In s (listSkills (fold_left registerSkill l r)) ->
  In s l \/ In s (listSkills r).
Proof.
  induction l as [| x l IH]; intros r s H; simpl in H; [now right |].
  destruct (IH _ _ H) as [Hin | Hin]; [left; now right |].
  destruct (registerSkill_from _ _ _ Hin) as [-> | Hr];
    [left; now left | now right].
Qed.

(** X21.  The manual refresh.  Unless the sync succeeded with changes the
    registry is left as it is and nothing is counted.  After a reload the
    result reports the new count, and [skillsAdded] and [skillsRemoved] are
    the net growth and the net loss of the count, never both positive.  When
    the cache cannot be written the refresh is rejected with the registry
    already reloaded and [lastSync] left as it was. *)
Theorem handleRefresh_outcome (r : SkillRegistry) (result : GitSyncResult)
  (repoSkills : list Skill) (localSkills : option (list Skill))
  (saved : Completion unit) (now : Z) :
  let outcome := handleRefresh r result repoSkills localSkills saved now in
  let oldCount := Z.of_nat (getSkillCount r) in
  let newCount := Z.of_nat (getSkillCount (snd outcome)) in
  (gs_success result && isTrue (gs_skillsChanged result) = false ->
   snd outcome = r /\
   exists res, fst outcome = Returned res /\
     refresh_success res = gs_success result /\
     skillsAdded res = 0%Z /\ skillsRemoved res = 0%Z) /\
  (forall res, fst outcome = Returned res ->
     skillsUpdated res = newCount /\
     skillsAdded res = Z.max 0 (newCount - oldCount) /\
     skillsRemoved res = Z.max 0 (oldCount - newCount) /\
     (skillsAdded res - skillsRemoved res = newCount - oldCount)%Z /\
     (skillsAdded res = 0 \/ skillsRemoved res = 0)%Z) /\
  (forall res, fst outcome = Returned res -> refresh_success res = true ->
     gs_success result = true) /\
  (forall error, fst outcome = Thrown error ->
     saved = Thrown error /\
     snd outcome = reloadSkills r repoSkills localSkills /\
     getLastSync (snd outcome) = getLastSync r) /\
  (forall s, In s (listSkills (snd outcome)) ->
     In s (listSkills r) \/ In s repoSkills \/
     exists l, localSkills = Some l /\ In s l).
Proof.
  intros outcome oldCount newCount. subst newCount oldCount outcome.
  unfold handleRefresh.
  destruct (gs_success result && isTrue (gs_skillsChanged result)) eqn:C.
  - apply andb_true_iff in C. destruct C as [Cs _].
    assert (Hfrom : forall s,
      In s (listSkills (reloadSkills r repoSkills localSkills)) ->
      In s (listSkills r) \/ In s repoSkills \/
      exists l, localSkills = Some l /\ In s l).
    { intros s Hin. unfold reloadSkills in Hin.
      destruct localSkills as [l |].
      - destruct (fold_registerSkill_from _ _ _ Hin) as [H | H];
          [right; right; now exists l |].
        destruct (fold_registerSkill_from _ _ _ H) as [H' | []].
        right. now left.
      - destruct (fold_registerSkill_from _ _ _ Hin) as [H | []].
        right. now left. }
    destruct saved as [u | e]; cbn [fst snd].
    + split; [discriminate |]. split.
      * intros res [= <-].
        cbn [skillsUpdated skillsAdded skillsRemoved].
        split; [reflexivity |]. split; [reflexivity |].
        split; [reflexivity |]. split; lia.
      * split; [intros res _ _; exact Cs |].
        split; [discriminate |]. exact Hfrom.
    + split; [discriminate |]. split; [discriminate |].
      split; [discriminate |]. split; [| exact Hfrom].
      intros error [= <-]. split; [reflexivity |]. split; [reflexivity |].
      unfold getLastSync, reloadSkills.
      destruct localSkills as [l |]; now rewrite !fold_registerSkill_lastSync.
  - cbn [fst snd]. split.
    + intros _. split; [reflexivity |]. eexists. now repeat split.
    + split.
      * intros res [= <-].
        cbn [skillsUpdated skillsAdded skillsRemoved].
        split; [reflexivity |]. split; [lia |]. split; [lia |]. split; lia.
      * split; [intros res [= <-]; cbn; now intros -> |].
        split; [discriminate |]. intros s Hin. now left.
Qed.

Lemma handleRefresh_outcome_witness :
  exists res r',
    handleRefresh (registerSkill twoSources repoPdf) updated [repoDocx] None
      (Returned tt) 7%Z = (Returned res, r') /\
    skillsUpdated res = 1%Z /\ skillsAdded res = 0%Z /\
    skillsRemoved res = 0%Z /\
    getSkill r' "pdf" = None /\ getSkill r' "docx" = Some repoDocx.
Proof.
  destruct (handleRefresh_outcome (registerSkill twoSources repoPdf) updated
              [repoDocx] None (Returned tt) 7%Z) as (_ & H & _).
  destruct (handleRefresh (registerSkill twoSources repoPdf) updated
              [repoDocx] None (Returned tt) 7%Z) as [out r'] eqn:E.
  cbn in E. injection E as Eo Er. cbn [fst snd] in H.
  destruct out as [res | e]; [| discriminate Eo].
  destruct (H res eq_refl) as (H1 & H2 & H3 & _).
  exists res, r'. split; [reflexivity |].
  rewrite H1, H2, H3, <- Er. repeat split.
Defined.

(** X22.  The reload of the auto-sync callback registers the repository
    skills only: whatever the registry held, afterwards every skill it lists
    is one of the parsed repository list, so the skills of the local path are
    gone until the next start or manual refresh; with a repository list of
    repository skills, each id is served by the last skill of the list with
    that id. *)
Theorem autoSyncReload_repository_only (r : SkillRegistry)
  (result : GitSyncResult) (repoSkills : list Skill)
  (saved : Completion unit) (now : Z) :
  gs_success result = true ->
  gs_skillsChanged result = Some true ->
  let r' := autoSyncReload r result repoSkills saved now in
  (forall s, In s (listSkills r') -> In s repoSkills) /\
  ((forall s, In s repoSkills -> skill_source s = SrcRepository) ->
   (forall s, In s (listSkills r') -> skill_source s = SrcRepository) /\
   (forall id, getSkill r' id = lastWithId repoSkills id)) /\
  getSources r' = getSources r /\
  getLastSync r' = match saved with
                   | Returned _ => Some (ValidDate now)
                   | Thrown _ => getLastSync r
                   end.
Proof.
  intros Hs Hc r'. unfold r', autoSyncReload. rewrite Hs, Hc. cbn [isTrue andb].
  assert (Hfrom : forall s,
    In s (listSkills (fold_left registerSkill repoSkills (clear r))) ->
    In s repoSkills).
  { intros s Hin. now destruct (fold_registerSkill_from _ _ _ Hin) as [H | []]. }
  assert (Hsame : forall t s,
    In s (listSkills (setLastSync
                        (fold_left registerSkill repoSkills (clear r)) t)) ->
    In s repoSkills) by (intros t; exact Hfrom).
  destruct saved as [u | e].
  - split; [exact (Hsame (ValidDate now)) |]. split; [| split].
    + intros Hrepo. split.
      * intros s Hin. apply Hrepo. exact (Hsame (ValidDate now) s Hin).
      * intros id.
        change (getSkill (fold_left registerSkill repoSkills (clear r)) id
                = lastWithId repoSkills id).
        now apply reloadSkills_repository_lookup.
    + unfold getSources. simpl. now rewrite fold_registerSkill_sources.
    + reflexivity.
  - split; [exact Hfrom |]. split; [| split].
    + intros Hrepo. split.
      * intros s Hin. apply Hrepo. exact (Hfrom s Hin).
      * intros id. now apply reloadSkills_repository_lookup.
    + unfold getSources. now rewrite fold_registerSkill_sources.
    + unfold getLastSync. now rewrite fold_registerSkill_lastSync.
Qed.

Lemma autoSyncReload_repository_only_witness :
  getSkill (autoSyncReload (registerSkill twoSources localPdf) updated
              [repoDocx] (Returned tt) 7%Z) "pdf" = None /\
  getSkill (autoSyncReload (registerSkill twoSources localPdf) updated
              [repoDocx] (Returned tt) 7%Z) "docx" = Some repoDocx.
Proof.
  destruct (autoSyncReload_repository_only (registerSkill twoSources localPdf)
              updated [repoDocx] (Returned tt) 7%Z eq_refl eq_refl)
    as (_ & H & _).
  destruct H as (_ & L).
  - intros s [<- | []]. reflexivity.
  - now rewrite !L.
Defined.

(** X23.  What the auto-sync callback finds.  The timer callback calls
    [onUpdate] after a sync that succeeded with an update, and [onUpdate]
    starts by syncing again.  When no other git command runs in between and
    the remote branch has not moved, this second sync finds the clone level
    with its remote, so it reports no change and the callback leaves the
    registry as it is: the skills that the first sync brought are not
    loaded. *)
Theorem autoSync_update_not_loaded (fuel : nat) (branch : string)
  (w w1 : WorkingCopy) (r1 : GitSyncResult)
  (registry : SkillRegistry) (repoSkills : list Skill)
  (saved : Completion unit) (now : Z) :
  sync (S (S fuel)) branch w = Some (r1, w1) ->
  gs_success r1 && gs_updated r1 = true ->
  exists r2 w2,
    sync (S (S fuel)) branch w1 = Some (r2, w2) /\
    autoSyncReload registry r2 repoSkills saved now = registry /\
    (forall st, callbackPhase st = CallbackAwaitingSync ->
       step st (CallbackSyncSettled r2) = Some (callbackDone st)).
Proof.
  intros E Hu. apply andb_true_iff in Hu. destruct Hu as [Hs _].
  destruct (sync_success_level _ _ _ _ _ E Hs) as (Hg & Hh & _).
  destruct (sync_level_once (S fuel) branch w1 Hg Hh)
    as (r2 & w2 & started & E2 & _ & _ & _ & K & _).
  assert (Hno : gs_success r2 && isTrue (gs_skillsChanged r2) = false).
  { destruct (gs_skillsChanged r2) as [[] |]; [now elim K | |];
      apply andb_false_r. }
  exists r2, w2. split; [exact E2 |]. split.
  - unfold autoSyncReload. now rewrite Hno.
  - intros st Hst. simpl. now rewrite Hst, Hno.
Qed.

Lemma autoSync_update_not_loaded_witness :
  exists w1 r2 w2,
    sync 2 "main" staleCopy = Some (updated, w1) /\
    sync 2 "main" w1 = Some (r2, w2) /\
    autoSyncReload twoSources r2 [repoDocx] (Returned tt) 7%Z = twoSources.
Proof.
  destruct (sync 2 "main" staleCopy) as [[r1 w1] |] eqn:E;
    [| discriminate E].
  pose proof E as E'. cbn in E'. injection E' as Hr Hw.
  destruct (autoSync_update_not_loaded 0 "main" staleCopy w1 r1 twoSources
              [repoDocx] (Returned tt) 7%Z E) as (r2 & w2 & E2 & H & _).
  { now rewrite <- Hr. }
  exists w1, r2, w2. split; [now rewrite <- Hr |]. now split.
Defined.

(** ** The syncs of the auto-sync loop *)

Lemma step_accounting (st st' : LoopState) (ev : LoopEvent) :
  flagConsistent st = true ->
  step st ev = Some st' ->
  syncsStarted st' + callbacksSkipped st'
  = syncsStarted st + callbacksSkipped st
    + (if isTick ev then 1 else 0) + (if callsOnUpdate ev then 1 else 0) /\
  callbacksSkipped st'
  <= callbacksSkipped st + (if callsOnUpdate ev then 1 else 0) /\
  handlerSyncs st' <= handlerSyncs st + (if isTick ev then 1 else 0) /\
  syncsInFlight st' + syncsStarted st <= syncsInFlight st + syncsStarted st'.
Proof.
  unfold flagConsistent, syncsInFlight. intros Hf.
  destruct ev as [| result | result |]; simpl.
  - intros [= <-]. simpl. lia.
  - destruct (handlerSyncs st) as [| n] eqn:Hn; [discriminate |].
    destruct (gs_success result && gs_updated result); intros [= <-].
    + unfold onUpdate. simpl.
      destruct (isSyncing st); simpl; [lia |].
      destruct (callbackPhase st); try discriminate Hf; lia.
    + simpl. lia.
  - destruct (callbackPhase st) eqn:Hp; try discriminate.
    destruct (gs_success result && isTrue (gs_skillsChanged result));
      intros [= <-]; simpl; rewrite ?Hp; lia.
  - destruct (callbackPhase st) eqn:Hp; try discriminate.
    intros [= <-]. simpl. lia.
Qed.

Lemma runLoop_accounting (events : list LoopEvent) : forall st st',
  flagConsistent st = true ->
  runLoop st events = Some st' ->
  syncsStarted st' + callbacksSkipped st'
  = syncsStarted st + callbacksSkipped st
    + countEvents isTick events + countEvents callsOnUpdate events /\
  callbacksSkipped st'
  <= callbacksSkipped st + countEvents callsOnUpdate events /\
  handlerSyncs st' <= handlerSyncs st + countEvents isTick events /\
  syncsInFlight st' + syncsStarted st <= syncsInFlight st + syncsStarted st'.
Proof.
  unfold countEvents.
  induction events as [| ev events IH]; intros st st' Hf; simpl.
  - intros [= <-]. lia.
  - destruct (step st ev) as [st1 |] eqn:E; [| discriminate].
    intros Hrun.
    pose proof (step_flag_consistent st st1 ev Hf E) as Hf1.
    destruct (step_accounting st st1 ev Hf E) as (A1 & A2 & A3 & A4).
    destruct (IH st1 st' Hf1 Hrun) as (B1 & B2 & B3 & B4).
    destruct (isTick ev), (callsOnUpdate ev); simpl; lia.
Qed.

(** X24.  The syncs of the auto-sync loop.  After any run of the loop, the
    calls of [sync()] made so far are one for every tick of the timer and one
    more for every call of [onUpdate] that was not turned away by the
    [isSyncing] guard; the flag is set exactly while an [onUpdate] is under
    way, so at most one of the pending syncs was started by [onUpdate], and
    the others are those of the timer callbacks. *)
Theorem autoSync_sync_count (events : list LoopEvent) (st : LoopState) :
  runLoop loopStart events = Some st ->
  syncsStarted st + callbacksSkipped st
  = countEvents isTick events + countEvents callsOnUpdate events /\
  callbacksSkipped st <= countEvents callsOnUpdate events /\
  flagConsistent st = true /\
  syncsInFlight st <= handlerSyncs st + 1 /\
  handlerSyncs st <= countEvents isTick events /\
  syncsInFlight st <= syncsStarted st.
Proof.
  intros Hrun.
  destruct (runLoop_accounting events loopStart st eq_refl Hrun)
    as (A1 & A2 & A3 & A4).
  pose proof (runLoop_flag_consistent events loopStart st eq_refl Hrun) as Hf.
  simpl in A1, A2, A3, A4.
  split; [exact A1 |]. split; [exact A2 |]. split; [exact Hf |].
  split; [unfold syncsInFlight; destruct (callbackPhase st); lia |].
  split; [exact A3 | lia].
Qed.

Lemma autoSync_sync_count_witness :
  syncsStarted reloadingLoop + callbacksSkipped reloadingLoop = 2 + 1.
Proof.
  destruct (autoSync_sync_count [Tick; HandlerSyncSettled updated;
                                 CallbackSyncSettled updated; Tick]
              reloadingLoop eq_refl) as (H & _).
  exact H.
Defined.

(** ** The order of the listing *)

Lemma mapKeys_mapSet {V : Type} (m : list (string * V)) (k : string) (v : V) :
  mapKeys (mapSet m k v) = mapKeys m ++ (if mapHas m k then [] else [k]).
Proof.
  unfold mapHas. induction m as [| [k' v'] m IH]; simpl; [reflexivity |].
  destruct (String.eqb k' k) eqn:E; simpl.
  - now rewrite app_nil_r.
  - now rewrite IH.
Qed.

(** X25.  The listing keeps the order of first registration: a registration
    under a new id appends the id to the ids listed, and a registration under
    an id already held leaves the ids listed and their order as they are,
    whether the incoming skill replaces the record or is discarded. *)
Theorem registerSkill_listing_order (r : SkillRegistry) (s : Skill) :
  wellFormed r = true ->
  map skill_id (listSkills (registerSkill r s))
  = map skill_id (listSkills r)
    ++ (if hasSkill r (skill_id s) then [] else [skill_id s]).
Proof.
  intros Hwf.
  assert (Hk : forall r', wellFormed r' = true ->
            map skill_id (listSkills r') = mapKeys (skills r')).
  { intros r' H. unfold wellFormed in H.
    apply andb_true_iff in H. destruct H as [H _].
    apply andb_true_iff in H. destruct H as [H _].
    unfold listSkills. now rewrite keysAreIds_keys. }
  assert (Hset : map skill_id (listSkills (setSkill r s))
                 = map skill_id (listSkills r)
                   ++ (if hasSkill r (skill_id s) then [] else [skill_id s])).
  { rewrite (Hk _ (wellFormed_setSkill r s Hwf)), (Hk _ Hwf).
    apply mapKeys_mapSet. }
  unfold registerSkill.
  destruct (mapGet (skills r) (skill_id s)) as [e |] eqn:G; [| exact Hset].
  destruct (_ <? _)%Z; [| exact Hset].
  unfold hasSkill, mapHas. rewrite G. now rewrite app_nil_r.
Qed.

Lemma registerSkill_listing_order_witness :
  map skill_id (listSkills
                  (registerSkill (registerSkill (registerSkill twoSources repoPdf)
                                    repoDocx) localPdf))
  = ["pdf"; "docx"].
Proof.
  rewrite (registerSkill_listing_order
             (registerSkill (registerSkill twoSources repoPdf) repoDocx)
             localPdf eq_refl).
  reflexivity.
Defined.
